(** * Undine WebDAV server core: lock engine, content negotiation,
      file-system property and lock stores.

    Shallow embedding of
    - [src/Methods/Method.ts]: [getParentResource],
      [removeAndDeleteTimedOutLocks], [getCurrentResourceLocks],
      [getLocksGeneral], [getLocks], [getLocksByUser], [getProvisionalLocks],
      [getLockPermission], [getRequestLockTockens], [getRequestedEncoding],
      [getCacheControl], [getBodyStream], [sendBodyContent], [formatLocks];
    - [src/FileSystemAdapter/Properties.ts]: [get], [set], [getAll], [list],
      [listLive], [listDead];
    - the file-system adapter's [Lock] class: [Lock.save], [Lock.delete].

    Conventions.
    - Header values and URL path names are byte strings ([string]); one
      [ascii] stands for one UTF-16 code unit below U+0100.
    - Promises are run to completion: an [async] method is a function of
      the world it reads and writes, and returns the world it leaves.
    - The adapter behind the lock engine is an in-memory store of locks per
      resource; its [delete()] may throw.  The clock is read as frozen
      while one method runs.
    - A loop that may not end carries fuel, [None] is the run that does not
      end; the fuel given is shown to be enough.
    - JavaScript numbers are abstract in the statements about content
      negotiation; [Decimal] is an instance to run them on. *)

From Stdlib Require Import ZArith Lia String Ascii List Bool Permutation Sorted.
From Stdlib Require Import DecimalString.
From stdpp Require Import base option list gmap strings.

Local Open Scope string_scope.
Local Open Scope list_scope.

(** ** JavaScript string primitives used by the sources *)

Module JS.

(** [WhiteSpace] and [LineTerminator] code units below U+0100: what
    [String.prototype.trim] strips and what [\s] matches. *)
Definition isWhiteSpace (c : ascii) : bool :=
  let n := nat_of_ascii c in
  (Nat.eqb n 9 || Nat.eqb n 10 || Nat.eqb n 11 || Nat.eqb n 12
   || Nat.eqb n 13 || Nat.eqb n 32 || Nat.eqb n 160)%bool.

Fixpoint trimStart (s : string) : string :=
  match s with
  | EmptyString => EmptyString
  | String c s' => if isWhiteSpace c then trimStart s' else s
  end.

Fixpoint trimEnd (s : string) : string :=
  match s with
  | EmptyString => EmptyString
  | String c s' =>
      match trimEnd s' with
      | EmptyString => if isWhiteSpace c then EmptyString else String c EmptyString
      | t => String c t
      end
  end.

(** [s.trim()] *)
Definition trim (s : string) : string := trimEnd (trimStart s).

(** [s.split(sep)] for a one-character separator: never the empty list. *)
Fixpoint split (sep : ascii) (s : string) : list string :=
  match s with
  | EmptyString => [EmptyString]
  | String c s' =>
      if Ascii.eqb c sep then EmptyString :: split sep s'
      else match split sep s' with
           | x :: xs => String c x :: xs
           | [] => [String c EmptyString]
           end
  end.

(** [l.join(sep)] *)
Fixpoint join (sep : string) (l : list string) : string :=
  match l with
  | [] => EmptyString
  | [x] => x
  | x :: xs => x ++ sep ++ join sep xs
  end.

(** [l.slice(0, -1)] *)
Definition slice_0_m1 {A} (l : list A) : list A := removelast l.

(** [s.replace(/(?:$|\/$)/, () => r)]: the leftmost match is the final
    slash when [s] ends with one, and the empty match at the end of [s]
    otherwise. *)
Fixpoint replaceEndSlash (r : string) (s : string) : string :=
  match s with
  | EmptyString => r
  | String c s' =>
      if (Ascii.eqb c "/" && String.eqb s' EmptyString)%bool then r
      else String c (replaceEndSlash r s')
  end.

(** [s.replace(/^q=/, '')] *)
Definition replaceLeadingQ (s : string) : string :=
  match s with
  | String "q" (String "=" rest) => rest
  | _ => s
  end.

(** [l.includes(x)] on strings. *)
Definition includes (l : list string) (x : string) : bool :=
  existsb (String.eqb x) l.

(** [l.indexOf(x)]: the first index of [x], or -1. *)
Fixpoint indexOf (l : list string) (x : string) : Z :=
  match l with
  | [] => (-1)%Z
  | y :: l' =>
      if String.eqb y x then 0%Z
      else let i := indexOf l' x in
           if (i <? 0)%Z then (-1)%Z else (i + 1)%Z
  end.

(** [l.find(p)] *)
Definition find {A} (p : A -> bool) (l : list A) : option A := List.find p l.

Definition toLowerChar (c : ascii) : ascii :=
  let n := nat_of_ascii c in
  if (Nat.leb 65 n && Nat.leb n 90)%bool then ascii_of_nat (n + 32) else c.

Fixpoint toLowerCase (s : string) : string :=
  match s with
  | EmptyString => EmptyString
  | String c s' => String (toLowerChar c) (toLowerCase s')
  end.

End JS.

(** ** Errors thrown by the core *)

Inductive Error : Type :=
| EncodingNotSupportedError (msg : string)
| PropertyIsProtectedError (msg : string)
| IOError (code : string).

(** ** Requests *)

(** The part of an Express request the embedded methods read.  Header names
    are stored in lower case, as Node stores them; [get] folds the case of
    the name it is asked for. *)
Record Request : Type := mkRequest {
  method : string;
  baseUrl : string;
  headers : list (string * string)
}.

Fixpoint assoc (k : string) (l : list (string * string)) : option string :=
  match l with
  | [] => None
  | (k', v) :: l' => if String.eqb k' k then Some v else assoc k l'
  end.

(** [request.get(name)] *)
Definition get (request : Request) (name : string) : option string :=
  assoc (JS.toLowerCase name) (headers request).

(** [x || d] on an optional string: [undefined] and [''] are falsy. *)
Definition orElse (x : option string) (d : string) : string :=
  match x with
  | Some s => if String.eqb s EmptyString then d else s
  | None => d
  end.

(** ** Content negotiation: [Method.getRequestedEncoding] *)

(** JavaScript numbers enter only through [parseFloat], the subtraction in
    the sort comparator and the sign test of [Array.prototype.sort].  They
    are kept abstract: every statement below holds for any implementation of
    the three, IEEE 754 binary64 included. *)
Section Encoding.

Context {number : Type}.
Variable parseFloat : string -> number.
Variable sub : number -> number -> number.
(** [positive x]: the comparator result [x] is greater than zero. *)
Variable positive : number -> bool.

Definition Entry : Type := (string * number)%type.

(** [(a, b) => b[1] - a[1]] *)
Definition compareFn (a b : Entry) : number := sub (snd b) (snd a).

(** [Array.prototype.sort] is stable.  It is embedded as the stable
    insertion sort: an element moves behind exactly those elements the
    comparator orders strictly before it.  For a comparator that is an order
    every stable sort gives this result; for one that is not (a q-value that
    is NaN) the language leaves the result to the implementation, and this is
    one. *)
Fixpoint insertSorted (x : Entry) (l : list Entry) : list Entry :=
  match l with
  | [] => [x]
  | y :: l' =>
      if positive (compareFn x y) then y :: insertSorted x l' else x :: l
  end.

Definition sort (l : list Entry) : list Entry := foldr insertSorted [] l.

Definition supported : list string := ["gzip"; "deflate"; "br"; "identity"].

(** [[...supported, 'x-gzip', '*']] *)
Definition recognised : list string := supported ++ ["x-gzip"; "*"].

(** [.map((value) => value.trim().split(';'))] followed by
    [.map((value) => [value[0], parseFloat(value[1]?.replace(/^q=/, '') || '1.0')])] *)
Definition parseEntry (value : string) : Entry :=
  let value := JS.split ";" (JS.trim value) in
  (hd EmptyString value,
   parseFloat (orElse (option_map JS.replaceLeadingQ (nth_error value 1)) "1.0")).

Definition parseEncodings (acceptEncoding : string) : list Entry :=
  map parseEntry (JS.split "," acceptEncoding).

(** The [while] loop: [encoding] is the current candidate, [encodings] the
    entries not yet spliced off. *)
Fixpoint pickEncoding (encoding : string) (encodings : list Entry)
  : Error + (string * list Entry) :=
  if JS.includes recognised encoding then inr (encoding, encodings)
  else match encodings with
       | [] => inl (EncodingNotSupportedError
                      "Requested content encoding is not supported.")
       | e :: rest => pickEncoding (fst e) rest
       end.

(** [supported.find((check) => encodings.find(([check2]) => check === check2) == null) || 'gzip'] *)
Definition pickUnlisted (encodings : list Entry) : string :=
  orElse
    (JS.find (fun check =>
                match JS.find (fun e => String.eqb check (fst e)) encodings with
                | None => true
                | Some _ => false
                end) supported)
    "gzip".

Definition acceptEncodingOf (request : Request) : string :=
  orElse (get request "Accept-Encoding") "identity, *;q=0.5".

Definition getRequestedEncoding (request : Request) : Error + string :=
  let acceptEncoding := acceptEncodingOf request in
  let encodings := sort (parseEncodings acceptEncoding) in
  match pickEncoding EmptyString encodings with
  | inl e => inl e
  | inr (encoding, encodings) =>
      if String.eqb encoding "*" then inr (pickUnlisted encodings)
      else inr encoding
  end.

End Encoding.

(** ** A decimal reading of JavaScript numbers

    An instance of the three number operations above on which the methods
    can be run: [parseFloat] follows the [StrDecimalLiteral] grammar and
    keeps the exact decimal value (binary64 rounding is not represented). *)

Module Decimal.

Inductive number : Type :=
| NaN
| Infinity (negative : bool)
| Finite (numerator : Z) (denominator : positive).

Definition isDigit (c : ascii) : bool :=
  let n := nat_of_ascii c in (Nat.leb 48 n && Nat.leb n 57)%bool.

Definition digitValue (c : ascii) : Z := Z.of_nat (nat_of_ascii c - 48).

(** Reads the longest run of decimal digits; returns its value as an
    integer continuing [acc], the number of digits read and the rest. *)
Fixpoint readDigits (acc : Z) (count : nat) (s : string) : Z * nat * string :=
  match s with
  | String c s' =>
      if isDigit c then readDigits (10 * acc + digitValue c) (S count) s'
      else (acc, count, s)
  | EmptyString => (acc, count, s)
  end.

Definition readSign (s : string) : bool * string :=
  match s with
  | String "-" s' => (true, s')
  | String "+" s' => (false, s')
  | _ => (false, s)
  end.

(** [ExponentPart]: present only when at least one digit follows. *)
Definition readExponent (s : string) : Z :=
  match s with
  | String c s' =>
      if (Ascii.eqb c "e" || Ascii.eqb c "E")%bool then
        let '(neg, s'') := readSign s' in
        let '(e, count, _) := readDigits 0 0 s'' in
        match count with
        | O => 0%Z
        | _ => if neg then (- e)%Z else e
        end
      else 0%Z
  | EmptyString => 0%Z
  end.

Definition scale (m : Z) (e : Z) : number :=
  if (0 <=? e)%Z then Finite (m * 10 ^ e) 1
  else Finite m (Z.to_pos (10 ^ (- e))).

Definition parseFloat (s : string) : number :=
  let '(neg, s) := readSign (JS.trimStart s) in
  if String.prefix "Infinity" s then Infinity neg
  else
    let '(m1, c1, s1) := readDigits 0 0 s in
    let '(m2, c2, s2) :=
      match s1 with
      | String "." s1' => readDigits m1 0 s1'
      | _ => (m1, O, s1)
      end in
    match (c1 + c2)%nat with
    | O => NaN
    | _ =>
        let m := if neg then (- m2)%Z else m2 in
        scale m (readExponent s2 - Z.of_nat c2)
    end.

(** [x - y] *)
Definition sub (x y : number) : number :=
  match x, y with
  | NaN, _ | _, NaN => NaN
  | Infinity a, Infinity b => if Bool.eqb a b then NaN else Infinity a
  | Infinity a, Finite _ _ => Infinity a
  | Finite _ _, Infinity b => Infinity (negb b)
  | Finite n d, Finite n' d' =>
      Finite (n * Z.pos d' - n' * Z.pos d) (d * d')
  end.

(** [x > 0] *)
Definition positive (x : number) : bool :=
  match x with
  | NaN => false
  | Infinity negative => negb negative
  | Finite n _ => (0 <? n)%Z
  end.

Definition isNaN (x : number) : bool :=
  match x with NaN => true | _ => false end.

End Decimal.

(** ** Reference notions for content negotiation *)

(** The name of one comma-separated piece of the header, as the code reads
    it: the text before the first semicolon of the trimmed piece. *)
Definition entryName (value : string) : string :=
  hd EmptyString (JS.split ";" (JS.trim value)).

(** The encodings a header lists. *)
Definition listed (acceptEncoding : string) : list string :=
  map entryName (JS.split "," acceptEncoding).

(** The content codings the method can answer with. *)
Definition contentCodings : list string :=
  ["gzip"; "x-gzip"; "deflate"; "br"; "identity"].

(** The first of [supported] that is not among [names]; [gzip] when all
    are. *)
Definition firstUnlisted (names : list string) : string :=
  orElse (List.find (fun check => negb (JS.includes names check)) supported)
         "gzip".

Section EncodingSpec.

Context {number : Type}.
Variable parseFloat : string -> number.
Variable sub : number -> number -> number.
Variable positive : number -> bool.

Definition isRecognised (e : @Entry number) : bool :=
  JS.includes recognised (fst e).

(** The entry the [while] loop stops at. *)
Definition chosen (acceptEncoding : string) : option (@Entry number) :=
  List.find isRecognised (sort sub positive (parseEncodings parseFloat acceptEncoding)).

(** Definition following the spec's words ("chosen by descending q-value"):
    the recognised entry with the greatest q-value, the earliest in the
    header among those with equal q-values. *)
Fixpoint bestByQ (l : list (@Entry number)) : option (@Entry number) :=
  match l with
  | [] => None
  | x :: l' =>
      if isRecognised x then
        match bestByQ l' with
        | Some e => if positive (sub (snd e) (snd x)) then Some e else Some x
        | None => Some x
        end
      else bestByQ l'
  end.

(** A list in descending order of q-value: no entry is followed by one the
    comparator puts strictly before it. *)
Definition descending (l : list (@Entry number)) : Prop :=
  StronglySorted (fun a b => positive (compareFn sub a b) = false) l.

(** An entry whose q-value is a number. *)
Definition numeric (isNaN : number -> bool) (e : @Entry number) : Prop :=
  isNaN (snd e) = false.

End EncodingSpec.

(** Requests that differ in their [Accept-Encoding] header only. *)
Definition withAcceptEncoding (value : option string) : Request :=
  mkRequest "GET" EmptyString
    (match value with
     | Some v => [("accept-encoding", v)]
     | None => []
     end).

(** ** Response bodies: [Method.sendBodyContent] *)

Inductive HeaderValue : Type :=
| HString (s : string)
| HNumber (n : Z)
| HList (l : list string).

(** The part of an Express response the method touches: the header table
    (names in lower case) and the body handed to [response.send]. *)
Record Response : Type := mkResponse {
  responseHeaders : gmap string HeaderValue;
  sentBody : option (list Z)
}.

(** [response.getHeader(name)] *)
Definition getHeader (response : Response) (name : string) : option HeaderValue :=
  responseHeaders response !! JS.toLowerCase name.

(** [response.set({ name: value })] for one entry. *)
Definition setHeader (name : string) (value : HeaderValue) (response : Response)
  : Response :=
  mkResponse (<[JS.toLowerCase name := value]> (responseHeaders response))
             (sentBody response).

(** [response.send(buffer)] *)
Definition send (buffer : list Z) (response : Response) : Response :=
  mkResponse (responseHeaders response) (Some buffer).

Record Options : Type := mkOptions {
  compression : bool;
  optsTimeout : Z
}.

(** [Buffer.from(content, 'utf-8')] on a string given by its UTF-16 code
    units: surrogate pairs become four bytes, a lone surrogate becomes the
    three bytes of U+FFFD. *)
Definition isHighSurrogate (u : Z) : bool := ((55296 <=? u) && (u <=? 56319))%Z.
Definition isLowSurrogate (u : Z) : bool := ((56320 <=? u) && (u <=? 57343))%Z.

Definition utf8_3 (u : Z) : list Z :=
  [Z.lor 224 (Z.shiftr u 12);
   Z.lor 128 (Z.land (Z.shiftr u 6) 63);
   Z.lor 128 (Z.land u 63)].

Definition utf8_4 (cp : Z) : list Z :=
  [Z.lor 240 (Z.shiftr cp 18);
   Z.lor 128 (Z.land (Z.shiftr cp 12) 63);
   Z.lor 128 (Z.land (Z.shiftr cp 6) 63);
   Z.lor 128 (Z.land cp 63)].

Fixpoint Buffer_from_utf8 (content : list Z) : list Z :=
  match content with
  | [] => []
  | u :: rest =>
      if (u <? 128)%Z then u :: Buffer_from_utf8 rest
      else if (u <? 2048)%Z then
        Z.lor 192 (Z.shiftr u 6) :: Z.lor 128 (Z.land u 63) :: Buffer_from_utf8 rest
      else if isHighSurrogate u then
        match rest with
        | lo :: rest' =>
            if isLowSurrogate lo then
              utf8_4 (65536 + Z.shiftl (u - 55296) 10 + (lo - 56320))
                ++ Buffer_from_utf8 rest'
            else utf8_3 65533 ++ Buffer_from_utf8 rest
        | [] => utf8_3 65533
        end
      else if isLowSurrogate u then utf8_3 65533 ++ Buffer_from_utf8 rest
      else utf8_3 u ++ Buffer_from_utf8 rest
  end.

(** [buffer.byteLength] *)
Definition byteLength (buffer : list Z) : Z := Z.of_nat (List.length buffer).

(** [cacheControl.match(/(?:^|,)\s*?no-transform\s*?(?:,|$)/)]: a match runs
    from the start or a comma to the next comma or the end and holds no
    comma itself, so it is one comma-separated piece that is [no-transform]
    between white space. *)
Definition matchesNoTransform (cacheControl : string) : bool :=
  existsb (fun piece => String.eqb (JS.trim piece) "no-transform")
          (JS.split "," cacheControl).

Section SendBody.

(** The [vary] package and [node:zlib] are outside the sources. *)
Variable vary : Response -> string -> Response.
Variable gzipSync deflateSync brotliCompressSync : list Z -> list Z.

Definition sendBodyContent (opts : Options) (response : Response)
  (content : list Z) (encoding : string) : Response :=
  let response := vary response "Accept-Encoding" in
  let cacheControl := getHeader response "Cache-Control" in
  let noTransform :=
    match cacheControl with
    | Some (HString s) => matchesNoTransform s
    | _ => false
    end in
  if (negb (compression opts) || String.eqb encoding "identity" || noTransform)%bool
  then
    let unencodedContent := Buffer_from_utf8 content in
    let response :=
      setHeader "Content-Length" (HNumber (byteLength unencodedContent)) response in
    send unencodedContent response
  else
    let transform : list Z -> list Z :=
      if (String.eqb encoding "gzip" || String.eqb encoding "x-gzip")%bool
      then gzipSync
      else if String.eqb encoding "deflate" then deflateSync
      else if String.eqb encoding "br" then brotliCompressSync
      else fun content => content in
    let unencodedContent := Buffer_from_utf8 content in
    let encodedContent := transform unencodedContent in
    let response := setHeader "Content-Encoding" (HString encoding) response in
    let response :=
      setHeader "Content-Length" (HNumber (byteLength encodedContent)) response in
    send encodedContent response.

End SendBody.

(** A reading of [vary(response, field)] on which the method can be run:
    the field is appended to the [Vary] header unless that header is there
    already. *)
Definition varyAppend (response : Response) (field : string) : Response :=
  match getHeader response "Vary" with
  | None => setHeader "Vary" (HString field) response
  | Some _ => response
  end.

(** ** The adapter contract: resources, users, locks *)

(** A resource is named by the path of its canonical URL, which is all the
    core reads of it; [adapter.getResource] returns the resource of a path
    and [resource.getCanonicalUrl(base).pathname] gives the path back. *)
Definition Resource : Type := string.

Record User : Type := mkUser { username : string }.

Definition sameUser (a b : User) : bool := String.eqb (username a) (username b).

(** Modelled from the spec: the declaration of the [Lock] interface is not
    among the sources.  "scope ∈ {exclusive, shared}", "depth ∈ {0, ∞}"; the
    other attributes are the fields the core reads. *)
Inductive Scope : Type := exclusive | shared.

Inductive Depth : Type := depth_0 | depth_infinity.

Module Lock.
Record t : Type := mk {
  token : string;
  resource : Resource;
  user : User;
  date : Z;            (* [date.getTime()], milliseconds *)
  timeout : Z;         (* milliseconds *)
  scope : Scope;
  depth : Depth;
  provisional : bool
}.
End Lock.

(** The world one request runs against: the adapter's lock store, the clock
    ([new Date().getTime()], read as frozen while one method runs), the
    locks whose [delete()] throws, and the record of the deletions
    attempted so far. *)
Record World : Type := mkWorld {
  store : Resource -> list Lock.t;
  now : Z;
  deleteFails : Lock.t -> bool;
  deleteLog : list Lock.t
}.

(** Modelled from the spec: [resource.getLocks()] of the adapter, "locks
    keyed by token" per resource. *)
Definition Resource_getLocks (resource : Resource) (w : World) : list Lock.t :=
  store w resource.

(** Modelled from the spec: [resource.getLocksByUser(user)], the locks of
    the resource whose principal is [user]. *)
Definition Resource_getLocksByUser (resource : Resource) (user : User) (w : World)
  : list Lock.t :=
  List.filter (fun lock => sameUser (Lock.user lock) user) (store w resource).

Definition removeToken (token : string) (locks : list Lock.t) : list Lock.t :=
  List.filter (fun l => negb (String.eqb (Lock.token l) token)) locks.

(** Modelled from the spec: [lock.delete()] of the adapter removes the entry
    keyed by the lock's token from the store of the lock's resource, or
    throws and leaves the store as it was. *)
Definition Lock_delete (lock : Lock.t) (w : World) : option Error * World :=
  let log := deleteLog w ++ [lock] in
  if deleteFails w lock then
    (Some (IOError "EIO"), mkWorld (store w) (now w) (deleteFails w) log)
  else
    (None,
     mkWorld (fun r => if String.eqb r (Lock.resource lock)
                       then removeToken (Lock.token lock) (store w r)
                       else store w r)
             (now w) (deleteFails w) log).

(** ** The lock engine of [Method] *)

(** [Method.getParentResource].  [None] is [undefined]. *)
Definition getParentResource (request : Request) (resource : Resource)
  : option Resource :=
  let pathname := resource in
  let splitPath := JS.split "/" (JS.replaceEndSlash "" pathname) in
  let newPath :=
    JS.replaceEndSlash "/" (JS.join "/" (JS.slice_0_m1 splitPath)) in
  if String.eqb newPath (JS.replaceEndSlash "/" (baseUrl request)) then None
  else Some newPath.

(** The [for] loop of [Method.removeAndDeleteTimedOutLocks]; the error of a
    failed [delete()] is dropped, as the [catch] block does. *)
Fixpoint removeAndDeleteTimedOutLocks_loop
  (locks currentLocks : list Lock.t) (w : World) : list Lock.t * World :=
  match locks with
  | [] => (currentLocks, w)
  | lock :: locks =>
      if (Lock.date lock + Lock.timeout lock <=? now w)%Z then
        let '(_, w) := Lock_delete lock w in
        removeAndDeleteTimedOutLocks_loop locks currentLocks w
      else
        removeAndDeleteTimedOutLocks_loop locks (currentLocks ++ [lock]) w
  end.

Definition removeAndDeleteTimedOutLocks (locks : list Lock.t) (w : World)
  : list Lock.t * World :=
  removeAndDeleteTimedOutLocks_loop locks [] w.

Definition getCurrentResourceLocks (resource : Resource) (w : World)
  : list Lock.t * World :=
  let locks := Resource_getLocks resource w in
  removeAndDeleteTimedOutLocks locks w.

Definition getCurrentResourceLocksByUser (resource : Resource) (user : User)
  (w : World) : list Lock.t * World :=
  let locks := Resource_getLocksByUser resource user w in
  removeAndDeleteTimedOutLocks locks w.

(** The four views [{ all, resource, depthZero, depthInfinity }]. *)
Module Locks.
Record t : Type := mk {
  all : list Lock.t;
  resource : list Lock.t;
  depthZero : list Lock.t;
  depthInfinity : list Lock.t
}.
End Locks.

(** Body of [for (let lock of parentLocks)] in [getLocksGeneral]. *)
Definition pushParentLock (firstLevelParent : bool) (locks : Locks.t)
  (lock : Lock.t) : Locks.t :=
  match Lock.depth lock with
  | depth_infinity =>
      Locks.mk (Locks.all locks ++ [lock]) (Locks.resource locks)
               (Locks.depthZero locks) (Locks.depthInfinity locks ++ [lock])
  | depth_0 =>
      if firstLevelParent then
        Locks.mk (Locks.all locks ++ [lock]) (Locks.resource locks)
                 (Locks.depthZero locks ++ [lock]) (Locks.depthInfinity locks)
      else locks
  end.

Definition LockReader : Type := Resource -> World -> list Lock.t * World.

(** The [while (parent)] loop of [getLocksGeneral].  [fuel] bounds the
    number of iterations; [None] stands for a loop that does not end. *)
Fixpoint walkParents (fuel : nat) (request : Request) (getLocks : LockReader)
  (parent : option Resource) (firstLevelParent : bool) (locks : Locks.t)
  (w : World) : option (Locks.t * World) :=
  match parent with
  | None => Some (locks, w)
  | Some parent =>
      match fuel with
      | O => None
      | S fuel =>
          let '(parentLocks, w) := getLocks parent w in
          let locks := fold_left (pushParentLock firstLevelParent) parentLocks locks in
          walkParents fuel request getLocks (getParentResource request parent)
                      false locks w
      end
  end.

(** Every parent path but the first is shorter than the one before it, so a
    walk that ends does so within this many iterations
    (see [walkParents_fuel_enough]). *)
Definition walkFuel (resource : Resource) : nat := S (S (String.length resource)).

(** [Method.getLocksGeneral] *)
Definition getLocksGeneral (request : Request) (resource : Resource)
  (getLocks : LockReader) (w : World) : option (Locks.t * World) :=
  let '(resourceLocks, w) := getLocks resource w in
  let locks := Locks.mk resourceLocks resourceLocks [] [] in
  let parent := getParentResource request resource in
  walkParents (walkFuel resource) request getLocks parent true locks w.

Definition notProvisional (lock : Lock.t) : bool := negb (Lock.provisional lock).

(** [Method.getLocks] *)
Definition getLocks (request : Request) (resource : Resource) (w : World)
  : option (Locks.t * World) :=
  getLocksGeneral request resource
    (fun resource w =>
       let '(locks, w) := getCurrentResourceLocks resource w in
       (List.filter notProvisional locks, w)) w.

(** [Method.getLocksByUser] *)
Definition getLocksByUser (request : Request) (resource : Resource) (user : User)
  (w : World) : option (Locks.t * World) :=
  getLocksGeneral request resource
    (fun resource w =>
       let '(locks, w) := getCurrentResourceLocksByUser resource user w in
       (List.filter notProvisional locks, w)) w.

(** [Method.getProvisionalLocks] *)
Definition getProvisionalLocks (request : Request) (resource : Resource)
  (w : World) : option (Locks.t * World) :=
  getLocksGeneral request resource
    (fun resource w =>
       let '(locks, w) := getCurrentResourceLocks resource w in
       (List.filter Lock.provisional locks, w)) w.

(** *** Submitted lock tokens: [Method.getRequestLockTockens] *)

Definition isLowerHex (c : ascii) : bool :=
  let n := nat_of_ascii c in
  ((Nat.leb 48 n && Nat.leb n 57) || (Nat.leb 97 n && Nat.leb n 102))%bool.

(** [[0-9a-f]{n}] at the head of [s]; returns the rest. *)
Fixpoint matchHex (n : nat) (s : string) : option string :=
  match n with
  | O => Some s
  | S n =>
      match s with
      | String c s' => if isLowerHex c then matchHex n s' else None
      | EmptyString => None
      end
  end.

Definition matchLiteral (lit : string) (s : string) : option string :=
  if String.prefix lit s
  then Some (String.substring (String.length lit) (String.length s - String.length lit) s)
  else None.

(** One match of
    [/<urn:uuid:[0-9a-f]{8}-[0-9a-f]{4}-[0-9a-f]{4}-[0-9a-f]{4}-[0-9a-f]{12}>/]
    anchored at the head of [s]: the matched text, 47 characters long. *)
Definition matchLockToken (s : string) : option string :=
  s1 ← matchLiteral "<urn:uuid:" s;
  s2 ← matchHex 8 s1;
  s3 ← matchLiteral "-" s2;
  s4 ← matchHex 4 s3;
  s5 ← matchLiteral "-" s4;
  s6 ← matchHex 4 s5;
  s7 ← matchLiteral "-" s6;
  s8 ← matchHex 4 s7;
  s9 ← matchLiteral "-" s8;
  s10 ← matchHex 12 s9;
  _ ← matchLiteral ">" s10;
  Some (String.substring 0 47 s).

(** [ifHeader.match(/.../g)]: the matches from left to right, each search
    resuming behind the previous match ([skip] characters still to pass). *)
Fixpoint matchAllLockTokens (skip : nat) (s : string) : list string :=
  match s with
  | EmptyString => []
  | String _ s' =>
      match skip with
      | S skip => matchAllLockTokens skip s'
      | O =>
          match matchLockToken s with
          | Some m => m :: matchAllLockTokens 46 s'
          | None => matchAllLockTokens 0 s'
          end
      end
  end.

(** [match.slice(1, -1)] *)
Definition slice_1_m1 (s : string) : string :=
  String.substring 1 (String.length s - 2) s.

Definition getRequestLockTockens (request : Request) : list string :=
  let ifHeader := orElse (get request "If") EmptyString in
  map slice_1_m1 (matchAllLockTokens 0 ifHeader).

(** *** The permission decision: [Method.getLockPermission] *)

(** One [for (let lock of ...)] loop of the LOCK branch: [inl r] is
    [return r] out of the method, [inr code] falls out of the loop. *)
Fixpoint scanLocks (onExclusive : nat) (locks : list Lock.t) (code : nat)
  : nat + nat :=
  match locks with
  | [] => inr code
  | lock :: locks =>
      match Lock.scope lock with
      | exclusive => inl onExclusive
      | shared => scanLocks onExclusive locks 3
      end
  end.

Definition lengthTruthy {A} (l : list A) : bool := negb (Nat.eqb (List.length l) 0).

(** The decision of [getLockPermission] once both sets of views are at
    hand: from [const lockTokenSet = new Set(lockTokens)] to the end. *)
Definition permissionWithLocks (request : Request) (locks userLocks : Locks.t)
  : nat :=
  let lockTokens := getRequestLockTockens request in
  let lockTokenSet : gset string := list_to_set lockTokens in
  match JS.find (fun userLock => bool_decide (Lock.token userLock ∈ lockTokenSet))
                (Locks.all userLocks) with
  | Some _ => 2
  | None =>
      if String.eqb (method request) "LOCK" then
        let code := 0 in
        match scanLocks 0 (Locks.resource locks) code with
        | inl r => r
        | inr code =>
            match scanLocks 0 (Locks.depthInfinity locks) code with
            | inl r => r
            | inr code =>
                match scanLocks 1 (Locks.depthZero locks) code with
                | inl r => r
                | inr code => code
                end
            end
        end
      else if (lengthTruthy (Locks.depthInfinity locks)
               || lengthTruthy (Locks.resource locks))%bool then 0
      else if lengthTruthy (Locks.depthZero locks) then 1
      else 0
  end.

(** [Method.getLockPermission] *)
Definition getLockPermission (request : Request) (resource : Resource)
  (user : User) (w : World) : option (nat * World) :=
  '(locks, w) ← getLocks request resource w;
  if negb (lengthTruthy (Locks.all locks)) then Some (2, w)
  else
    '(userLocks, w) ← getLocksByUser request resource user w;
    Some (permissionWithLocks request locks userLocks, w).

(** ** Reference notions for the lock engine *)

(** [lock.date.getTime() + lock.timeout <= now] *)
Definition expired (now : Z) (lock : Lock.t) : bool :=
  (Lock.date lock + Lock.timeout lock <=? now)%Z.

Definition live (now : Z) (lock : Lock.t) : bool := negb (expired now lock).

(** The resources the [while (parent)] loop visits, nearest first. *)
Fixpoint parentChain (fuel : nat) (request : Request) (parent : option Resource)
  : option (list Resource) :=
  match parent with
  | None => Some []
  | Some parent =>
      match fuel with
      | O => None
      | S fuel =>
          option_map (cons parent)
            (parentChain fuel request (getParentResource request parent))
      end
  end.

Definition ancestors (request : Request) (resource : Resource)
  : option (list Resource) :=
  parentChain (walkFuel resource) request (getParentResource request resource).

Definition hasDepth (d : Depth) (lock : Lock.t) : bool :=
  match d, Lock.depth lock with
  | depth_0, depth_0 | depth_infinity, depth_infinity => true
  | _, _ => false
  end.

(** The views built from a fixed assignment [locksOf] of locks to
    resources, along a chain of parents. *)
Fixpoint pushParents (locksOf : Resource -> list Lock.t) (chain : list Resource)
  (firstLevelParent : bool) (locks : Locks.t) : Locks.t :=
  match chain with
  | [] => locks
  | parent :: chain =>
      pushParents locksOf chain false
        (fold_left (pushParentLock firstLevelParent) (locksOf parent) locks)
  end.

Definition viewOf (locksOf : Resource -> list Lock.t) (resource : Resource)
  (chain : list Resource) : Locks.t :=
  pushParents locksOf chain true
    (Locks.mk (locksOf resource) (locksOf resource) [] []).

(** The depth-infinity locks along a chain of parents. *)
Definition inheritedInfinity (locksOf : Resource -> list Lock.t)
  (chain : list Resource) : list Lock.t :=
  flat_map (fun p => List.filter (hasDepth depth_infinity) (locksOf p)) chain.

Definition isExclusive (lock : Lock.t) : bool :=
  match Lock.scope lock with exclusive => true | shared => false end.

Definition isShared (lock : Lock.t) : bool :=
  match Lock.scope lock with exclusive => false | shared => true end.

(** The adapter's store is well formed: a lock is stored with the resource
    it names, and the locks of one resource are keyed by their tokens. *)
Definition WellFormed (w : World) : Prop :=
  forall r,
    Forall (fun l => Lock.resource l = r) (store w r)
    /\ List.NoDup (map Lock.token (store w r)).

(** The world after every expired lock has been swept from the store. *)
Definition sweep (w : World) : World :=
  mkWorld (fun r => List.filter (live (now w)) (store w r)) (now w)
          (deleteFails w) (deleteLog w).

(** [w] is [w0] after some expired locks have been deleted from its store. *)
Definition Purged (w0 w : World) : Prop :=
  now w = now w0
  /\ forall r, exists keep,
       store w r = List.filter keep (store w0 r)
       /\ forall x, In x (store w0 r) -> live (now w0) x = true -> keep x = true.

(** A reader that, from any world reached by purging [w0], yields
    [locksOf] and goes on purging. *)
Definition ReaderOK (w0 : World) (reader : LockReader)
  (locksOf : Resource -> list Lock.t) : Prop :=
  forall r w, Purged w0 w ->
    fst (reader r w) = locksOf r /\ Purged w0 (snd (reader r w)).

(** The locks [getLocks] and [getLocksByUser] read for one resource of a
    well-formed world. *)
Definition currentLocks (w : World) (r : Resource) : list Lock.t :=
  List.filter notProvisional (List.filter (live (now w)) (store w r)).

Definition currentLocksByUser (user : User) (w : World) (r : Resource)
  : list Lock.t :=
  List.filter (fun lock => sameUser (Lock.user lock) user) (currentLocks w r).

(** A lock is submitted when its token is among those of the [If] header. *)
Definition submitted (request : Request) (lock : Lock.t) : bool :=
  JS.includes (getRequestLockTockens request) (Lock.token lock).

(** [all] holds the locks of the three tagged views and no other. *)
Definition partitioned (locks : Locks.t) : Prop :=
  Permutation (Locks.all locks)
    (Locks.resource locks ++ Locks.depthZero locks ++ Locks.depthInfinity locks).

(** The code [getLockPermission] returns for given views. *)
Definition permissionOf (request : Request) (locks userLocks : Locks.t) : nat :=
  if negb (lengthTruthy (Locks.all locks)) then 2
  else permissionWithLocks request locks userLocks.

(** Definition following the spec's words ("its token appears in the
    request's [If] or [Lock-Token] header"): the tokens of both headers. *)
Definition specSubmittedTokens (request : Request) : list string :=
  map slice_1_m1 (matchAllLockTokens 0 (orElse (get request "If") EmptyString))
  ++ map slice_1_m1
       (matchAllLockTokens 0 (orElse (get request "Lock-Token") EmptyString)).

Fixpoint endsWithSlash (s : string) : bool :=
  match s with
  | EmptyString => false
  | String c s' =>
      if String.eqb s' EmptyString then Ascii.eqb c "/" else endsWithSlash s'
  end.

(** [newPath] of [getParentResource]. *)
Definition parentPath (pathname : string) : string :=
  JS.replaceEndSlash "/"
    (JS.join "/" (JS.slice_0_m1 (JS.split "/" (JS.replaceEndSlash "" pathname)))).

(** A path segment: a string without a slash. *)
Fixpoint noSlash (s : string) : bool :=
  match s with
  | EmptyString => true
  | String c s' => (negb (Ascii.eqb c "/") && noSlash s')%bool
  end.

(** [w] is reached from [w0] by expiry sweeps that attempted the deletions
    [attempted], in this order: the log has grown by them, each is a lock
    that had expired, and every expired lock of [w0] is still stored or its
    deletion has been attempted. *)
Definition SweptBy (w0 w : World) (attempted : list Lock.t) : Prop :=
  deleteLog w = deleteLog w0 ++ attempted
  /\ Forall (fun l => expired (now w0) l = true) attempted
  /\ forall r l,
       In l (store w0 r) -> expired (now w0) l = true ->
       In l (store w r) \/ In l attempted.

(** ** The file-system adapter *)

Module FileSystemAdapter.

(** *** Dead properties: [Properties] *)

(** A property file: the parsed JSON document, or a file whose reading
    fails with an error code other than [ENOENT].  A path without a file
    reads as [ENOENT]. *)
Inductive File : Type :=
| Document (props : gmap string (gmap string string))
| Unreadable (code : string).

Inductive IOEvent : Type :=
| ReadFile (path : string)
| WriteFile (path : string).

(** The file system with the record of the reads and writes done on it. *)
Record FileSystem : Type := mkFileSystem {
  files : gmap string File;
  trace : list IOEvent
}.

(** [JSON.parse((await fsp.readFile(filepath)).toString())] *)
Definition readProps (filepath : string) (fs : FileSystem)
  : (Error + gmap string (gmap string string)) * FileSystem :=
  let fs' := mkFileSystem (files fs) (trace fs ++ [ReadFile filepath]) in
  match files fs !! filepath with
  | None => (inl (IOError "ENOENT"), fs')
  | Some (Unreadable code) => (inl (IOError code), fs')
  | Some (Document props) => (inr props, fs')
  end.

(** [fsp.writeFile(filepath, JSON.stringify(props, null, 2))] *)
Definition writeProps (filepath : string) (props : gmap string (gmap string string))
  (fs : FileSystem) : FileSystem :=
  mkFileSystem (<[filepath := Document props]> (files fs))
               (trace fs ++ [WriteFile filepath]).

Definition errorCode (e : Error) : string :=
  match e with
  | IOError code => code
  | _ => EmptyString
  end.

Definition liveProperties : list string :=
  ["creationdate"; "getcontentlength"; "getcontenttype"; "getetag";
   "getlastmodified"; "lockdiscovery"; "resourcetype"; "supportedlock"].

Section Properties.

(** [resource.getPropFilePath()] of the adapter's [Resource] class, which is
    not among the sources. *)
Variable getPropFilePath : Resource -> string.

(** The part of [Properties.set] behind the protected-name guard and the
    read of the property file. *)
Definition setDead (filepath : string) (props : gmap string (gmap string string))
  (name : string) (value : option string) (fs : FileSystem)
  : (Error + unit) * FileSystem :=
  let '(props, changed) :=
    match value with
    | None =>
        match props !! "*" with
        | Some star =>
            if bool_decide (is_Some (star !! name))
            then (<["*" := delete name star]> props, true)
            else (props, false)
        | None => (props, false)
        end
    | Some value =>
        let props :=
          if bool_decide (is_Some (props !! "*")) then props
          else <["*" := ∅]> props in
        (<["*" := <[name := value]> (default ∅ (props !! "*"))]> props, true)
    end in
  if changed then (inr tt, writeProps filepath props fs) else (inr tt, fs).

(** [Properties.set]; [value = None] is [undefined]. *)
Definition set (resource : Resource) (name : string) (value : option string)
  (fs : FileSystem) : (Error + unit) * FileSystem :=
  if (JS.indexOf liveProperties name >? -1)%Z then
    (inl (PropertyIsProtectedError (name ++ " is a protected property.")), fs)
  else
    let filepath := getPropFilePath resource in
    match readProps filepath fs with
    | (inr props, fs) => setDead filepath props name value fs
    | (inl e, fs) =>
        if negb (String.eqb (errorCode e) "ENOENT") then (inl e, fs)
        else setDead filepath ∅ name value fs
    end.

End Properties.

(** *** Locks: the adapter's [Lock] class *)

(** The record written under [meta.locks[token]]. *)
Record LockRecord : Type := mkLockRecord {
  rec_username : string;
  rec_date : Z;
  rec_timeout : Z;
  rec_exclusive : bool;
  rec_depth : Depth;
  rec_provisional : bool
}.

(** Modelled from the spec: the metadata document of a resource, "storing
    dead properties under a root key and locks keyed by token".  [None] is a
    key the document does not have. *)
Record Meta : Type := mkMeta {
  meta_props : option (gmap string string);
  meta_locks : option (gmap string LockRecord)
}.

(** Modelled from the spec: [resource.readMetadataFile()] and
    [resource.saveMetadataFile(meta)] of the adapter's [Resource] class,
    "one metadata document per resource"; a resource without a document
    reads as the empty document. *)
Definition readMetadataFile (resource : Resource) (disk : gmap string Meta) : Meta :=
  default (mkMeta None None) (disk !! resource).

Definition saveMetadataFile (resource : Resource) (meta : Meta)
  (disk : gmap string Meta) : gmap string Meta :=
  <[resource := meta]> disk.

Module Lock.

Record t : Type := mk {
  token : string;
  resource : Resource;
  user : User;
  date : Z;
  timeout : Z;
  exclusive : bool;
  depth : Depth;
  provisional : bool
}.

(** The class's field initialisers. *)
Definition new (resource : Resource) (user : User) (now : Z) : t :=
  mk EmptyString resource user now (1000 * 60 * 60 * 24 * 2) false depth_0 false.

Definition toRecord (this : t) : LockRecord :=
  mkLockRecord (username (user this)) (date this) (timeout this)
               (exclusive this) (depth this) (provisional this).

(** [Lock.save] *)
Definition save (this : t) (disk : gmap string Meta) : gmap string Meta :=
  let meta := readMetadataFile (resource this) disk in
  let meta :=
    match meta_locks meta with
    | None => mkMeta (meta_props meta) (Some ∅)
    | Some _ => meta
    end in
  let meta :=
    mkMeta (meta_props meta)
           (Some (<[token this := toRecord this]> (default ∅ (meta_locks meta)))) in
  saveMetadataFile (resource this) meta disk.

(** [Lock.delete] *)
Definition delete (this : t) (disk : gmap string Meta) : gmap string Meta :=
  let meta := readMetadataFile (resource this) disk in
  match meta_locks meta with
  | None => disk
  | Some locks =>
      if negb (bool_decide (is_Some (locks !! token this))) then disk
      else
        let meta := mkMeta (meta_props meta) (Some (base.delete (token this) locks)) in
        saveMetadataFile (resource this) meta disk
  end.

End Lock.

End FileSystemAdapter.

(** ** Reference notions for submitted tokens *)

(** [urn:uuid:] and 8-4-4-4-12 lower-case hexadecimal digits at the head of
    [s], the text the regular expression of [getRequestLockTockens] admits
    between [<] and [>]; returns the rest. *)
Definition matchTokenBody (s : string) : option string :=
  s1 ← matchLiteral "urn:uuid:" s;
  s2 ← matchHex 8 s1;
  s3 ← matchLiteral "-" s2;
  s4 ← matchHex 4 s3;
  s5 ← matchLiteral "-" s4;
  s6 ← matchHex 4 s5;
  s7 ← matchLiteral "-" s6;
  s8 ← matchHex 4 s7;
  s9 ← matchLiteral "-" s8;
  matchHex 12 s9.

(** [t] is a token of that form, with nothing behind it. *)
Definition isLockToken (t : string) : bool :=
  match matchTokenBody t with
  | Some rest => String.eqb rest EmptyString
  | None => false
  end.

Definition allHex (h : string) : Prop :=
  Forall (fun c => isLowerHex c = true) (list_ascii_of_string h).

(** The token built from its five groups of digits, followed by [behind]. *)
Definition tokenText (h8 h4a h4b h4c h12 behind : string) : string :=
  ("urn:uuid:" ++ h8 ++ "-" ++ h4a ++ "-" ++ h4b ++ "-" ++ h4c ++ "-" ++ h12
   ++ behind)%string.

(** No [<] among the first [k] characters. *)
Fixpoint noOpenBracket (k : nat) (s : string) : bool :=
  match k, s with
  | O, _ => true
  | _, EmptyString => true
  | S k, String c s' => (negb (Ascii.eqb c "<") && noOpenBracket k s')%bool
  end.

(** [<token>] *)
Definition bracketed (token : string) : string := String "<" (token ++ ">").

(** [needle] occurs in [hay]. *)
Definition occursIn (needle hay : string) : Prop :=
  exists before behind, hay = (before ++ needle ++ behind)%string.

Definition noBracket (s : string) : Prop :=
  Forall (fun c => c <> "<"%char) (list_ascii_of_string s).

(** ** The property store of the file-system adapter, in full *)

(** The members of [Object.prototype].  A JavaScript object answers to
    these names without holding them: [name in o] is true and [o[name]]
    gives the inherited member, and [o['__proto__'] = v] stores nothing for
    a string [v].  The finite maps that stand for the objects of the
    property file agree with the objects on every other name. *)
Definition objectPrototypeMembers : list string :=
  ["constructor"; "__defineGetter__"; "__defineSetter__"; "hasOwnProperty";
   "__lookupGetter__"; "__lookupSetter__"; "isPrototypeOf";
   "propertyIsEnumerable"; "toString"; "valueOf"; "__proto__";
   "toLocaleString"].

(** A name that is not one of them. *)
Definition isPlainKey (name : string) : bool :=
  negb (JS.includes objectPrototypeMembers name).

Module Properties.
Import FileSystemAdapter.

(** What a method of [Properties] may throw: an error of the file system
    or of the resource, or the [TypeError] of reading a key of
    [undefined]. *)
Inductive Exception : Type :=
| Thrown (e : Error)
| TypeError.

(** The values [get] returns: a string, the object [{ collection: {} }] or
    [{}] of [resourcetype], the fixed object of [supportedlock]. *)
Inductive Value : Type :=
| Text (s : string)
| ResourceType (collection : bool)
| SupportedLock.

(** [stats.ctime.toISOString()] and [stats.mtime.toISOString()] *)
Record Stats : Type := mkStats { ctime : string; mtime : string }.

(** A number in a template literal: its decimal digits. *)
Definition decimal (n : Z) : string := NilZero.string_of_int (Z.to_int n).

(** [try { ... } catch (e) { return undefined; }] *)
Definition caught {A} (r : Error + A) : option A :=
  match r with
  | inr a => Some a
  | inl _ => None
  end.

(** [Properties.listLive] *)
Definition listLive : list string :=
  ["creationdate"; "getcontentlength"; "getcontenttype"; "getetag";
   "getlastmodified"; "lockdiscovery"; "resourcetype"; "supportedlock"].

(** [Object.keys(o)]; the document model keeps no order of keys. *)
Definition keys (o : gmap string string) : list string :=
  map fst (map_to_list o).

Section Store.

(** The methods of the adapter's [Resource] class, which is not among the
    sources; each may throw. *)
Variable getPropFilePath : Resource -> string.
Variable getStats : Resource -> Error + Stats.
Variable getLength : Resource -> Error + Z.
Variable getMediaType : Resource -> Error + string.
Variable getEtag : Resource -> Error + string.
Variable isCollection : Resource -> Error + bool.

(** The [switch] of [Properties.get] inside its [try]: [Some v] when a
    [case] returns [v] ([None] being [undefined]), [None] when no [case]
    applies. *)
Definition getLive (resource : Resource) (name : string)
  : option (option Value) :=
  if String.eqb name "creationdate" then
    Some (stats ← caught (getStats resource); Some (Text (ctime stats)))
  else if String.eqb name "getcontentlength" then
    Some (length ← caught (getLength resource); Some (Text (decimal length)))
  else if String.eqb name "getcontenttype" then
    Some (mediaType ← caught (getMediaType resource); Some (Text mediaType))
  else if String.eqb name "getetag" then
    Some (etag ← caught (getEtag resource); Some (Text etag))
  else if String.eqb name "getlastmodified" then
    Some (stats ← caught (getStats resource); Some (Text (mtime stats)))
  else if String.eqb name "lockdiscovery" then
    Some (Some (Text EmptyString))
  else if String.eqb name "resourcetype" then
    Some (collection ← caught (isCollection resource);
          Some (ResourceType collection))
  else if String.eqb name "supportedlock" then
    Some (Some SupportedLock)
  else None.

(** [Properties.get]; [None] is [undefined]. *)
Definition get (resource : Resource) (name : string) (fs : FileSystem)
  : (Exception + option Value) * FileSystem :=
  match getLive resource name with
  | Some value => (inr value, fs)
  | None =>
      let filepath := getPropFilePath resource in
      match readProps filepath fs with
      | (inr props, fs) =>
          match props !! "*" with
          | Some star => (inr (Text <$> star !! name), fs)
          | None => (inl TypeError, fs)
          end
      | (inl e, fs) =>
          if String.eqb (errorCode e) "ENOENT" then (inr None, fs)
          else (inl (Thrown e), fs)
      end
  end.

(** The read at the head of [getAll] and [listDead]: a missing file reads
    as the empty document. *)
Definition readOrEmpty (filepath : string) (fs : FileSystem)
  : (Exception + gmap string (gmap string string)) * FileSystem :=
  match readProps filepath fs with
  | (inr props, fs) => (inr props, fs)
  | (inl e, fs) =>
      if negb (String.eqb (errorCode e) "ENOENT") then (inl (Thrown e), fs)
      else (inr ∅, fs)
  end.

(** The entries [name: await this.get(name)] of the object [getAll]
    returns, in their order; an entry replaces one of the same name. *)
Fixpoint withLive (names : list string) (resource : Resource)
  (object : gmap string (option Value)) (fs : FileSystem)
  : (Exception + gmap string (option Value)) * FileSystem :=
  match names with
  | [] => (inr object, fs)
  | name :: names =>
      match get resource name fs with
      | (inr value, fs) => withLive names resource (<[name := value]> object) fs
      | (inl e, fs) => (inl e, fs)
      end
  end.

(** [Properties.getAll]: the object returned, a key with the value
    [undefined] being bound to [None]. *)
Definition getAll (resource : Resource) (fs : FileSystem)
  : (Exception + gmap string (option Value)) * FileSystem :=
  let filepath := getPropFilePath resource in
  match readOrEmpty filepath fs with
  | (inl e, fs) => (inl e, fs)
  | (inr props, fs) =>
      let spread : gmap string (option Value) :=
        (fun value => Some (Text value)) <$> default ∅ (props !! "*") in
      withLive ["creationdate"; "getcontentlength"; "getcontenttype"; "getetag";
                "getlastmodified"; "lockdiscovery"; "resourcetype";
                "supportedlock"]
               resource spread fs
  end.

(** [Properties.listDead] *)
Definition listDead (resource : Resource) (fs : FileSystem)
  : (Exception + list string) * FileSystem :=
  let filepath := getPropFilePath resource in
  match readOrEmpty filepath fs with
  | (inl e, fs) => (inl e, fs)
  | (inr props, fs) =>
      (inr ("displayname" :: "getcontentlanguage"
            :: keys (default ∅ (props !! "*"))), fs)
  end.

(** [Properties.list] *)
Definition list (resource : Resource) (fs : FileSystem)
  : (Exception + list string) * FileSystem :=
  match listDead resource fs with
  | (inr dead, fs) => (inr (listLive ++ dead), fs)
  | (inl e, fs) => (inl e, fs)
  end.

(** [obj[name]] on the object [getAll] returns. *)
Definition member (object : gmap string (option Value)) (name : string)
  : option Value :=
  default None (object !! name).

End Store.

End Properties.

(** ** Request bodies: [Method.getBodyStream] *)

(** The errors of the request side that [Error] above does not list. *)
Inductive RequestError : Type :=
| MediaTypeNotSupportedError (message : string).

Section BodyStream.

(** The decompressors of [node:zlib], run on the whole body: [None] when
    the stream fails. *)
Variable createGunzip createInflate createBrotliDecompress
  : list Z -> option (list Z).

(** [Method.getBodyStream]: the stream returned, given by what reading it
    to the end yields for the request body [body].  The time-out set on the
    request is not represented. *)
Definition getBodyStream (request : Request) (body : list Z)
  : RequestError + option (list Z) :=
  let encoding := get request "Content-Encoding" in
  match encoding with
  | Some encoding =>
      if (String.eqb encoding "gzip" || String.eqb encoding "x-gzip")%bool
      then inr (createGunzip body)
      else if String.eqb encoding "deflate" then inr (createInflate body)
      else if String.eqb encoding "br" then inr (createBrotliDecompress body)
      else if String.eqb encoding "identity" then inr (Some body)
      else inl (MediaTypeNotSupportedError
                  "Provided content encoding is not supported.")
  | None => inr (Some body)
  end.

End BodyStream.

(** The [Content-Encoding] header a response carries, as a request that
    delivers the same body would state it. *)
Definition contentEncodingOf (response : Response) : option string :=
  match getHeader response "Content-Encoding" with
  | Some (HString s) => Some s
  | _ => None
  end.

(** ** Cache directives: [Method.getCacheControl] *)

Module JSNumber.

Definition digitOf (radix : Z) (c : ascii) : option Z :=
  let n := Z.of_nat (nat_of_ascii c) in
  let d :=
    if ((48 <=? n) && (n <=? 57))%Z then Some (n - 48)%Z
    else if ((97 <=? n) && (n <=? 122))%Z then Some (n - 87)%Z
    else if ((65 <=? n) && (n <=? 90))%Z then Some (n - 55)%Z
    else None in
  match d with
  | Some d => if (d <? radix)%Z then Some d else None
  | None => None
  end.

(** The longest run of digits of the radix: its value continuing [acc] and
    the number of digits read. *)
Fixpoint readDigits (radix : Z) (acc : Z) (count : nat) (s : string) : Z * nat :=
  match s with
  | String c s' =>
      match digitOf radix c with
      | Some d => readDigits radix (radix * acc + d) (S count) s'
      | None => (acc, count)
      end
  | EmptyString => (acc, count)
  end.

(** [parseInt(s)] without a radix; [None] is [NaN].  The exact integer is
    kept (binary64 rounding is not represented). *)
Definition parseInt (s : string) : option Z :=
  let '(negative, s) := Decimal.readSign (JS.trimStart s) in
  let '(radix, s) :=
    match s with
    | String "0" (String c rest) =>
        if (Ascii.eqb c "x" || Ascii.eqb c "X")%bool then (16%Z, rest)
        else (10%Z, s)
    | _ => (10%Z, s)
    end in
  let '(value, count) := readDigits radix 0 0 s in
  match count with
  | O => None
  | _ => Some (if negative then (- value)%Z else value)
  end.

End JSNumber.

(** A member of the object [getCacheControl] returns: [true] or a
    number. *)
Inductive CacheValue : Type :=
| Flag
| Number (n : option Z).

(** The six [startsWith] tests. *)
Definition isNumericDirective (directive : string) : bool :=
  (String.prefix "max-age=" directive
   || String.prefix "s-maxage=" directive
   || String.prefix "stale-while-revalidate=" directive
   || String.prefix "stale-if-error=" directive
   || String.prefix "max-stale=" directive
   || String.prefix "min-fresh=" directive)%bool.

(** The body of the [forEach].  [cacheControl['__proto__'] = true] calls
    the setter of [Object.prototype] with a value that is no object, which
    stores nothing; every other name becomes a key of the object. *)
Definition addDirective (cacheControl : gmap string CacheValue)
  (directive : string) : gmap string CacheValue :=
  if isNumericDirective directive then
    let parts := JS.split "=" directive in
    let name := hd EmptyString parts in
    let value := nth_error parts 1 in
    <[name := Number (value ≫= JSNumber.parseInt)]> cacheControl
  else if String.eqb directive "__proto__" then cacheControl
  else <[directive := Flag]> cacheControl.

(** [Method.getCacheControl] *)
Definition getCacheControl (request : Request) : gmap string CacheValue :=
  let cacheControlHeader := orElse (get request "Cache-Control") "*" in
  fold_left addDirective (JS.split "," cacheControlHeader) ∅.

(** The key and the value one directive is stored under. *)
Definition directiveKey (directive : string) : string :=
  if isNumericDirective directive
  then hd EmptyString (JS.split "=" directive)
  else directive.

Definition directiveValue (directive : string) : CacheValue :=
  if isNumericDirective directive
  then Number (nth_error (JS.split "=" directive) 1 ≫= JSNumber.parseInt)
  else Flag.

(** The directives of the header, as the method splits them. *)
Definition directivesOf (request : Request) : list string :=
  JS.split "," (orElse (get request "Cache-Control") "*").

(** A directive that leaves a key in the object. *)
Definition isStored (directive : string) : bool :=
  negb (String.eqb directive "__proto__").

Definition startsWithWhiteSpace (s : string) : bool :=
  match s with
  | String c _ => JS.isWhiteSpace c
  | EmptyString => false
  end.

(** ** Lock discovery: [Method.formatLocks] *)

(** The timeout of a lock as the [Lock] interface has it: a number of
    milliseconds or [Infinity]. *)
Inductive Timeout : Type :=
| Milliseconds (ms : Z)
| Infinity.

Definition depthText (depth : Depth) : string :=
  match depth with
  | depth_0 => "0"
  | depth_infinity => "infinity"
  end.

Section FormatLocks.

(** The XML of a lock's owner, which the method passes on as it is. *)
Context {Owner : Type}.

(** The text of [`${ms / 1000}`], a number of seconds given in
    milliseconds. *)
Variable secondsText : Z -> string.

(** The attributes of a lock that [formatLocks] reads. *)
Record LockView : Type := mkLockView {
  view_token : string;
  view_resource : Resource;
  view_date : Z;
  view_timeout : Timeout;
  view_scope : Scope;
  view_depth : Depth;
  view_owner : Owner
}.

(** One entry of [xml.activelock]; its [locktype] is always [write]. *)
Record ActiveLock : Type := mkActiveLock {
  lockscope : Scope;
  depth : string;
  owner : Owner;
  timeout : string;
  locktoken : string;
  lockroot : string
}.

(** [secondsLeft]: [None] is [Infinity], [Some ms] is [ms / 1000]. *)
Definition secondsLeft (lock : LockView) (now : Z) : option Z :=
  match view_timeout lock with
  | Infinity => None
  | Milliseconds timeout => Some (view_date lock + timeout - now)%Z
  end.

(** The body of [for (let lock of locks)]. *)
Definition pushActiveLock (now : Z) (activelock : list ActiveLock)
  (lock : LockView) : list ActiveLock :=
  let secondsLeft := secondsLeft lock now in
  if match secondsLeft with
     | Some ms => (ms <=? 0)%Z
     | None => false
     end
  then activelock
  else
    activelock
    ++ [mkActiveLock (view_scope lock) (depthText (view_depth lock))
          (view_owner lock)
          match secondsLeft with
          | None => "Infinite"
          | Some ms => ("Second-" ++ secondsText ms)%string
          end
          (view_token lock) (view_resource lock)].

(** [Method.formatLocks]; the argument [None] is [null], the result [None]
    is the object [{}], the result [Some l] is [{ activelock: l }].  The
    clock is read as frozen while the method runs. *)
Definition formatLocks (locks : option (list LockView)) (now : Z)
  : option (list ActiveLock) :=
  let activelock :=
    match locks with
    | Some locks => fold_left (pushActiveLock now) locks []
    | None => []
    end in
  if negb (lengthTruthy activelock) then None else Some activelock.

(** What [formatLocks] reads of a lock of the lock engine, whose timeout is
    a number. *)
Definition viewOfLock (ownerOf : Lock.t -> Owner) (lock : Lock.t) : LockView :=
  mkLockView (Lock.token lock) (Lock.resource lock) (Lock.date lock)
             (Milliseconds (Lock.timeout lock)) (Lock.scope lock)
             (Lock.depth lock) (ownerOf lock).

(** A lock that has timed out at [now]. *)
Definition timedOut (now : Z) (lock : LockView) : bool :=
  match view_timeout lock with
  | Infinity => false
  | Milliseconds timeout => (view_date lock + timeout <=? now)%Z
  end.

End FormatLocks.

(** ** Sample data *)

Module Sample.

Definition alice : User := mkUser "alice".
Definition bob : User := mkUser "bob".

Definition tokenA : string := "urn:uuid:01234567-89ab-cdef-0123-456789abcdef".
Definition tokenB : string := "urn:uuid:fedcba98-7654-3210-fedc-ba9876543210".
Definition tokenC : string := "urn:uuid:00000000-1111-2222-3333-444444444444".
Definition tokenD : string := "urn:uuid:55555555-6666-7777-8888-999999999999".

(** Alice's exclusive depth-0 lock on the collection [/docs/]. *)
Definition lockDocs : Lock.t :=
  Lock.mk tokenA "/docs/" alice 1000 5000 exclusive depth_0 false.

(** Alice's shared lock on [/docs/a.txt]. *)
Definition lockFile : Lock.t :=
  Lock.mk tokenB "/docs/a.txt" alice 1000 5000 shared depth_0 false.

(** Bob's exclusive lock on [/docs/a.txt], expired at time 2000. *)
Definition lockStale : Lock.t :=
  Lock.mk tokenC "/docs/a.txt" bob 0 10 exclusive depth_0 false.

(** Bob's provisional exclusive lock on [/docs/new.txt]. *)
Definition lockProvisional : Lock.t :=
  Lock.mk tokenD "/docs/new.txt" bob 1000 5000 exclusive depth_0 true.

Definition world : World :=
  mkWorld (fun r => if String.eqb r "/docs/" then [lockDocs]
                    else if String.eqb r "/docs/a.txt" then [lockStale; lockFile]
                    else if String.eqb r "/docs/new.txt" then [lockProvisional]
                    else [])
          2000 (fun _ => false) [].

(** [world] without the provisional lock. *)
Definition worldCommitted : World :=
  mkWorld (fun r => if String.eqb r "/docs/" then [lockDocs]
                    else if String.eqb r "/docs/a.txt" then [lockStale; lockFile]
                    else [])
          2000 (fun _ => false) [].

(** A server mounted at the root: [request.baseUrl] is the empty string. *)
Definition put : Request := mkRequest "PUT" "" [].
Definition lock : Request := mkRequest "LOCK" "" [].
Definition putIf (token : string) : Request :=
  mkRequest "PUT" "" [("if", ("(<" ++ token ++ ">)")%string)].
Definition putLockToken (token : string) : Request :=
  mkRequest "PUT" "" [("lock-token", ("<" ++ token ++ ">")%string)].

(** The root collection carries a depth-infinity and a depth-0 lock. *)
Definition lockRootInfinity : Lock.t :=
  Lock.mk tokenA "/" alice 1000 5000 exclusive depth_infinity false.
Definition lockRootZero : Lock.t :=
  Lock.mk tokenB "/" alice 1000 5000 exclusive depth_0 false.
Definition worldRootLocked : World :=
  mkWorld (fun r => if String.eqb r "/" then [lockRootInfinity; lockRootZero] else [])
          2000 (fun _ => false) [].

Definition acceptEncoding : string :=
  "gzip;q=0.5, deflate;q=0.8, *;q=0.1, compress".

End Sample.

(** ** Sample data of the file-system adapter *)

Module FileSample.

Definition propFileOf (resource : Resource) : string := resource ++ ".props.json".

Definition disk : FileSystemAdapter.FileSystem :=
  FileSystemAdapter.mkFileSystem
    {[ "/docs/a.txt.props.json" :=
         FileSystemAdapter.Document {[ "*" := {[ "author" := "alice" ]} ]} ]}
    [].

Definition lock : FileSystemAdapter.Lock.t :=
  FileSystemAdapter.Lock.mk Sample.tokenA "/docs/a.txt" Sample.alice 1000 5000
    true depth_infinity false.

Definition otherRecord : FileSystemAdapter.LockRecord :=
  FileSystemAdapter.mkLockRecord "bob" 900 5000 false depth_0 false.

Definition metadata : gmap string FileSystemAdapter.Meta :=
  {[ "/docs/a.txt" :=
       FileSystemAdapter.mkMeta (Some {[ "author" := "alice" ]})
         (Some {[ Sample.tokenB := otherRecord ]}) ]}.

End FileSample.

(** ** Sample data of the property store *)

Module PropertySample.

Definition getStats (resource : Resource) : Error + Properties.Stats :=
  inr (Properties.mkStats "2024-01-01T00:00:00.000Z" "2024-02-01T00:00:00.000Z").

Definition getLength (resource : Resource) : Error + Z := inr 12%Z.

(** The media type cannot be read. *)
Definition getMediaType (resource : Resource) : Error + string :=
  inl (IOError "EIO").

Definition getEtag (resource : Resource) : Error + string := inr "abc"%string.

Definition isCollection (resource : Resource) : Error + bool := inr false.

(** A property file that cannot be read, and one without the key [*]. *)
Definition brokenDisk : FileSystemAdapter.FileSystem :=
  FileSystemAdapter.mkFileSystem
    {[ "/docs/a.txt.props.json" := FileSystemAdapter.Unreadable "EACCES" ]} [].

Definition starlessDisk : FileSystemAdapter.FileSystem :=
  FileSystemAdapter.mkFileSystem
    {[ "/docs/a.txt.props.json" := FileSystemAdapter.Document ∅ ]} [].

Definition emptyDisk : FileSystemAdapter.FileSystem :=
  FileSystemAdapter.mkFileSystem ∅ [].

End PropertySample.

(** ** More locks of the file-system adapter *)

Module LockSample.

(** The lock [FileSample.lock] refreshed: same token and resource. *)
Definition refreshed : FileSystemAdapter.Lock.t :=
  FileSystemAdapter.Lock.mk Sample.tokenA "/docs/a.txt" Sample.alice 3000 5000
    true depth_infinity false.

(** Bob's lock on the same resource, under another token. *)
Definition other : FileSystemAdapter.Lock.t :=
  FileSystemAdapter.Lock.mk Sample.tokenC "/docs/a.txt" Sample.bob 2000 5000
    false depth_0 false.

End LockSample.

(** ** A request with cache directives *)

Module CacheSample.

Definition request : Request :=
  mkRequest "GET" "" [("cache-control", "no-cache, max-age=0")]%string.

End CacheSample.

(** * Properties *)

(** ** Lists *)

Lemma filter_filter_and {A} (p q : A -> bool) (l : list A) :
  List.filter q (List.filter p l) = List.filter (fun x => p x && q x) l.
Proof.
  induction l as [|x l IH]; simpl; [reflexivity|].
  destruct (p x); simpl; [destruct (q x)|]; rewrite IH; reflexivity.
Qed.

Lemma filter_filter_comm {A} (p q : A -> bool) (l : list A) :
  List.filter q (List.filter p l) = List.filter p (List.filter q l).
Proof.
  rewrite !filter_filter_and. apply List.filter_ext. intros x. apply andb_comm.
Qed.

Lemma filter_all_true {A} (p : A -> bool) (l : list A) :
  (forall x, In x l -> p x = true) -> List.filter p l = l.
Proof.
  induction l as [|x l IH]; simpl; intros H; [reflexivity|].
  rewrite (H x) by (left; reflexivity). f_equal. apply IH. intros y Hy.
  apply H. right. exact Hy.
Qed.

Lemma NoDup_map_filter {A B} (f : A -> B) (p : A -> bool) (l : list A) :
  List.NoDup (map f l) -> List.NoDup (map f (List.filter p l)).
Proof.
  induction l as [|x l IH]; simpl; intros H; [exact H|].
  apply List.NoDup_cons_iff in H as [Hx Hl].
  destruct (p x); simpl; [|apply IH, Hl].
  apply List.NoDup_cons; [|apply IH, Hl].
  intros Hin. apply Hx.
  apply in_map_iff in Hin as (y & Hy & Hyl). apply in_map_iff.
  exists y. split; [exact Hy|]. apply filter_In in Hyl. tauto.
Qed.

Lemma NoDup_map_injective_on {A B} (f : A -> B) (l : list A) (x y : A) :
  List.NoDup (map f l) -> In x l -> In y l -> f x = f y -> x = y.
Proof.
  induction l as [|z l IH]; simpl; intros H Hx Hy Hf; [contradiction|].
  apply List.NoDup_cons_iff in H as [Hz Hl].
  destruct Hx as [->|Hx], Hy as [->|Hy].
  - reflexivity.
  - exfalso. apply Hz. rewrite Hf. apply in_map. exact Hy.
  - exfalso. apply Hz. rewrite <- Hf. apply in_map. exact Hx.
  - apply IH; assumption.
Qed.

(** ** The expiry sweep *)

Section Purge.

Lemma Lock_delete_now lock w : now (snd (Lock_delete lock w)) = now w.
Proof. unfold Lock_delete. destruct (deleteFails w lock); reflexivity. Qed.

Lemma Lock_delete_deleteFails lock w :
  deleteFails (snd (Lock_delete lock w)) = deleteFails w.
Proof. unfold Lock_delete. destruct (deleteFails w lock); reflexivity. Qed.

Lemma Lock_delete_log lock w :
  deleteLog (snd (Lock_delete lock w)) = deleteLog w ++ [lock].
Proof. unfold Lock_delete. destruct (deleteFails w lock); reflexivity. Qed.

Lemma Lock_delete_store lock w r :
  store (snd (Lock_delete lock w)) r =
  if (negb (deleteFails w lock) && String.eqb r (Lock.resource lock))%bool
  then removeToken (Lock.token lock) (store w r) else store w r.
Proof. unfold Lock_delete. destruct (deleteFails w lock); reflexivity. Qed.

(** The loop returns the locks that have not expired, in their order. *)
Lemma loop_result locks : forall currentLocks w,
  fst (removeAndDeleteTimedOutLocks_loop locks currentLocks w)
  = currentLocks ++ List.filter (live (now w)) locks.
Proof.
  induction locks as [|lock locks IH]; intros acc w; simpl.
  - rewrite app_nil_r. reflexivity.
  - unfold live, expired.
    destruct (Lock.date lock + Lock.timeout lock <=? now w)%Z eqn:E; simpl.
    + destruct (Lock_delete lock w) as [e w1] eqn:D.
      rewrite IH. replace (now w1) with (now w); [reflexivity|].
      change w1 with (snd (e, w1)). rewrite <- D. symmetry. apply Lock_delete_now.
    + rewrite IH, <- app_assoc. reflexivity.
Qed.

Lemma loop_now locks : forall currentLocks w,
  now (snd (removeAndDeleteTimedOutLocks_loop locks currentLocks w)) = now w.
Proof.
  induction locks as [|lock locks IH]; intros acc w; simpl; [reflexivity|].
  destruct (Lock.date lock + Lock.timeout lock <=? now w)%Z; [|apply IH].
  destruct (Lock_delete lock w) as [e w1] eqn:D. rewrite IH.
  change w1 with (snd (e, w1)). rewrite <- D. apply Lock_delete_now.
Qed.

Lemma loop_deleteFails locks : forall currentLocks w,
  deleteFails (snd (removeAndDeleteTimedOutLocks_loop locks currentLocks w))
  = deleteFails w.
Proof.
  induction locks as [|lock locks IH]; intros acc w; simpl; [reflexivity|].
  destruct (Lock.date lock + Lock.timeout lock <=? now w)%Z; [|apply IH].
  destruct (Lock_delete lock w) as [e w1] eqn:D. rewrite IH.
  change w1 with (snd (e, w1)). rewrite <- D. apply Lock_delete_deleteFails.
Qed.

(** A deletion is attempted for every expired lock, in order, and for no
    other lock. *)
Lemma loop_log locks : forall currentLocks w,
  deleteLog (snd (removeAndDeleteTimedOutLocks_loop locks currentLocks w))
  = deleteLog w ++ List.filter (expired (now w)) locks.
Proof.
  induction locks as [|lock locks IH]; intros acc w; simpl.
  - rewrite app_nil_r. reflexivity.
  - unfold expired at 1.
    destruct (Lock.date lock + Lock.timeout lock <=? now w)%Z eqn:E; [|apply IH].
    destruct (Lock_delete lock w) as [e w1] eqn:D. rewrite IH.
    assert (Hw : w1 = snd (Lock_delete lock w)) by (rewrite D; reflexivity).
    rewrite Hw, Lock_delete_log, Lock_delete_now, <- app_assoc. reflexivity.
Qed.

(** The store only loses locks. *)
Lemma loop_store_incl locks : forall currentLocks w r x,
  In x (store (snd (removeAndDeleteTimedOutLocks_loop locks currentLocks w)) r)
  -> In x (store w r).
Proof.
  induction locks as [|lock locks IH]; intros acc w r x; simpl; [tauto|].
  destruct (Lock.date lock + Lock.timeout lock <=? now w)%Z; [|apply IH].
  destruct (Lock_delete lock w) as [e w1] eqn:D. intros H. apply IH in H.
  assert (Hw : w1 = snd (Lock_delete lock w)) by (rewrite D; reflexivity).
  rewrite Hw, Lock_delete_store in H.
  destruct (negb (deleteFails w lock) && String.eqb r (Lock.resource lock))%bool;
    [|exact H].
  unfold removeToken in H. apply filter_In in H. tauto.
Qed.

(** An expired lock whose deletion does not throw is gone afterwards. *)
Lemma loop_deleted locks : forall currentLocks w lock,
  In lock locks -> expired (now w) lock = true -> deleteFails w lock = false ->
  ~ In lock (store (snd (removeAndDeleteTimedOutLocks_loop locks currentLocks w))
                   (Lock.resource lock)).
Proof.
  induction locks as [|l locks IH]; intros acc w lock Hin Hexp Hok; simpl;
    [contradiction|].
  destruct Hin as [->|Hin].
  - unfold expired in Hexp. rewrite Hexp.
    destruct (Lock_delete lock w) as [e w1] eqn:D. intros H.
    apply loop_store_incl in H.
    assert (Hw : w1 = snd (Lock_delete lock w)) by (rewrite D; reflexivity).
    rewrite Hw, Lock_delete_store, Hok, String.eqb_refl in H. simpl in H.
    unfold removeToken in H. apply filter_In in H as [_ H].
    rewrite String.eqb_refl in H. discriminate.
  - destruct (Lock.date l + Lock.timeout l <=? now w)%Z.
    + destruct (Lock_delete l w) as [e w1] eqn:D.
      assert (Hw : w1 = snd (Lock_delete l w)) by (rewrite D; reflexivity).
      apply IH; [exact Hin| |].
      * rewrite Hw, Lock_delete_now. exact Hexp.
      * rewrite Hw, Lock_delete_deleteFails. exact Hok.
    + apply IH; assumption.
Qed.

End Purge.

(** ** Purging a well-formed store *)

Section PurgedStore.

Lemma Purged_refl w : Purged w w.
Proof.
  split; [reflexivity|]. intros r. exists (fun _ => true). split.
  - symmetry. apply filter_all_true. reflexivity.
  - reflexivity.
Qed.

Lemma Purged_In w0 w r x : Purged w0 w -> In x (store w r) -> In x (store w0 r).
Proof.
  intros [_ H] Hx. destruct (H r) as (keep & E & _). rewrite E in Hx.
  apply filter_In in Hx. tauto.
Qed.

Lemma Purged_live w0 w r :
  Purged w0 w ->
  List.filter (live (now w0)) (store w r) = List.filter (live (now w0)) (store w0 r).
Proof.
  intros [_ H]. destruct (H r) as (keep & E & K). rewrite E, filter_filter_and.
  apply List.filter_ext_in. intros x Hx.
  destruct (live (now w0) x) eqn:L; [rewrite (K x Hx L)|rewrite andb_false_r];
    reflexivity.
Qed.

Lemma Purged_WellFormed w0 w : WellFormed w0 -> Purged w0 w -> WellFormed w.
Proof.
  intros WF [_ H] r. destruct (H r) as (keep & E & _). destruct (WF r) as [F N].
  rewrite E. split.
  - rewrite List.Forall_forall in *. intros x Hx. apply filter_In in Hx.
    apply F. tauto.
  - apply NoDup_map_filter. exact N.
Qed.

Lemma Purged_delete w0 w lock :
  WellFormed w0 -> Purged w0 w ->
  In lock (store w0 (Lock.resource lock)) -> expired (now w0) lock = true ->
  Purged w0 (snd (Lock_delete lock w)).
Proof.
  intros WF [Hnow H] Hin Hexp. split.
  - rewrite Lock_delete_now. exact Hnow.
  - intros r. destruct (H r) as (keep & E & K). rewrite Lock_delete_store.
    destruct (negb (deleteFails w lock) && String.eqb r (Lock.resource lock))%bool
      eqn:B.
    + apply andb_prop in B as [_ B]. apply String.eqb_eq in B. subst r.
      exists (fun x => keep x && negb (String.eqb (Lock.token x) (Lock.token lock))).
      split.
      * unfold removeToken. rewrite E. apply filter_filter_and.
      * intros x Hx L. rewrite (K x Hx L). simpl.
        destruct (String.eqb (Lock.token x) (Lock.token lock)) eqn:T;
          [|reflexivity].
        apply String.eqb_eq in T. destruct (WF (Lock.resource lock)) as [_ N].
        assert (x = lock) by (eapply NoDup_map_injective_on; eauto).
        subst x. unfold live in L. rewrite Hexp in L. discriminate.
    + exists keep. split; assumption.
Qed.

Lemma loop_Purged w0 locks : forall currentLocks w,
  WellFormed w0 -> Purged w0 w ->
  Forall (fun l => In l (store w0 (Lock.resource l))) locks ->
  Purged w0 (snd (removeAndDeleteTimedOutLocks_loop locks currentLocks w)).
Proof.
  induction locks as [|lock locks IH]; intros acc w WF P F; simpl; [exact P|].
  apply List.Forall_cons_iff in F as [Hl F].
  destruct (Lock.date lock + Lock.timeout lock <=? now w)%Z eqn:E.
  - destruct (Lock_delete lock w) as [e w1] eqn:D.
    assert (Hw : w1 = snd (Lock_delete lock w)) by (rewrite D; reflexivity).
    apply IH; [exact WF| |exact F]. rewrite Hw.
    apply Purged_delete; try assumption.
    unfold expired. destruct P as [<- _]. exact E.
  - apply IH; assumption.
Qed.

Lemma stored_under_own_resource w0 w r (p : Lock.t -> bool) :
  WellFormed w0 -> Purged w0 w ->
  Forall (fun l => In l (store w0 (Lock.resource l))) (List.filter p (store w r)).
Proof.
  intros WF P. apply List.Forall_forall. intros x Hx. apply filter_In in Hx as [Hx _].
  apply (Purged_In _ _ _ _ P) in Hx. destruct (WF r) as [F _].
  rewrite List.Forall_forall in F. rewrite (F x Hx). exact Hx.
Qed.

(** The reader of [getLocks]. *)
Lemma getLocks_reader_ok w0 :
  WellFormed w0 ->
  ReaderOK w0
    (fun resource w =>
       let '(locks, w) := getCurrentResourceLocks resource w in
       (List.filter notProvisional locks, w))
    (currentLocks w0).
Proof.
  intros WF r w P. unfold getCurrentResourceLocks, removeAndDeleteTimedOutLocks,
    Resource_getLocks.
  destruct (removeAndDeleteTimedOutLocks_loop (store w r) [] w) as [ls w'] eqn:L.
  simpl. split.
  - change ls with (fst (ls, w')). rewrite <- L, loop_result. simpl.
    destruct P as [Hnow P']. rewrite Hnow. unfold currentLocks.
    rewrite (Purged_live w0 w r (conj Hnow P')). reflexivity.
  - change w' with (snd (ls, w')). rewrite <- L. apply loop_Purged; try assumption.
    rewrite <- (filter_all_true (fun _ => true) (store w r)) by reflexivity.
    apply stored_under_own_resource; assumption.
Qed.

(** The reader of [getLocksByUser]. *)
Lemma getLocksByUser_reader_ok w0 user :
  WellFormed w0 ->
  ReaderOK w0
    (fun resource w =>
       let '(locks, w) := getCurrentResourceLocksByUser resource user w in
       (List.filter notProvisional locks, w))
    (currentLocksByUser user w0).
Proof.
  intros WF r w P. unfold getCurrentResourceLocksByUser,
    removeAndDeleteTimedOutLocks, Resource_getLocksByUser.
  destruct (removeAndDeleteTimedOutLocks_loop _ [] w) as [ls w'] eqn:L.
  simpl. split.
  - change ls with (fst (ls, w')). rewrite <- L, loop_result. simpl.
    destruct P as [Hnow P']. rewrite Hnow. unfold currentLocksByUser, currentLocks.
    rewrite (filter_filter_comm _ (live (now w0))).
    rewrite (Purged_live w0 w r (conj Hnow P')).
    rewrite (filter_filter_comm _ notProvisional). reflexivity.
  - change w' with (snd (ls, w')). rewrite <- L. apply loop_Purged; try assumption.
    apply stored_under_own_resource; assumption.
Qed.

(** The reader of [getProvisionalLocks]. *)
Lemma getProvisionalLocks_reader_ok w0 :
  WellFormed w0 ->
  ReaderOK w0
    (fun resource w =>
       let '(locks, w) := getCurrentResourceLocks resource w in
       (List.filter Lock.provisional locks, w))
    (fun r => List.filter Lock.provisional (List.filter (live (now w0)) (store w0 r))).
Proof.
  intros WF r w P. unfold getCurrentResourceLocks, removeAndDeleteTimedOutLocks,
    Resource_getLocks.
  destruct (removeAndDeleteTimedOutLocks_loop (store w r) [] w) as [ls w'] eqn:L.
  simpl. split.
  - change ls with (fst (ls, w')). rewrite <- L, loop_result. simpl.
    destruct P as [Hnow P']. rewrite Hnow.
    rewrite (Purged_live w0 w r (conj Hnow P')). reflexivity.
  - change w' with (snd (ls, w')). rewrite <- L. apply loop_Purged; try assumption.
    rewrite <- (filter_all_true (fun _ => true) (store w r)) by reflexivity.
    apply stored_under_own_resource; assumption.
Qed.

End PurgedStore.

(** ** The walk up the parents *)

Section Walk.

Variable request : Request.

(** Whether the walk ends depends on the paths alone. *)
Lemma walkParents_ends (reader : LockReader) fuel :
  forall parent first locks w,
    parentChain fuel request parent = None <->
    walkParents fuel request reader parent first locks w = None.
Proof.
  induction fuel as [|fuel IH]; intros [parent|] first locks w; simpl;
    try tauto; try (split; discriminate).
  destruct (reader parent w) as [pl w1].
  rewrite <- (IH _ false (fold_left (pushParentLock first) pl locks) w1).
  destruct (parentChain fuel request (getParentResource request parent)); simpl;
    split; congruence.
Qed.

Lemma walkParents_spec w0 reader locksOf :
  ReaderOK w0 reader locksOf ->
  forall fuel parent first locks w chain,
    Purged w0 w ->
    parentChain fuel request parent = Some chain ->
    exists w',
      walkParents fuel request reader parent first locks w
      = Some (pushParents locksOf chain first locks, w')
      /\ Purged w0 w'.
Proof.
  intros OK. induction fuel as [|fuel IH]; intros [parent|] first locks w chain P C;
    simpl in *; try discriminate.
  - injection C as <-. exists w. split; [reflexivity|exact P].
  - destruct (parentChain fuel request (getParentResource request parent))
      as [chain'|] eqn:C'; simpl in C; [|discriminate].
    injection C as <-. destruct (OK parent w P) as [R P1].
    destruct (reader parent w) as [pl w1]. simpl in R, P1. subst pl.
    apply (IH _ false (fold_left (pushParentLock first) (locksOf parent) locks) w1 chain' P1 C').
  - injection C as <-. exists w. split; [reflexivity|exact P].
Qed.

Lemma getLocksGeneral_ends (reader : LockReader) resource w :
  ancestors request resource = None <->
  getLocksGeneral request resource reader w = None.
Proof.
  unfold ancestors, getLocksGeneral. destruct (reader resource w) as [rl w1].
  apply walkParents_ends.
Qed.

Lemma getLocksGeneral_spec w0 reader locksOf resource w chain :
  ReaderOK w0 reader locksOf -> Purged w0 w ->
  ancestors request resource = Some chain ->
  exists w',
    getLocksGeneral request resource reader w
    = Some (viewOf locksOf resource chain, w')
    /\ Purged w0 w'.
Proof.
  intros OK P C. unfold getLocksGeneral, viewOf.
  destruct (OK resource w P) as [R P1]. destruct (reader resource w) as [rl w1].
  simpl in R, P1. subst rl. eapply walkParents_spec; eauto.
Qed.

End Walk.

(** ** The shape of the four views *)

Section ViewShape.

Lemma fold_pushParentLock first pl : forall locks,
  let locks' := fold_left (pushParentLock first) pl locks in
  Locks.all locks'
  = Locks.all locks
    ++ List.filter (fun l => first || hasDepth depth_infinity l) pl
  /\ Locks.resource locks' = Locks.resource locks
  /\ Locks.depthZero locks'
     = Locks.depthZero locks
       ++ (if first then List.filter (hasDepth depth_0) pl else [])
  /\ Locks.depthInfinity locks'
     = Locks.depthInfinity locks ++ List.filter (hasDepth depth_infinity) pl.
Proof.
  induction pl as [|l pl IH]; intros locks; simpl.
  - destruct first; rewrite !app_nil_r; auto.
  - specialize (IH (pushParentLock first locks l)). simpl in IH.
    destruct IH as (A & R & Z & I). rewrite A, R, Z, I. clear A R Z I.
    unfold pushParentLock, hasDepth.
    destruct (Lock.depth l); destruct first; simpl;
      rewrite <- ?app_assoc, ?app_nil_r; auto.
Qed.

Lemma pushParents_later locksOf chain : forall locks,
  let locks' := pushParents locksOf chain false locks in
  Locks.all locks' = Locks.all locks ++ inheritedInfinity locksOf chain
  /\ Locks.resource locks' = Locks.resource locks
  /\ Locks.depthZero locks' = Locks.depthZero locks
  /\ Locks.depthInfinity locks'
     = Locks.depthInfinity locks ++ inheritedInfinity locksOf chain.
Proof.
  induction chain as [|p chain IH]; intros locks; simpl.
  - rewrite !app_nil_r. auto.
  - specialize (IH (fold_left (pushParentLock false) (locksOf p) locks)).
    simpl in IH. destruct IH as (A & R & Z & I). rewrite A, R, Z, I.
    destruct (fold_pushParentLock false (locksOf p) locks) as (A' & R' & Z' & I').
    rewrite A', R', Z', I'. simpl. rewrite <- !app_assoc, ?app_nil_r. auto.
Qed.

(** The views in closed form: the locks of the resource, the depth-0 locks
    of the first parent visited, the depth-infinity locks of every parent
    visited; [all] lists them in the order of the visit. *)
Theorem viewOf_shape locksOf resource chain :
  let v := viewOf locksOf resource chain in
  Locks.resource v = locksOf resource
  /\ Locks.depthZero v
     = match chain with
       | [] => []
       | p :: _ => List.filter (hasDepth depth_0) (locksOf p)
       end
  /\ Locks.depthInfinity v = inheritedInfinity locksOf chain
  /\ Locks.all v
     = locksOf resource
       ++ match chain with
          | [] => []
          | p :: rest => locksOf p ++ inheritedInfinity locksOf rest
          end.
Proof.
  unfold viewOf. destruct chain as [|p rest]; simpl; [rewrite app_nil_r; auto|].
  set (l0 := Locks.mk (locksOf resource) (locksOf resource) [] []).
  destruct (pushParents_later locksOf rest
              (fold_left (pushParentLock true) (locksOf p) l0)) as (A & R & Z & I).
  destruct (fold_pushParentLock true (locksOf p) l0) as (A' & R' & Z' & I').
  simpl in *. rewrite A, R, Z, I, A', R', Z', I'. subst l0. simpl.
  rewrite (filter_all_true (fun _ => true)) by reflexivity.
  rewrite <- ?app_assoc. auto.
Qed.

Lemma filter_flat_map {A B} (p : B -> bool) (f : A -> list B) (l : list A) :
  List.filter p (flat_map f l) = flat_map (fun x => List.filter p (f x)) l.
Proof.
  induction l as [|x l IH]; simpl; [reflexivity|].
  rewrite List.filter_app, IH. reflexivity.
Qed.

Lemma inheritedInfinity_filter (p : Lock.t -> bool) locksOf chain :
  inheritedInfinity (fun r => List.filter p (locksOf r)) chain
  = List.filter p (inheritedInfinity locksOf chain).
Proof.
  unfold inheritedInfinity. rewrite filter_flat_map. apply flat_map_ext.
  intros r. apply filter_filter_comm.
Qed.

(** Restricting the locks of every resource restricts [all] accordingly. *)
Lemma viewOf_filter_all (p : Lock.t -> bool) locksOf resource chain :
  Locks.all (viewOf (fun r => List.filter p (locksOf r)) resource chain)
  = List.filter p (Locks.all (viewOf locksOf resource chain)).
Proof.
  destruct (viewOf_shape locksOf resource chain) as (_ & _ & _ & ->).
  destruct (viewOf_shape (fun r => List.filter p (locksOf r)) resource chain)
    as (_ & _ & _ & ->).
  destruct chain as [|q rest]; rewrite ?List.filter_app, ?app_nil_r;
    rewrite ?inheritedInfinity_filter; reflexivity.
Qed.

Lemma depth_partition (ls : list Lock.t) :
  Permutation ls (List.filter (hasDepth depth_0) ls
                  ++ List.filter (hasDepth depth_infinity) ls).
Proof.
  induction ls as [|l ls IH]; simpl; [reflexivity|].
  unfold hasDepth at 1 3. destruct (Lock.depth l); simpl.
  - apply perm_skip. exact IH.
  - rewrite IH at 1. apply Permutation_middle.
Qed.

(** [all] is the three tagged views put together. *)
Lemma viewOf_all_Permutation locksOf resource chain :
  let v := viewOf locksOf resource chain in
  Permutation (Locks.all v)
              (Locks.resource v ++ Locks.depthZero v ++ Locks.depthInfinity v).
Proof.
  destruct (viewOf_shape locksOf resource chain) as (R & Z & I & A). simpl.
  rewrite R, Z, I, A. apply Permutation_app_head.
  destruct chain as [|p rest]; simpl; [reflexivity|].
  unfold inheritedInfinity at 2. simpl. fold (inheritedInfinity locksOf rest).
  rewrite app_assoc. apply Permutation_app_tail.
  apply depth_partition.
Qed.

End ViewShape.

(** ** The permission decision *)

Section Permission.

Lemma includes_In l x : JS.includes l x = true <-> In x l.
Proof.
  unfold JS.includes. rewrite existsb_exists. split.
  - intros (y & Hy & E). apply String.eqb_eq in E. subst. exact Hy.
  - intros H. exists x. split; [exact H|apply String.eqb_refl].
Qed.

Lemma tokenSet_submitted request lock :
  bool_decide (Lock.token lock ∈ (list_to_set (getRequestLockTockens request) : gset string))
  = submitted request lock.
Proof.
  unfold submitted. apply eq_true_iff_eq.
  rewrite bool_decide_eq_true, elem_of_list_to_set, list_elem_of_In, includes_In.
  reflexivity.
Qed.

Lemma find_submitted request locks :
  JS.find (fun userLock =>
             bool_decide (Lock.token userLock
                          ∈ (list_to_set (getRequestLockTockens request) : gset string)))
          locks
  = List.find (submitted request) locks.
Proof.
  unfold JS.find. induction locks as [|l locks IH]; simpl; [reflexivity|].
  rewrite tokenSet_submitted, IH. reflexivity.
Qed.

Lemma find_none_iff {A} (p : A -> bool) (l : list A) :
  List.find p l = None <-> Forall (fun x => p x = false) l.
Proof.
  induction l as [|x l IH]; simpl.
  - split; [constructor|reflexivity].
  - destruct (p x) eqn:E.
    + split; [discriminate|]. intros H. apply List.Forall_cons_iff in H as [H _].
      simpl in H. congruence.
    + rewrite IH. split; [intros H; constructor; assumption|].
      intros H. apply List.Forall_cons_iff in H. tauto.
Qed.

Lemma find_some_iff {A} (p : A -> bool) (l : list A) :
  (exists y, List.find p l = Some y) <-> exists x, In x l /\ p x = true.
Proof.
  split.
  - intros (y & H). apply List.find_some in H. exists y. exact H.
  - intros (x & Hx & Hp). destruct (List.find p l) eqn:E; [eauto|].
    apply find_none_iff in E. rewrite List.Forall_forall in E.
    rewrite (E x Hx) in Hp. discriminate.
Qed.

Lemma lengthTruthy_false {A} (l : list A) : lengthTruthy l = false <-> l = [].
Proof. unfold lengthTruthy. destruct l; simpl; split; congruence. Qed.

Lemma lengthTruthy_true {A} (l : list A) : lengthTruthy l = true <-> l <> [].
Proof. unfold lengthTruthy. destruct l; simpl; split; congruence. Qed.

(** A scan returns on the first exclusive lock and otherwise remembers
    whether it has seen a shared one. *)
Lemma scanLocks_spec onExclusive locks : forall code,
  scanLocks onExclusive locks code
  = if existsb isExclusive locks then inl onExclusive
    else inr (if existsb isShared locks then 3 else code).
Proof.
  induction locks as [|l locks IH]; intros code; simpl; [reflexivity|].
  unfold isExclusive at 1, isShared at 1. destruct (Lock.scope l); simpl;
    [reflexivity|].
  rewrite IH. destruct (existsb isExclusive locks); [reflexivity|].
  destruct (existsb isShared locks); reflexivity.
Qed.

(** The LOCK branch in closed form. *)
Lemma permissionWithLocks_LOCK request locks userLocks :
  method request = "LOCK" ->
  Forall (fun l => submitted request l = false) (Locks.all userLocks) ->
  permissionWithLocks request locks userLocks
  = if existsb isExclusive (Locks.resource locks ++ Locks.depthInfinity locks)
    then 0
    else if existsb isExclusive (Locks.depthZero locks) then 1
    else if existsb isShared (Locks.resource locks ++ Locks.depthInfinity locks
                              ++ Locks.depthZero locks) then 3
    else 0.
Proof.
  intros M N. unfold permissionWithLocks. rewrite find_submitted.
  apply find_none_iff in N. rewrite N, M. simpl.
  rewrite !existsb_app, !scanLocks_spec.
  destruct (existsb isExclusive (Locks.resource locks)); [reflexivity|].
  rewrite scanLocks_spec.
  destruct (existsb isExclusive (Locks.depthInfinity locks)); [reflexivity|].
  rewrite scanLocks_spec.
  destruct (existsb isExclusive (Locks.depthZero locks)); [reflexivity|].
  simpl.
  destruct (existsb isShared (Locks.resource locks)),
           (existsb isShared (Locks.depthInfinity locks)),
           (existsb isShared (Locks.depthZero locks)); reflexivity.
Qed.

(** The branch of every other method in closed form. *)
Lemma permissionWithLocks_other request locks userLocks :
  method request <> "LOCK" ->
  Forall (fun l => submitted request l = false) (Locks.all userLocks) ->
  permissionWithLocks request locks userLocks
  = match Locks.resource locks, Locks.depthInfinity locks, Locks.depthZero locks with
    | [], [], _ :: _ => 1
    | _, _, _ => 0
    end.
Proof.
  intros M N. unfold permissionWithLocks. rewrite find_submitted.
  apply find_none_iff in N. rewrite N.
  apply String.eqb_neq in M. rewrite M.
  destruct (Locks.resource locks), (Locks.depthInfinity locks),
           (Locks.depthZero locks); reflexivity.
Qed.

Lemma permissionWithLocks_owned request locks userLocks :
  permissionWithLocks request locks userLocks = 2
  <-> exists l, In l (Locks.all userLocks) /\ submitted request l = true.
Proof.
  unfold permissionWithLocks. rewrite find_submitted, <- find_some_iff.
  destruct (List.find (submitted request) (Locks.all userLocks)) as [l|].
  - split; eauto.
  - split; [|intros (y & H); discriminate]. intros H. exfalso.
    destruct (String.eqb (method request) "LOCK").
    + simpl in H. rewrite !scanLocks_spec in H.
      destruct (existsb isExclusive (Locks.resource locks)); [discriminate|].
      rewrite scanLocks_spec in H.
      destruct (existsb isExclusive (Locks.depthInfinity locks)); [discriminate|].
      rewrite scanLocks_spec in H.
      destruct (existsb isExclusive (Locks.depthZero locks)); [discriminate|].
      destruct (existsb isShared (Locks.depthZero locks)); [discriminate|].
      destruct (existsb isShared (Locks.depthInfinity locks)); [discriminate|].
      destruct (existsb isShared (Locks.resource locks)); discriminate.
    + destruct (lengthTruthy (Locks.depthInfinity locks)
                || lengthTruthy (Locks.resource locks))%bool; [discriminate|].
      destruct (lengthTruthy (Locks.depthZero locks)); discriminate.
Qed.

(** Whether [getLocksByUser] ends is settled by [getLocks] having ended. *)
Lemma getLocksByUser_ends request resource user w locks w1 :
  getLocks request resource w = Some (locks, w1) ->
  exists userLocks w2,
    getLocksByUser request resource user w1 = Some (userLocks, w2).
Proof.
  intros H. unfold getLocksByUser.
  match goal with
  | |- exists _ _, getLocksGeneral _ _ ?rd _ = _ =>
      destruct (getLocksGeneral request resource rd w1) as [[ul w2]|] eqn:E
  end; [eauto|].
  apply getLocksGeneral_ends in E. unfold getLocks in H.
  match type of H with
  | getLocksGeneral _ _ ?rd _ = _ =>
      apply (getLocksGeneral_ends request rd resource w) in E
  end.
  congruence.
Qed.

(** [getLockPermission] is [permissionOf] on the views it reads. *)
Lemma getLockPermission_unfold request resource user w locks w1 userLocks w2 :
  getLocks request resource w = Some (locks, w1) ->
  getLocksByUser request resource user w1 = Some (userLocks, w2) ->
  getLockPermission request resource user w
  = Some (permissionOf request locks userLocks,
          if negb (lengthTruthy (Locks.all locks)) then w1 else w2).
Proof.
  intros H1 H2. unfold getLockPermission, permissionOf. rewrite H1. simpl.
  destruct (negb (lengthTruthy (Locks.all locks))); [reflexivity|].
  rewrite H2. reflexivity.
Qed.

End Permission.

(** ** The views [getLocksGeneral] returns *)

Section Views.

Lemma fold_pushParentLock_partitioned first pl locks :
  partitioned locks -> partitioned (fold_left (pushParentLock first) pl locks).
Proof.
  unfold partitioned. intros P.
  destruct (fold_pushParentLock first pl locks) as (A & R & Z & I).
  rewrite A, R, Z, I, P. rewrite <- !app_assoc.
  do 2 apply Permutation_app_head.
  destruct first; simpl; [|reflexivity].
  rewrite (filter_all_true (fun _ => true)) by reflexivity.
  rewrite (depth_partition pl) at 1.
  rewrite !app_assoc. apply Permutation_app_tail. apply Permutation_app_comm.
Qed.

Lemma walkParents_partitioned request reader fuel :
  forall parent first locks w locks' w',
    partitioned locks ->
    walkParents fuel request reader parent first locks w = Some (locks', w') ->
    partitioned locks'.
Proof.
  induction fuel as [|fuel IH]; intros [parent|] first locks w locks' w' P H;
    simpl in H; try discriminate; try (injection H as <- <-; exact P).
  destruct (reader parent w) as [pl w1].
  eapply IH; [|exact H]. apply fold_pushParentLock_partitioned, P.
Qed.

(** Whatever the reader, [all] is made of the three tagged views. *)
Lemma getLocksGeneral_partitioned request resource reader w locks w' :
  getLocksGeneral request resource reader w = Some (locks, w') ->
  partitioned locks.
Proof.
  unfold getLocksGeneral. destruct (reader resource w) as [rl w1]. intros H.
  eapply walkParents_partitioned; [|exact H].
  unfold partitioned. simpl. rewrite app_nil_r. reflexivity.
Qed.

(** On a well-formed store the views are those of the locks current when
    the method starts. *)
Lemma getLocks_view request resource w chain :
  WellFormed w -> ancestors request resource = Some chain ->
  exists w1,
    getLocks request resource w
    = Some (viewOf (currentLocks w) resource chain, w1)
    /\ Purged w w1.
Proof.
  intros WF C. unfold getLocks.
  eapply getLocksGeneral_spec; eauto using getLocks_reader_ok, Purged_refl.
Qed.

Lemma getLocksByUser_view request resource user w0 w chain :
  WellFormed w0 -> Purged w0 w -> ancestors request resource = Some chain ->
  exists w1,
    getLocksByUser request resource user w
    = Some (viewOf (currentLocksByUser user w0) resource chain, w1)
    /\ Purged w0 w1.
Proof.
  intros WF P C. unfold getLocksByUser.
  eapply getLocksGeneral_spec; eauto using getLocksByUser_reader_ok.
Qed.

Lemma getLocks_ancestors request resource w locks w1 :
  getLocks request resource w = Some (locks, w1) ->
  exists chain, ancestors request resource = Some chain.
Proof.
  intros H. destruct (ancestors request resource) as [chain|] eqn:E; [eauto|].
  unfold getLocks in H.
  match type of H with
  | getLocksGeneral _ _ ?rd _ = _ =>
      apply (getLocksGeneral_ends request rd resource w) in E
  end.
  congruence.
Qed.

(** The whole decision on a well-formed store. *)
Lemma getLockPermission_spec request resource user w chain :
  WellFormed w -> ancestors request resource = Some chain ->
  exists w',
    getLockPermission request resource user w
    = Some (permissionOf request (viewOf (currentLocks w) resource chain)
              (viewOf (currentLocksByUser user w) resource chain), w')
    /\ Purged w w'.
Proof.
  intros WF C.
  destruct (getLocks_view request resource w chain WF C) as (w1 & H1 & P1).
  destruct (getLocksByUser_view request resource user w w1 chain WF P1 C)
    as (w2 & H2 & P2).
  rewrite (getLockPermission_unfold _ _ _ _ _ _ _ _ H1 H2).
  destruct (negb (lengthTruthy (Locks.all (viewOf (currentLocks w) resource chain))));
    eauto.
Qed.

End Views.

(** ** Claims on the permission decision *)

(** C1.  For a request whose method is not LOCK: when the effective lock
    set ([all]) is empty the permission is 2; when it is not empty and no
    lock of the user's views has its token among the submitted ones, the
    permission is 0 if a lock is tagged [resource] or [depthInfinity], 1 if
    none is but a depth-0 lock of the parent ([depthZero]) exists, and 0
    otherwise. *)
Theorem C1_permission_other_methods request resource user w locks w1 :
  method request <> "LOCK" ->
  getLocks request resource w = Some (locks, w1) ->
  exists userLocks w2,
    getLocksByUser request resource user w1 = Some (userLocks, w2)
    /\ (Locks.all locks = [] ->
        getLockPermission request resource user w = Some (2, w1))
    /\ (Locks.all locks <> [] ->
        Forall (fun l => submitted request l = false) (Locks.all userLocks) ->
        exists code,
          getLockPermission request resource user w = Some (code, w2)
          /\ (Locks.resource locks <> [] \/ Locks.depthInfinity locks <> []
              -> code = 0)
          /\ (Locks.resource locks = [] -> Locks.depthInfinity locks = []
              -> Locks.depthZero locks <> [] -> code = 1)
          /\ (Locks.resource locks = [] -> Locks.depthInfinity locks = []
              -> Locks.depthZero locks = [] -> code = 0)).
Proof.
  intros M H1.
  destruct (getLocksByUser_ends request resource user w locks w1 H1)
    as (userLocks & w2 & H2).
  exists userLocks, w2. split; [exact H2|].
  pose proof (getLockPermission_unfold _ _ _ _ _ _ _ _ H1 H2) as G.
  unfold permissionOf in G. split.
  - intros E. apply lengthTruthy_false in E. rewrite E in G. exact G.
  - intros NE N. apply lengthTruthy_true in NE. rewrite NE in G. simpl in G.
    rewrite (permissionWithLocks_other request locks userLocks M N) in G.
    eexists. split; [exact G|].
    destruct (Locks.resource locks), (Locks.depthInfinity locks),
             (Locks.depthZero locks); repeat split; intros; try reflexivity;
      try discriminate; try congruence; intuition congruence.
Qed.

Lemma C1_witness :
  method Sample.put <> "LOCK"
  /\ exists locks w1,
       getLocks Sample.put "/docs/b.txt" Sample.world = Some (locks, w1)
       /\ Locks.depthZero locks = [Sample.lockDocs]
       /\ exists userLocks w2,
            getLocksByUser Sample.put "/docs/b.txt" Sample.bob w1
            = Some (userLocks, w2)
            /\ getLockPermission Sample.put "/docs/b.txt" Sample.bob Sample.world
               = Some (1, w2).
Proof.
  assert (M : method Sample.put <> "LOCK") by discriminate.
  split; [exact M|].
  destruct (getLocks Sample.put "/docs/b.txt" Sample.world) as [[locks w1]|] eqn:E;
    [|vm_compute in E; discriminate].
  exists locks, w1. split; [reflexivity|].
  assert (V : locks = Locks.mk [Sample.lockDocs] [] [Sample.lockDocs] []).
  { vm_compute in E. injection E as <- _. reflexivity. }
  split; [rewrite V; reflexivity|].
  destruct (C1_permission_other_methods Sample.put "/docs/b.txt" Sample.bob
              Sample.world locks w1 M E) as (userLocks & w2 & H2 & _ & H).
  exists userLocks, w2. split; [exact H2|].
  assert (U : Locks.all userLocks = []).
  { assert (E' : getLocks Sample.put "/docs/b.txt" Sample.world = Some (locks, w1))
      by exact E.
    vm_compute in E'. injection E' as _ <-. vm_compute in H2.
    injection H2 as <- _. reflexivity. }
  destruct H as (code & G & _ & H1 & _).
  - rewrite V. discriminate.
  - rewrite U. constructor.
  - rewrite G. f_equal. f_equal. apply H1; rewrite V; [reflexivity|reflexivity|discriminate].
Defined.

(** C2.  For a LOCK request, when the effective lock set is not empty and
    no lock of the user's views has its token among the submitted ones, the
    scan of the [resource], [depthInfinity] and [depthZero] locks yields: 0
    if a [resource] or [depthInfinity] lock is exclusive; otherwise 1 if a
    [depthZero] lock is exclusive; otherwise 3 if some lock is shared, in
    particular when all locks are shared; and 0 otherwise. *)
Theorem C2_permission_LOCK request resource user w locks w1 :
  method request = "LOCK" ->
  getLocks request resource w = Some (locks, w1) ->
  Locks.all locks <> [] ->
  exists userLocks w2,
    getLocksByUser request resource user w1 = Some (userLocks, w2)
    /\ (Forall (fun l => submitted request l = false) (Locks.all userLocks) ->
        exists code,
          getLockPermission request resource user w = Some (code, w2)
          /\ code
             = (if existsb isExclusive
                     (Locks.resource locks ++ Locks.depthInfinity locks)
                then 0
                else if existsb isExclusive (Locks.depthZero locks) then 1
                else if existsb isShared
                          (Locks.resource locks ++ Locks.depthInfinity locks
                           ++ Locks.depthZero locks)
                then 3
                else 0)
          /\ (Forall (fun l => Lock.scope l = shared) (Locks.all locks)
              -> code = 3)).
Proof.
  intros M H1 NE.
  destruct (getLocksByUser_ends request resource user w locks w1 H1)
    as (userLocks & w2 & H2).
  exists userLocks, w2. split; [exact H2|]. intros N.
  pose proof (getLockPermission_unfold _ _ _ _ _ _ _ _ H1 H2) as G.
  unfold permissionOf in G.
  pose proof NE as NE'. apply lengthTruthy_true in NE'. rewrite NE' in G.
  simpl in G. rewrite (permissionWithLocks_LOCK request locks userLocks M N) in G.
  eexists. split; [exact G|]. split; [reflexivity|].
  intros S. unfold getLocks in H1.
  apply getLocksGeneral_partitioned in H1. unfold partitioned in H1.
  assert (S' : Forall (fun l => Lock.scope l = shared)
                 (Locks.resource locks ++ Locks.depthZero locks
                  ++ Locks.depthInfinity locks)).
  { rewrite List.Forall_forall in *. intros l Hl. apply S.
    eapply Permutation_in; [symmetry; exact H1|exact Hl]. }
  assert (NX : forall ls, Forall (fun l => Lock.scope l = shared) ls ->
                          existsb isExclusive ls = false).
  { intros ls F. induction F as [|l ls Hl _ IH]; simpl; [reflexivity|].
    unfold isExclusive at 1. rewrite Hl. exact IH. }
  assert (SX : forall ls, Forall (fun l => Lock.scope l = shared) ls ->
                          ls <> [] -> existsb isShared ls = true).
  { intros ls F Hne. destruct F as [|l ls Hl _]; [congruence|]. simpl.
    unfold isShared at 1. rewrite Hl. reflexivity. }
  apply List.Forall_app in S' as [SR S']. apply List.Forall_app in S' as [SZ SI].
  rewrite (NX _ (proj2 (List.Forall_app _ _ _) (conj SR SI))), (NX _ SZ).
  rewrite SX; [reflexivity| |].
  - apply List.Forall_app. split; [exact SR|]. apply List.Forall_app. split; assumption.
  - intros E. apply NE. apply Permutation_nil.
    rewrite H1. apply app_eq_nil in E as [-> E]. apply app_eq_nil in E as [-> ->].
    reflexivity.
Qed.

Lemma C2_witness :
  method Sample.lock = "LOCK"
  /\ exists locks w1,
       getLocks Sample.lock "/docs/a.txt" Sample.world = Some (locks, w1)
       /\ Locks.all locks <> []
       /\ exists userLocks w2,
            getLocksByUser Sample.lock "/docs/a.txt" Sample.bob w1
            = Some (userLocks, w2)
            /\ getLockPermission Sample.lock "/docs/a.txt" Sample.bob Sample.world
               = Some (1, w2).
Proof.
  split; [reflexivity|].
  destruct (getLocks Sample.lock "/docs/a.txt" Sample.world) as [[locks w1]|] eqn:E;
    [|vm_compute in E; discriminate].
  exists locks, w1. split; [reflexivity|].
  assert (V : locks = Locks.mk [Sample.lockFile; Sample.lockDocs] [Sample.lockFile]
                               [Sample.lockDocs] []).
  { vm_compute in E. injection E as <- _. reflexivity. }
  assert (NE : Locks.all locks <> []) by (rewrite V; discriminate).
  split; [exact NE|].
  destruct (C2_permission_LOCK Sample.lock "/docs/a.txt" Sample.bob Sample.world
              locks w1 eq_refl E NE) as (userLocks & w2 & H2 & H).
  exists userLocks, w2. split; [exact H2|].
  assert (U : Locks.all userLocks = []).
  { assert (E' : getLocks Sample.lock "/docs/a.txt" Sample.world = Some (locks, w1))
      by exact E.
    vm_compute in E'. injection E' as _ <-. vm_compute in H2.
    injection H2 as <- _. reflexivity. }
  destruct H as (code & G & C & _); [rewrite U; constructor|].
  rewrite G, C, V. reflexivity.
Defined.

(** C3 as stated fails: a token sent in the [Lock-Token] header does not
    count.  Alice holds the lock [lockFile] on [/docs/a.txt] and sends its
    token in [Lock-Token] only; the token is among those of the two headers
    and the principals agree, yet the permission is 0, not 2. *)
Lemma C3_counterexample :
  ~ (option_map fst
       (getLockPermission (Sample.putLockToken Sample.tokenB) "/docs/a.txt"
          Sample.alice Sample.world) = Some 2
     <-> exists l,
           In l (List.filter (live (now Sample.world))
                   (store Sample.world "/docs/a.txt"))
           /\ username (Lock.user l) = username Sample.alice
           /\ In (Lock.token l)
                 (specSubmittedTokens (Sample.putLockToken Sample.tokenB))).
Proof.
  intros [_ H].
  assert (C : option_map fst
                (getLockPermission (Sample.putLockToken Sample.tokenB)
                   "/docs/a.txt" Sample.alice Sample.world) = Some 0)
    by (vm_compute; reflexivity).
  rewrite C in H. enough (Some 0 = Some 2) by discriminate. apply H.
  exists Sample.lockFile. vm_compute. auto.
Qed.

(** C3, amended.  On a well-formed store with a non-empty effective lock
    set, [getLockPermission] returns 2 exactly when some lock of the
    effective set has the request's user as its principal and has its token
    among those extracted from the request's [If] header; no other header is
    read for tokens. *)
Theorem C3_owned_by_If_token_and_principal request resource user w locks w1 :
  WellFormed w ->
  getLocks request resource w = Some (locks, w1) ->
  Locks.all locks <> [] ->
  exists code w2,
    getLockPermission request resource user w = Some (code, w2)
    /\ (code = 2 <->
        exists l, In l (Locks.all locks)
                  /\ username (Lock.user l) = username user
                  /\ In (Lock.token l) (getRequestLockTockens request))
    /\ getRequestLockTockens request
       = map slice_1_m1
           (matchAllLockTokens 0 (orElse (get request "If") EmptyString)).
Proof.
  intros WF H1 NE.
  destruct (getLocks_ancestors _ _ _ _ _ H1) as (chain & C).
  destruct (getLocks_view request resource w chain WF C) as (w1' & H1' & P1).
  rewrite H1 in H1'. injection H1' as -> <-.
  destruct (getLocksByUser_view request resource user w w1 chain WF P1 C)
    as (w2 & H2 & _).
  rewrite (getLockPermission_unfold _ _ _ _ _ _ _ _ H1 H2).
  apply lengthTruthy_true in NE. unfold permissionOf. rewrite NE. simpl.
  eexists. eexists. split; [reflexivity|]. split; [|reflexivity].
  rewrite permissionWithLocks_owned.
  change (currentLocksByUser user w)
    with (fun r => List.filter (fun lock => sameUser (Lock.user lock) user)
                     (currentLocks w r)).
  rewrite viewOf_filter_all.
  split.
  - intros (l & Hl & S). apply filter_In in Hl as [Hl U]. exists l.
    split; [exact Hl|]. split; [apply String.eqb_eq, U|].
    apply includes_In, S.
  - intros (l & Hl & U & S). exists l. split.
    + apply filter_In. split; [exact Hl|]. apply String.eqb_eq, U.
    + apply includes_In, S.
Qed.

Lemma Sample_world_WellFormed : WellFormed Sample.world.
Proof.
  intros r. unfold Sample.world. simpl.
  destruct (String.eqb r "/docs/") eqn:E1;
    [apply String.eqb_eq in E1; subst; split; repeat constructor;
     simpl; intuition discriminate|].
  destruct (String.eqb r "/docs/a.txt") eqn:E2;
    [apply String.eqb_eq in E2; subst; split; repeat constructor;
     simpl; intuition discriminate|].
  destruct (String.eqb r "/docs/new.txt") eqn:E3;
    [apply String.eqb_eq in E3; subst; split; repeat constructor;
     simpl; intuition discriminate|].
  split; constructor.
Defined.

Lemma C3_witness :
  WellFormed Sample.world
  /\ exists locks w1,
       getLocks (Sample.putIf Sample.tokenB) "/docs/a.txt" Sample.world
       = Some (locks, w1)
       /\ Locks.all locks <> []
       /\ exists w2,
            getLockPermission (Sample.putIf Sample.tokenB) "/docs/a.txt"
              Sample.alice Sample.world = Some (2, w2).
Proof.
  split; [exact Sample_world_WellFormed|].
  destruct (getLocks (Sample.putIf Sample.tokenB) "/docs/a.txt" Sample.world)
    as [[locks w1]|] eqn:E; [|vm_compute in E; discriminate].
  exists locks, w1. split; [reflexivity|].
  assert (V : Locks.all locks = [Sample.lockFile; Sample.lockDocs]).
  { vm_compute in E. injection E as <- _. reflexivity. }
  assert (NE : Locks.all locks <> []) by (rewrite V; discriminate).
  split; [exact NE|].
  destruct (C3_owned_by_If_token_and_principal (Sample.putIf Sample.tokenB)
              "/docs/a.txt" Sample.alice Sample.world locks w1
              Sample_world_WellFormed E NE) as (code & w2 & G & [_ O] & _).
  exists w2. rewrite G. f_equal. f_equal. apply O.
  exists Sample.lockFile. rewrite V. vm_compute. auto.
Defined.

(** ** What every lock of a view satisfies *)

Section ViewInvariant.

Variable P : Lock.t -> Prop.
Variable I : World -> Prop.
Variable reader : LockReader.
Hypothesis reader_keeps :
  forall r w, I w -> Forall P (fst (reader r w)) /\ I (snd (reader r w)).

Lemma walkParents_Forall request fuel :
  forall parent first locks w locks' w',
    I w -> Forall P (Locks.all locks) ->
    walkParents fuel request reader parent first locks w = Some (locks', w') ->
    Forall P (Locks.all locks') /\ I w'.
Proof.
  induction fuel as [|fuel IH]; intros [parent|] first locks w locks' w' Hw F H;
    simpl in H; try discriminate; try (injection H as <- <-; auto).
  destruct (reader_keeps parent w Hw) as [Fp Hw1].
  destruct (reader parent w) as [pl w1]. simpl in Fp, Hw1.
  eapply IH; [exact Hw1| |exact H].
  destruct (fold_pushParentLock first pl locks) as (A & _). rewrite A.
  apply List.Forall_app. split; [exact F|].
  rewrite List.Forall_forall in *. intros x Hx. apply filter_In in Hx. apply Fp. tauto.
Qed.

Lemma getLocksGeneral_Forall request resource w locks w' :
  I w -> getLocksGeneral request resource reader w = Some (locks, w') ->
  Forall P (Locks.all locks) /\ I w'.
Proof.
  intros Hw. unfold getLocksGeneral.
  destruct (reader_keeps resource w Hw) as [Fr Hw1].
  destruct (reader resource w) as [rl w1]. simpl in Fr, Hw1.
  apply walkParents_Forall; assumption.
Qed.

End ViewInvariant.

Section Expiry.

Lemma purge_live locks w :
  Forall (fun l => live (now w) l = true)
         (fst (removeAndDeleteTimedOutLocks locks w)).
Proof.
  unfold removeAndDeleteTimedOutLocks. rewrite loop_result. simpl.
  apply List.Forall_forall. intros x Hx. apply filter_In in Hx. tauto.
Qed.

Lemma Forall_filter_keep {A} (Q : A -> Prop) (p : A -> bool) (l : list A) :
  Forall Q l -> Forall Q (List.filter p l).
Proof.
  rewrite !List.Forall_forall. intros F x Hx. apply filter_In in Hx. apply F. tauto.
Qed.

Lemma purge_reader_keeps (p : Lock.t -> bool) (pick : World -> list Lock.t) n w :
  now w = n ->
  let out := removeAndDeleteTimedOutLocks (pick w) w in
  Forall (fun l => live n l = true /\ p l = true) (List.filter p (fst out))
  /\ now (snd out) = n.
Proof.
  intros Hw. simpl. split.
  - pose proof (purge_live (pick w) w) as L. rewrite Hw in L.
    rewrite List.Forall_forall in *. intros x Hx. apply filter_In in Hx as [Hx Hp].
    split; [apply L, Hx|exact Hp].
  - unfold removeAndDeleteTimedOutLocks. rewrite loop_now. exact Hw.
Qed.

(** What the three readers return: current locks that pass the reader's
    filter. *)
Lemma getLocks_Forall request resource w locks w' :
  getLocks request resource w = Some (locks, w') ->
  Forall (fun l => live (now w) l = true /\ notProvisional l = true)
         (Locks.all locks).
Proof.
  intros H. unfold getLocks in H.
  eapply (getLocksGeneral_Forall _ (fun w0 => now w0 = now w)) in H;
    [exact (proj1 H)| |reflexivity].
  intros r w0 Hw0. unfold getCurrentResourceLocks.
  pose proof (purge_reader_keeps notProvisional (Resource_getLocks r) _ w0 Hw0) as K.
  simpl in K. destruct (removeAndDeleteTimedOutLocks (Resource_getLocks r w0) w0).
  exact K.
Qed.

Lemma getLocksByUser_Forall request resource user w locks w' :
  getLocksByUser request resource user w = Some (locks, w') ->
  Forall (fun l => live (now w) l = true /\ notProvisional l = true)
         (Locks.all locks).
Proof.
  intros H. unfold getLocksByUser in H.
  eapply (getLocksGeneral_Forall _ (fun w0 => now w0 = now w)) in H;
    [exact (proj1 H)| |reflexivity].
  intros r w0 Hw0. unfold getCurrentResourceLocksByUser.
  pose proof (purge_reader_keeps notProvisional (Resource_getLocksByUser r user)
                _ w0 Hw0) as K.
  simpl in K.
  destruct (removeAndDeleteTimedOutLocks (Resource_getLocksByUser r user w0) w0).
  exact K.
Qed.

Lemma getProvisionalLocks_Forall request resource w locks w' :
  getProvisionalLocks request resource w = Some (locks, w') ->
  Forall (fun l => live (now w) l = true /\ Lock.provisional l = true)
         (Locks.all locks).
Proof.
  intros H. unfold getProvisionalLocks in H.
  eapply (getLocksGeneral_Forall _ (fun w0 => now w0 = now w)) in H;
    [exact (proj1 H)| |reflexivity].
  intros r w0 Hw0. unfold getCurrentResourceLocks.
  pose proof (purge_reader_keeps Lock.provisional (Resource_getLocks r) _ w0 Hw0) as K.
  simpl in K. destruct (removeAndDeleteTimedOutLocks (Resource_getLocks r w0) w0).
  exact K.
Qed.

(** The permission code as a function of the current locks. *)
Lemma getLockPermission_code request resource user w :
  WellFormed w ->
  option_map fst (getLockPermission request resource user w)
  = option_map
      (fun chain =>
         permissionOf request (viewOf (currentLocks w) resource chain)
           (viewOf (currentLocksByUser user w) resource chain))
      (ancestors request resource).
Proof.
  intros WF. destruct (ancestors request resource) as [chain|] eqn:C.
  - destruct (getLockPermission_spec request resource user w chain WF C)
      as (w' & -> & _). reflexivity.
  - unfold getLockPermission, getLocks.
    match goal with
    | |- context [getLocksGeneral _ _ ?rd _] =>
        apply (getLocksGeneral_ends request rd resource w) in C
    end.
    rewrite C. reflexivity.
Qed.

Lemma sweep_WellFormed w : WellFormed w -> WellFormed (sweep w).
Proof.
  intros WF r. destruct (WF r) as [F N]. simpl. split.
  - apply Forall_filter_keep, F.
  - apply NoDup_map_filter, N.
Qed.

Lemma sweep_currentLocks w r : currentLocks (sweep w) r = currentLocks w r.
Proof.
  unfold currentLocks. simpl. f_equal. rewrite filter_filter_and.
  apply List.filter_ext. intros x. apply andb_diag.
Qed.

Lemma viewOf_ext locksOf locksOf' resource chain :
  (forall r, locksOf r = locksOf' r) ->
  viewOf locksOf resource chain = viewOf locksOf' resource chain.
Proof.
  intros E. unfold viewOf. rewrite (E resource).
  generalize (Locks.mk (locksOf' resource) (locksOf' resource) [] []).
  generalize true. induction chain as [|p chain IH]; intros b l; simpl;
    [reflexivity|].
  rewrite (E p). apply IH.
Qed.

End Expiry.

(** ** The deletions a view attempts *)

Section Attempts.

Variable w0 : World.
Hypothesis WF : WellFormed w0.

Lemma SweptBy_refl : SweptBy w0 w0 [].
Proof.
  split; [symmetry; apply app_nil_r|]. split; [constructor|]. auto.
Qed.

Lemma SweptBy_delete w attempted lock :
  Purged w0 w -> SweptBy w0 w attempted ->
  In lock (store w0 (Lock.resource lock)) -> expired (now w0) lock = true ->
  SweptBy w0 (snd (Lock_delete lock w)) (attempted ++ [lock]).
Proof.
  intros P (L & E & K) Hin Hexp. split; [|split].
  - rewrite Lock_delete_log, L, app_assoc. reflexivity.
  - apply List.Forall_app. split; [exact E|]. constructor; [exact Hexp|constructor].
  - intros r l Hl He. rewrite Lock_delete_store.
    destruct (K r l Hl He) as [S|A]; [|right; apply in_or_app; auto].
    destruct (negb (deleteFails w lock) && String.eqb r (Lock.resource lock))%bool
      eqn:B; [|left; exact S].
    apply andb_prop in B as [_ B]. apply String.eqb_eq in B. subst r.
    destruct (String.eqb (Lock.token l) (Lock.token lock)) eqn:T.
    + right. apply in_or_app. right. left.
      apply String.eqb_eq in T. destruct (WF (Lock.resource lock)) as [_ N].
      symmetry. eapply NoDup_map_injective_on; eauto.
    + left. unfold removeToken. apply filter_In. rewrite T. auto.
Qed.

Lemma loop_SweptBy locks : forall currentLocks w attempted,
  Purged w0 w -> SweptBy w0 w attempted ->
  Forall (fun l => In l (store w0 (Lock.resource l))) locks ->
  SweptBy w0 (snd (removeAndDeleteTimedOutLocks_loop locks currentLocks w))
    (attempted ++ List.filter (expired (now w0)) locks).
Proof.
  induction locks as [|lock locks IH]; intros acc w att P S F.
  - cbn [List.filter removeAndDeleteTimedOutLocks_loop snd].
    rewrite app_nil_r. exact S.
  - apply List.Forall_cons_iff in F as [Hl F].
    assert (N : now w = now w0) by (destruct P; assumption).
    cbn [removeAndDeleteTimedOutLocks_loop List.filter].
    change (expired (now w0) lock)
      with (Lock.date lock + Lock.timeout lock <=? now w0)%Z.
    rewrite N.
    destruct (Lock.date lock + Lock.timeout lock <=? now w0)%Z eqn:E.
    + destruct (Lock_delete lock w) as [e w1] eqn:D.
      assert (Hw : w1 = snd (Lock_delete lock w)) by (rewrite D; reflexivity).
      replace (att ++ lock :: List.filter (expired (now w0)) locks)
        with ((att ++ [lock]) ++ List.filter (expired (now w0)) locks)
        by (rewrite <- app_assoc; reflexivity).
      apply IH; [| |exact F]; rewrite Hw.
      * apply Purged_delete; assumption.
      * apply SweptBy_delete; assumption.
    + apply IH; assumption.
Qed.

(** One read of the locks of [r] that pass [q], followed by the sweep. *)
Lemma purge_SweptBy (q : Lock.t -> bool) r w attempted :
  Purged w0 w -> SweptBy w0 w attempted ->
  let out := removeAndDeleteTimedOutLocks (List.filter q (store w r)) w in
  exists more,
    Purged w0 (snd out)
    /\ SweptBy w0 (snd out) (attempted ++ more)
    /\ forall l, In l (store w0 r) -> expired (now w0) l = true ->
                 q l = true -> In l (attempted ++ more).
Proof.
  intros P S. cbv zeta. unfold removeAndDeleteTimedOutLocks.
  exists (List.filter (expired (now w0)) (List.filter q (store w r))).
  pose proof (stored_under_own_resource w0 w r q WF P) as Own.
  split; [apply loop_Purged; assumption|].
  split; [apply loop_SweptBy; assumption|].
  intros l Hl He Hq. destruct S as (_ & _ & K).
  apply in_or_app. destruct (K r l Hl He) as [I|I]; [right|left; exact I].
  apply filter_In. split; [|exact He]. apply filter_In. auto.
Qed.

Variable request : Request.
Variable reader : LockReader.
Variable q : Lock.t -> bool.
Hypothesis reader_sweeps :
  forall r w attempted,
    Purged w0 w -> SweptBy w0 w attempted ->
    exists more,
      Purged w0 (snd (reader r w))
      /\ SweptBy w0 (snd (reader r w)) (attempted ++ more)
      /\ forall l, In l (store w0 r) -> expired (now w0) l = true ->
                   q l = true -> In l (attempted ++ more).

Lemma walkParents_attempts fuel :
  forall parent first locks w attempted locks' w',
    Purged w0 w -> SweptBy w0 w attempted ->
    walkParents fuel request reader parent first locks w = Some (locks', w') ->
    exists chain more,
      parentChain fuel request parent = Some chain
      /\ SweptBy w0 w' (attempted ++ more)
      /\ forall r l, In r chain -> In l (store w0 r) ->
                     expired (now w0) l = true -> q l = true ->
                     In l (attempted ++ more).
Proof.
  induction fuel as [|fuel IH]; intros [parent|] first locks w att locks' w' P S H;
    simpl in H |- *; try discriminate.
  - injection H as <- <-. exists [], []. rewrite app_nil_r.
    split; [reflexivity|]. split; [exact S|]. intros r l [].
  - destruct (reader_sweeps parent w att P S) as (more & P1 & S1 & D1).
    destruct (reader parent w) as [pl w1]. cbn [snd] in P1, S1.
    destruct (IH _ _ _ _ _ _ _ P1 S1 H) as (chain & more' & C & S2 & D2).
    exists (parent :: chain), (more ++ more'). rewrite C.
    split; [reflexivity|]. rewrite app_assoc. split; [exact S2|].
    intros r l [<-|Hr] Hl He Hq; [|eapply D2; eauto].
    apply in_or_app. left. apply D1; assumption.
  - injection H as <- <-. exists [], []. rewrite app_nil_r.
    split; [reflexivity|]. split; [exact S|]. intros r l [].
Qed.

Lemma getLocksGeneral_attempts resource locks w' :
  getLocksGeneral request resource reader w0 = Some (locks, w') ->
  exists chain attempted,
    ancestors request resource = Some chain
    /\ deleteLog w' = deleteLog w0 ++ attempted
    /\ Forall (fun l => expired (now w0) l = true) attempted
    /\ forall r l, In r (resource :: chain) -> In l (store w0 r) ->
                   expired (now w0) l = true -> q l = true ->
                   In l attempted.
Proof.
  unfold getLocksGeneral, ancestors. intros H.
  destruct (reader_sweeps resource w0 [] (Purged_refl w0) SweptBy_refl)
    as (more & P1 & S1 & D1).
  destruct (reader resource w0) as [rl w1]. cbn [snd app] in P1, S1, D1.
  destruct (walkParents_attempts _ _ _ _ _ _ _ _ P1 S1 H)
    as (chain & more' & C & (L & E & _) & D2).
  exists chain, (more ++ more'). split; [exact C|]. split; [exact L|].
  split; [exact E|].
  intros r l [<-|Hr] Hl He Hq; [|eapply D2; eauto].
  apply in_or_app. left. apply D1; assumption.
Qed.

End Attempts.

(** The three readers. *)
Lemma getLocks_attempts request resource w locks w' :
  WellFormed w ->
  getLocks request resource w = Some (locks, w') ->
  exists chain attempted,
    ancestors request resource = Some chain
    /\ deleteLog w' = deleteLog w ++ attempted
    /\ Forall (fun l => expired (now w) l = true) attempted
    /\ forall r l, In r (resource :: chain) -> In l (store w r) ->
                   expired (now w) l = true -> In l attempted.
Proof.
  intros WF H. unfold getLocks in H.
  eapply (getLocksGeneral_attempts w request _ (fun _ => true)) in H.
  - destruct H as (chain & att & C & L & E & D). exists chain, att.
    repeat split; try assumption. intros r l Hr Hl He. eapply D; eauto.
  - intros r w1 att P S. unfold getCurrentResourceLocks, Resource_getLocks.
    pose proof (purge_SweptBy w WF (fun _ => true) r w1 att P S) as K.
    cbv zeta in K. rewrite filter_all_true in K by reflexivity.
    destruct (removeAndDeleteTimedOutLocks (store w1 r) w1). exact K.
Qed.

Lemma getProvisionalLocks_attempts request resource w locks w' :
  WellFormed w ->
  getProvisionalLocks request resource w = Some (locks, w') ->
  exists chain attempted,
    ancestors request resource = Some chain
    /\ deleteLog w' = deleteLog w ++ attempted
    /\ Forall (fun l => expired (now w) l = true) attempted
    /\ forall r l, In r (resource :: chain) -> In l (store w r) ->
                   expired (now w) l = true -> In l attempted.
Proof.
  intros WF H. unfold getProvisionalLocks in H.
  eapply (getLocksGeneral_attempts w request _ (fun _ => true)) in H.
  - destruct H as (chain & att & C & L & E & D). exists chain, att.
    repeat split; try assumption. intros r l Hr Hl He. eapply D; eauto.
  - intros r w1 att P S. unfold getCurrentResourceLocks, Resource_getLocks.
    pose proof (purge_SweptBy w WF (fun _ => true) r w1 att P S) as K.
    cbv zeta in K. rewrite filter_all_true in K by reflexivity.
    destruct (removeAndDeleteTimedOutLocks (store w1 r) w1). exact K.
Qed.

Lemma getLocksByUser_attempts request resource user w locks w' :
  WellFormed w ->
  getLocksByUser request resource user w = Some (locks, w') ->
  exists chain attempted,
    ancestors request resource = Some chain
    /\ deleteLog w' = deleteLog w ++ attempted
    /\ Forall (fun l => expired (now w) l = true) attempted
    /\ forall r l, In r (resource :: chain) -> In l (store w r) ->
                   expired (now w) l = true ->
                   sameUser (Lock.user l) user = true -> In l attempted.
Proof.
  intros WF H. unfold getLocksByUser in H.
  eapply (getLocksGeneral_attempts w request _
            (fun l => sameUser (Lock.user l) user)) in H; [exact H|].
  intros r w1 att P S.
  unfold getCurrentResourceLocksByUser, Resource_getLocksByUser.
  pose proof (purge_SweptBy w WF (fun l => sameUser (Lock.user l) user)
                r w1 att P S) as K.
  cbv zeta in K.
  destruct (removeAndDeleteTimedOutLocks _ w1). exact K.
Qed.

(** Without any assumption on the store: the first deletions a view
    attempts are those of the expired locks it reads of the resource
    itself, and whatever it attempts is an expired lock. *)
Lemma getLocksGeneral_first_attempts request resource
    (pick : Resource -> World -> list Lock.t) (p : Lock.t -> bool) w locks w' :
  getLocksGeneral request resource
    (fun resource w =>
       let '(locks, w) := removeAndDeleteTimedOutLocks (pick resource w) w in
       (List.filter p locks, w)) w = Some (locks, w') ->
  exists rest,
    deleteLog w'
    = deleteLog w ++ List.filter (expired (now w)) (pick resource w) ++ rest
    /\ Forall (fun l => expired (now w) l = true) rest.
Proof.
  set (L := deleteLog w ++ List.filter (expired (now w)) (pick resource w)).
  set (I := fun w1 : World =>
              now w1 = now w
              /\ exists rest, deleteLog w1 = L ++ rest
                              /\ Forall (fun l => expired (now w) l = true) rest).
  assert (K : forall r w1, I w1 ->
            I (snd (removeAndDeleteTimedOutLocks (pick r w1) w1))).
  { intros r w1 (N & rest & E & F). unfold removeAndDeleteTimedOutLocks.
    split; [rewrite loop_now; exact N|].
    exists (rest ++ List.filter (expired (now w)) (pick r w1)).
    rewrite loop_log, E, N, app_assoc. split; [reflexivity|].
    apply List.Forall_app. split; [exact F|].
    apply List.Forall_forall. intros x Hx. apply filter_In in Hx. tauto. }
  unfold getLocksGeneral. intros H.
  assert (I1 : I (snd (removeAndDeleteTimedOutLocks (pick resource w) w))).
  { unfold removeAndDeleteTimedOutLocks. split; [apply loop_now|].
    exists []. rewrite loop_log, app_nil_r. split; [reflexivity|constructor]. }
  destruct (removeAndDeleteTimedOutLocks (pick resource w) w) as [rl w1].
  cbn [snd] in I1.
  eapply (walkParents_Forall (fun _ => True) I) in H;
    [| |exact I1|apply List.Forall_forall; auto].
  - destruct H as (_ & _ & rest & E & F). exists rest.
    rewrite E. unfold L. rewrite <- app_assoc. auto.
  - intros r w2 Hw2. pose proof (K r w2 Hw2) as K2.
    destruct (removeAndDeleteTimedOutLocks (pick r w2) w2). cbn [fst snd] in *.
    split; [apply List.Forall_forall; auto|exact K2].
Qed.

(** ** The walk up the parents ends, or never does *)

Section Fuel.

Lemma length_append (a b : string) :
  String.length (a ++ b) = String.length a + String.length b.
Proof. induction a as [|c a IH]; simpl; [reflexivity|]. rewrite IH. reflexivity. Qed.

Lemma replaceEndSlash_slash_ends s : endsWithSlash (JS.replaceEndSlash "/" s) = true.
Proof.
  induction s as [|c s IH]; simpl; [reflexivity|].
  destruct (Ascii.eqb c "/" && String.eqb s EmptyString)%bool eqn:E;
    [reflexivity|]. simpl.
  destruct (String.eqb (JS.replaceEndSlash "/" s) EmptyString) eqn:E'; [|exact IH].
  apply String.eqb_eq in E'. rewrite E' in IH. discriminate.
Qed.

Lemma replaceEndSlash_length r s :
  String.length (JS.replaceEndSlash r s) <= String.length s + String.length r.
Proof.
  induction s as [|c s IH]; simpl; [lia|].
  destruct (Ascii.eqb c "/" && String.eqb s EmptyString)%bool; simpl; lia.
Qed.

Lemma replaceEndSlash_strip s :
  endsWithSlash s = true ->
  S (String.length (JS.replaceEndSlash "" s)) = String.length s.
Proof.
  induction s as [|c s IH]; simpl; [discriminate|].
  destruct (String.eqb s EmptyString) eqn:E.
  - apply String.eqb_eq in E. subst s. intros ->. reflexivity.
  - rewrite andb_false_r. simpl. intros H. rewrite (IH H). reflexivity.
Qed.

Lemma split_not_nil sep s : JS.split sep s <> [].
Proof.
  destruct s as [|c s]; simpl; [discriminate|].
  destruct (Ascii.eqb c sep); [discriminate|].
  destruct (JS.split sep s); discriminate.
Qed.

Lemma join_cons sep x y l :
  JS.join sep (x :: y :: l) = (x ++ sep ++ JS.join sep (y :: l))%string.
Proof. reflexivity. Qed.

Lemma join_String c x l :
  JS.join "/" (String c x :: l) = String c (JS.join "/" (x :: l)).
Proof. destruct l; reflexivity. Qed.

Lemma join_split_length s :
  String.length (JS.join "/" (JS.split "/" s)) = String.length s.
Proof.
  induction s as [|c s IH]; [reflexivity|].
  pose proof (split_not_nil "/" s) as N.
  change (JS.split "/" (String c s))
    with (if Ascii.eqb c "/" then EmptyString :: JS.split "/" s
          else match JS.split "/" s with
               | x :: xs => String c x :: xs
               | [] => [String c EmptyString]
               end).
  destruct (JS.split "/" s) as [|y l]; [congruence|].
  destruct (Ascii.eqb c "/").
  - rewrite join_cons, !length_append, IH. reflexivity.
  - rewrite join_String. cbn [String.length]. rewrite IH. reflexivity.
Qed.

Lemma join_removelast_length x l :
  String.length (JS.join "/" (removelast (x :: l)))
  + (match l with [] => 0 | _ => 1 end)
  <= String.length (JS.join "/" (x :: l)).
Proof.
  revert x. induction l as [|y l IH]; intros x.
  - simpl. lia.
  - specialize (IH y). rewrite join_cons, !length_append.
    change (removelast (x :: y :: l)) with (x :: removelast (y :: l)).
    destruct l as [|z l].
    + simpl. lia.
    + change (removelast (y :: z :: l)) with (y :: removelast (z :: l)) in *.
      rewrite join_cons, !length_append. simpl String.length in *. lia.
Qed.

Lemma parentPath_ends p : endsWithSlash (parentPath p) = true.
Proof. apply replaceEndSlash_slash_ends. Qed.

(** A parent path is no longer than the path without its final slash, the
    root path [/] apart. *)
Lemma parentPath_length p :
  String.length (parentPath p)
  <= Nat.max 1 (String.length (JS.replaceEndSlash "" p)).
Proof.
  unfold parentPath, JS.slice_0_m1.
  pose proof (join_split_length (JS.replaceEndSlash "" p)) as J.
  pose proof (split_not_nil "/" (JS.replaceEndSlash "" p)) as N.
  destruct (JS.split "/" (JS.replaceEndSlash "" p)) as [|x l]; [congruence|].
  pose proof (join_removelast_length x l) as R.
  pose proof (replaceEndSlash_length "/" (JS.join "/" (removelast (x :: l)))) as E.
  change (String.length "/") with 1 in E.
  destruct l as [|y l]; cbv beta iota in R.
  - simpl. lia.
  - lia.
Qed.

Lemma endsWithSlash_length s :
  endsWithSlash s = true -> s <> "/" -> 2 <= String.length s.
Proof.
  destruct s as [|c [|d s]]; simpl; try discriminate; [|intros; lia].
  intros H N. exfalso. apply N. f_equal. apply Ascii.eqb_eq, H.
Qed.

Lemma parentPath_shorter q :
  endsWithSlash q = true -> q <> "/" ->
  String.length (parentPath q) < String.length q.
Proof.
  intros E N. pose proof (parentPath_length q) as L.
  pose proof (replaceEndSlash_strip q E) as S.
  pose proof (endsWithSlash_length q E N). lia.
Qed.

Lemma getParentResource_parentPath request resource :
  getParentResource request resource
  = if String.eqb (parentPath resource) (JS.replaceEndSlash "/" (baseUrl request))
    then None else Some (parentPath resource).
Proof. reflexivity. Qed.

Variable request : Request.

Lemma parentChain_done fuel : parentChain fuel request None = Some [].
Proof. destruct fuel; reflexivity. Qed.

Lemma parentChain_more fuel : forall parent chain,
  parentChain fuel request parent = Some chain ->
  forall fuel', fuel <= fuel' -> parentChain fuel' request parent = Some chain.
Proof.
  induction fuel as [|fuel IH]; intros [p|] chain H fuel' L; simpl in H;
    try discriminate.
  - destruct fuel'; exact H.
  - destruct fuel' as [|fuel']; [lia|]. simpl.
    destruct (parentChain fuel request (getParentResource request p)) as [c|] eqn:C;
      [|discriminate].
    rewrite (IH _ _ C fuel') by lia. exact H.
  - destruct fuel'; exact H.
Qed.

(** From the root path the loop goes round for ever unless the root path is
    the base. *)
Lemma parentChain_root_loops :
  getParentResource request "/" = Some "/" ->
  forall fuel, parentChain fuel request (Some "/") = None.
Proof.
  intros H. induction fuel as [|fuel IH]; simpl; [reflexivity|].
  rewrite H, IH. reflexivity.
Qed.

Lemma parentChain_bound n : forall q,
  endsWithSlash q = true -> String.length q <= n ->
  parentChain n request (Some q) = None ->
  forall fuel, parentChain fuel request (Some q) = None.
Proof.
  induction n as [|n IH]; intros q E L H fuel.
  - destruct q; simpl in *; [discriminate|lia].
  - simpl in H. rewrite getParentResource_parentPath in H.
    destruct (String.eqb (parentPath q) (JS.replaceEndSlash "/" (baseUrl request)))
      eqn:B; [rewrite parentChain_done in H; discriminate|].
    destruct (string_dec q "/") as [->|N].
    + apply parentChain_root_loops. rewrite getParentResource_parentPath, B.
      reflexivity.
    + destruct (parentChain n request (Some (parentPath q))) eqn:C; [discriminate|].
      pose proof (parentPath_shorter q E N) as S.
      assert (K : forall fuel, parentChain fuel request (Some (parentPath q)) = None)
        by (apply IH; [apply parentPath_ends|lia|exact C]).
      destruct fuel as [|fuel]; [reflexivity|]. simpl.
      rewrite getParentResource_parentPath, B, K. reflexivity.
Qed.

(** The fuel of [getLocksGeneral] is enough: when the walk has not ended
    within [walkFuel] iterations, no number of iterations ends it. *)
Theorem ancestors_fuel_enough resource :
  ancestors request resource = None ->
  forall fuel,
    parentChain fuel request (getParentResource request resource) = None.
Proof.
  unfold ancestors, walkFuel. intros H fuel.
  rewrite getParentResource_parentPath in *.
  destruct (String.eqb (parentPath resource)
              (JS.replaceEndSlash "/" (baseUrl request)));
    [rewrite parentChain_done in H; discriminate|].
  eapply parentChain_bound; [apply parentPath_ends| |exact H].
  pose proof (parentPath_length resource).
  pose proof (replaceEndSlash_length "" resource). simpl in *. lia.
Qed.

Theorem walkParents_fuel_enough (reader : LockReader) resource first locks w :
  walkParents (walkFuel resource) request reader
    (getParentResource request resource) first locks w = None ->
  forall fuel,
    walkParents fuel request reader (getParentResource request resource)
      first locks w = None.
Proof.
  intros H fuel. apply walkParents_ends. apply ancestors_fuel_enough.
  unfold ancestors. eapply walkParents_ends. exact H.
Qed.

Lemma parentChain_root_mounted n : forall q,
  JS.replaceEndSlash "/" (baseUrl request) = "/" ->
  endsWithSlash q = true -> String.length q <= n ->
  exists chain, parentChain n request (Some q) = Some chain.
Proof.
  induction n as [|n IH]; intros q B E L.
  - destruct q; simpl in *; [discriminate|lia].
  - simpl. rewrite getParentResource_parentPath, B.
    destruct (String.eqb (parentPath q) "/") eqn:P;
      [rewrite parentChain_done; simpl; eauto|].
    destruct (string_dec q "/") as [->|N]; [vm_compute in P; discriminate|].
    pose proof (parentPath_shorter q E N) as S.
    destruct (IH (parentPath q) B (parentPath_ends q)) as (chain & ->); [lia|].
    simpl. eauto.
Qed.

(** On a server mounted at the root the walk ends for every resource. *)
Theorem ancestors_root_mounted resource :
  JS.replaceEndSlash "/" (baseUrl request) = "/" ->
  exists chain, ancestors request resource = Some chain.
Proof.
  intros B. unfold ancestors, walkFuel.
  rewrite getParentResource_parentPath, B.
  destruct (String.eqb (parentPath resource) "/");
    [rewrite parentChain_done; eauto|].
  apply parentChain_root_mounted; [exact B|apply parentPath_ends|].
  pose proof (parentPath_length resource).
  pose proof (replaceEndSlash_length "" resource). simpl in *. lia.
Qed.

End Fuel.

(** ** The parents the walk visits: the root collection is left out *)

(** C5 at a failing input.  On a server mounted at the root, the root
    collection [/] carries a current, non-provisional depth-infinity lock
    and a depth-0 lock.  [/a] is a member of the root collection and not the
    root, yet [getParentResource] gives [undefined] for it, the walk visits
    no parent, and every view of [/a] is empty: the root's depth-infinity
    lock is missing from [depthInfinity], its depth-0 lock from [depthZero],
    and a PUT to [/a] by another user gets permission 2.  On a server
    mounted at [/dav], the root [/dav/] itself is given the parent [/]. *)
Theorem C5_root_collection_locks_not_inherited :
  store Sample.worldRootLocked "/"
  = [Sample.lockRootInfinity; Sample.lockRootZero]
  /\ currentLocks Sample.worldRootLocked "/"
     = [Sample.lockRootInfinity; Sample.lockRootZero]
  /\ getParentResource Sample.put "/a" = None
  /\ getParentResource Sample.put "/a/b" = Some "/a/"
  /\ getParentResource Sample.put "/a/" = None
  /\ getParentResource (mkRequest "PUT" "/dav" []) "/dav/" = Some "/"
  /\ getParentResource (mkRequest "PUT" "/dav" []) "/dav/a" = None
  /\ getLocks Sample.put "/a" Sample.worldRootLocked
     = Some (Locks.mk [] [] [] [], Sample.worldRootLocked)
  /\ getLocks Sample.put "/a/b" Sample.worldRootLocked
     = Some (Locks.mk [] [] [] [], Sample.worldRootLocked)
  /\ getLockPermission Sample.put "/a" Sample.bob Sample.worldRootLocked
     = Some (2, Sample.worldRootLocked).
Proof. repeat split; vm_compute; reflexivity. Qed.

Lemma replaceEndSlash_noSlash r s :
  noSlash s = true -> JS.replaceEndSlash r s = (s ++ r)%string.
Proof.
  induction s as [|c s IH]; simpl; [reflexivity|]. intros H.
  apply andb_prop in H as [C H]. apply negb_true_iff in C. rewrite C. simpl.
  rewrite (IH H). reflexivity.
Qed.

Lemma split_noSlash s : noSlash s = true -> JS.split "/" s = [s].
Proof.
  induction s as [|c s IH]; simpl; [reflexivity|]. intros H.
  apply andb_prop in H as [C H]. apply negb_true_iff in C. rewrite C.
  rewrite (IH H). reflexivity.
Qed.

Lemma append_empty s : (s ++ "")%string = s.
Proof.
  induction s as [|c s IH]; [reflexivity|].
  change (String c (s ++ "")%string = String c s). f_equal. exact IH.
Qed.

(** The defect at large: on a server mounted at the root no member of the
    root collection has a parent. *)
Theorem root_members_have_no_parent request name :
  JS.replaceEndSlash "/" (baseUrl request) = "/" ->
  noSlash name = true ->
  getParentResource request (String "/" name) = None.
Proof.
  intros B N. unfold getParentResource. rewrite B.
  destruct name as [|c name]; [reflexivity|].
  change (JS.replaceEndSlash "" (String "/" (String c name)))
    with (String "/" (JS.replaceEndSlash "" (String c name))).
  rewrite (replaceEndSlash_noSlash "" _ N), append_empty.
  change (JS.split "/" (String "/" (String c name)))
    with (EmptyString :: JS.split "/" (String c name)).
  rewrite (split_noSlash _ N). reflexivity.
Qed.

(** So the views of such a member hold none of the root collection's
    locks, whatever the store. *)
Theorem root_collection_locks_reach_no_member request name w :
  JS.replaceEndSlash "/" (baseUrl request) = "/" ->
  noSlash name = true ->
  exists locks w1,
    getLocks request (String "/" name) w = Some (locks, w1)
    /\ Locks.depthZero locks = [] /\ Locks.depthInfinity locks = []
    /\ Locks.all locks = Locks.resource locks.
Proof.
  intros B N. unfold getLocks, getLocksGeneral.
  rewrite (root_members_have_no_parent request name B N).
  destruct (getCurrentResourceLocks (String "/" name) w) as [locks w1].
  simpl. eauto 10.
Qed.

(** ** The views of a well-formed store, in closed form *)

Section ClosedForm.

Variable request : Request.

Lemma parentChain_lengths n : forall q chain,
  endsWithSlash q = true ->
  parentChain n request (Some q) = Some chain ->
  Forall (fun p => String.length p <= String.length q /\ endsWithSlash p = true)
         chain.
Proof.
  induction n as [|n IH]; intros q chain E H; simpl in H; [discriminate|].
  rewrite getParentResource_parentPath in H.
  destruct (String.eqb (parentPath q) (JS.replaceEndSlash "/" (baseUrl request))).
  - rewrite parentChain_done in H. injection H as <-.
    constructor; [split; [lia|exact E]|constructor].
  - destruct (parentChain n request (Some (parentPath q))) as [c|] eqn:C;
      [|discriminate].
    injection H as <-. constructor; [split; [lia|exact E]|].
    apply IH in C; [|apply parentPath_ends].
    eapply List.Forall_impl; [|exact C]. intros p [L Ep]. split; [|exact Ep].
    pose proof (parentPath_length q). pose proof (replaceEndSlash_strip q E). lia.
Qed.

(** No parent visited is the resource itself. *)
Lemma ancestors_proper resource chain :
  ancestors request resource = Some chain ->
  Forall (fun p => p <> resource) chain.
Proof.
  unfold ancestors. rewrite getParentResource_parentPath.
  destruct (String.eqb (parentPath resource)
              (JS.replaceEndSlash "/" (baseUrl request))) eqn:B.
  - rewrite parentChain_done. intros H. injection H as <-. constructor.
  - intros H. pose proof (parentChain_lengths _ _ _ (parentPath_ends resource) H) as F.
    eapply List.Forall_impl; [|exact F]. intros p [L E] ->.
    destruct (string_dec resource "/") as [->|N].
    + pose proof (parentChain_root_loops request) as R.
      rewrite getParentResource_parentPath, B in R.
      change (parentPath "/") with "/" in H.
      rewrite (R eq_refl) in H. discriminate.
    + pose proof (parentPath_shorter resource E N). lia.
Qed.

Lemma parentChain_head n q chain :
  parentChain n request (Some q) = Some chain -> exists rest, chain = q :: rest.
Proof.
  destruct n as [|n]; simpl; [discriminate|].
  destruct (parentChain n request (getParentResource request q)) as [c|]; simpl;
    intros H; [|discriminate].
  injection H as <-. eauto.
Qed.

Lemma ancestors_head resource :
  match ancestors request resource with
  | Some (p :: _) => getParentResource request resource = Some p
  | Some [] => getParentResource request resource = None
  | None => True
  end.
Proof.
  unfold ancestors.
  destruct (getParentResource request resource) as [q|];
    [|rewrite parentChain_done; reflexivity].
  destruct (parentChain (walkFuel resource) request (Some q)) as [chain|] eqn:C;
    [|exact Logic.I].
  apply parentChain_head in C as (rest & ->). reflexivity.
Qed.

Lemma currentLocks_stored w r l :
  WellFormed w -> In l (currentLocks w r) ->
  In l (store w r) /\ Lock.resource l = r
  /\ live (now w) l = true /\ Lock.provisional l = false.
Proof.
  intros WF H. unfold currentLocks in H.
  apply filter_In in H as [H NP]. apply filter_In in H as [H L].
  destruct (WF r) as [F _]. rewrite List.Forall_forall in F.
  unfold notProvisional in NP. apply negb_true_iff in NP. auto.
Qed.

Lemma inheritedInfinity_In locksOf chain l :
  In l (inheritedInfinity locksOf chain)
  <-> exists p, In p chain /\ In l (locksOf p) /\ Lock.depth l = depth_infinity.
Proof.
  unfold inheritedInfinity. rewrite in_flat_map. split.
  - intros (p & Hp & H). apply filter_In in H as [H D]. exists p.
    repeat split; try assumption. unfold hasDepth in D.
    destruct (Lock.depth l); [discriminate|reflexivity].
  - intros (p & Hp & H & D). exists p. split; [exact Hp|]. apply filter_In.
    split; [exact H|]. unfold hasDepth. rewrite D. reflexivity.
Qed.

(** X11.  What [getLocks] returns on a well-formed store, for a walk that
    ends: [resource] is the current, non-provisional locks of the resource;
    [depthZero] the depth-0 ones of the parent [getParentResource] gives, if
    any; [depthInfinity] the depth-infinity ones of every parent the walk
    visits; [all] is made of these three, and no lock is in two of them. *)
Theorem getLocks_closed_form resource w locks w1 :
  WellFormed w ->
  getLocks request resource w = Some (locks, w1) ->
  exists chain,
    ancestors request resource = Some chain
    /\ Locks.resource locks = currentLocks w resource
    /\ Locks.depthZero locks
       = match getParentResource request resource with
         | Some parent => List.filter (hasDepth depth_0) (currentLocks w parent)
         | None => []
         end
    /\ (forall l, In l (Locks.depthInfinity locks)
                  <-> exists p, In p chain /\ In l (currentLocks w p)
                                /\ Lock.depth l = depth_infinity)
    /\ Permutation (Locks.all locks)
         (Locks.resource locks ++ Locks.depthZero locks
          ++ Locks.depthInfinity locks)
    /\ (forall l, In l (Locks.resource locks) ->
                  ~ In l (Locks.depthZero locks)
                  /\ ~ In l (Locks.depthInfinity locks))
    /\ (forall l, In l (Locks.depthZero locks) ->
                  ~ In l (Locks.depthInfinity locks)).
Proof.
  intros WF H. destruct (getLocks_ancestors _ _ _ _ _ H) as (chain & C).
  destruct (getLocks_view request resource w chain WF C) as (w' & H' & _).
  rewrite H in H'. injection H' as -> _. exists chain.
  destruct (viewOf_shape (currentLocks w) resource chain) as (R & Z & I & A).
  pose proof (ancestors_proper resource chain C) as NP.
  rewrite List.Forall_forall in NP.
  split; [exact C|]. split; [exact R|]. split.
  { rewrite Z. pose proof (ancestors_head resource) as AH. rewrite C in AH.
    destruct chain as [|p rest]; rewrite AH; reflexivity. }
  split; [intros l; rewrite I; apply inheritedInfinity_In|].
  split; [apply viewOf_all_Permutation|].
  split.
  - intros l Hl. rewrite R in Hl.
    apply (currentLocks_stored w resource l WF) in Hl as (_ & Rl & _).
    split.
    + rewrite Z. destruct chain as [|p rest]; [tauto|]. intros Hz.
      apply filter_In in Hz as [Hz _].
      apply (currentLocks_stored w p l WF) in Hz as (_ & Rp & _).
      apply (NP p); [left; reflexivity|congruence].
    + rewrite I, inheritedInfinity_In. intros (p & Hp & Hi & _).
      apply (currentLocks_stored w p l WF) in Hi as (_ & Rp & _).
      apply (NP p Hp). congruence.
  - intros l Hz. rewrite Z in Hz. rewrite I, inheritedInfinity_In.
    intros (p & _ & _ & D). destruct chain as [|q rest]; [contradiction|].
    apply filter_In in Hz as [_ Hz]. unfold hasDepth in Hz. rewrite D in Hz.
    discriminate.
Qed.

End ClosedForm.

(** ** When the decision is returned *)

(** [getLockPermission] returns a code exactly when the walk up the parents
    ends. *)
Theorem getLockPermission_returns request resource user w :
  (exists code w', getLockPermission request resource user w = Some (code, w'))
  <-> exists chain, ancestors request resource = Some chain.
Proof.
  split.
  - intros (code & w' & H). unfold getLockPermission in H.
    destruct (getLocks request resource w) as [[locks w1]|] eqn:E;
      [|discriminate].
    eapply getLocks_ancestors, E.
  - intros (chain & C).
    destruct (getLocks request resource w) as [[locks w1]|] eqn:E.
    + destruct (getLocksByUser_ends request resource user w locks w1 E)
        as (userLocks & w2 & E2).
      rewrite (getLockPermission_unfold _ _ _ _ _ _ _ _ E E2). eauto.
    + unfold getLocks in E. apply getLocksGeneral_ends in E. congruence.
Qed.

(** On a server mounted at the root the walk along the parent paths always
    ends, so the embedded method returns a code.  The embedding takes the
    parent path for the parent's canonical path; what [new URL] and
    [adapter.getResource] make of a path is not part of it. *)
Theorem getLockPermission_total_root_mounted request resource user w :
  JS.replaceEndSlash "/" (baseUrl request) = "/" ->
  exists code w', getLockPermission request resource user w = Some (code, w').
Proof.
  intros B. apply getLockPermission_returns.
  apply ancestors_root_mounted, B.
Qed.

(** ** Claims on expiry and on provisional locks *)

Lemma live_not_expired n l : live n l = true <-> expired n l = false.
Proof. unfold live. apply negb_true_iff. Qed.

(** C4.  With [now] the clock reading, [getCurrentResourceLocks] returns
    the stored locks with [date + timeout > now] and no lock with
    [date + timeout <= now]; it attempts to delete each expired lock, in
    order, whether or not the deletion throws, and a deletion that does not
    throw removes the lock from the store; [getCurrentResourceLocksByUser]
    does the same with the locks of one user.  The views of [getLocks],
    [getLocksByUser] and [getProvisionalLocks] hold no expired lock, and
    each of the three first attempts to delete the expired locks it reads
    of the resource itself, then only expired locks.  On a well-formed
    store the three attempt to delete every expired lock they read, of the
    resource and of each parent the walk visits ([getLocksByUser]: those of
    the user); [getLockPermission] returns the code it returns once every
    expired lock has been swept from the store, and it does return one
    whenever the walk up the parents ends. *)
Theorem C4_expired_locks_are_purged resource w :
  let out := getCurrentResourceLocks resource w in
  fst out = List.filter (live (now w)) (store w resource)
  /\ Forall (fun l => expired (now w) l = false) (fst out)
  /\ deleteLog (snd out)
     = deleteLog w ++ List.filter (expired (now w)) (store w resource)
  /\ (forall l, In l (store w resource) -> expired (now w) l = true ->
                deleteFails w l = false ->
                ~ In l (store (snd out) (Lock.resource l)))
  /\ (forall user,
        let out' := getCurrentResourceLocksByUser resource user w in
        fst out'
        = List.filter (live (now w)) (Resource_getLocksByUser resource user w)
        /\ deleteLog (snd out')
           = deleteLog w
             ++ List.filter (expired (now w))
                  (Resource_getLocksByUser resource user w))
  /\ (forall request locks w',
        getLocks request resource w = Some (locks, w') ->
        Forall (fun l => expired (now w) l = false) (Locks.all locks)
        /\ exists rest,
             deleteLog w'
             = deleteLog w
               ++ List.filter (expired (now w)) (store w resource) ++ rest
             /\ Forall (fun l => expired (now w) l = true) rest)
  /\ (forall request user locks w',
        getLocksByUser request resource user w = Some (locks, w') ->
        Forall (fun l => expired (now w) l = false) (Locks.all locks)
        /\ exists rest,
             deleteLog w'
             = deleteLog w
               ++ List.filter (expired (now w))
                    (Resource_getLocksByUser resource user w) ++ rest
             /\ Forall (fun l => expired (now w) l = true) rest)
  /\ (forall request locks w',
        getProvisionalLocks request resource w = Some (locks, w') ->
        Forall (fun l => expired (now w) l = false) (Locks.all locks)
        /\ exists rest,
             deleteLog w'
             = deleteLog w
               ++ List.filter (expired (now w)) (store w resource) ++ rest
             /\ Forall (fun l => expired (now w) l = true) rest)
  /\ (WellFormed w ->
      forall request user,
        option_map fst (getLockPermission request resource user w)
        = option_map fst (getLockPermission request resource user (sweep w))
        /\ ((exists chain, ancestors request resource = Some chain) ->
            exists code w',
              getLockPermission request resource user w = Some (code, w'))
        /\ (forall locks w',
              getLocks request resource w = Some (locks, w') ->
              exists chain attempted,
                ancestors request resource = Some chain
                /\ deleteLog w' = deleteLog w ++ attempted
                /\ forall r l,
                     In r (resource :: chain) -> In l (store w r) ->
                     expired (now w) l = true -> In l attempted)
        /\ (forall locks w',
              getLocksByUser request resource user w = Some (locks, w') ->
              exists chain attempted,
                ancestors request resource = Some chain
                /\ deleteLog w' = deleteLog w ++ attempted
                /\ forall r l,
                     In r (resource :: chain) -> In l (store w r) ->
                     expired (now w) l = true ->
                     sameUser (Lock.user l) user = true -> In l attempted)
        /\ (forall locks w',
              getProvisionalLocks request resource w = Some (locks, w') ->
              exists chain attempted,
                ancestors request resource = Some chain
                /\ deleteLog w' = deleteLog w ++ attempted
                /\ forall r l,
                     In r (resource :: chain) -> In l (store w r) ->
                     expired (now w) l = true -> In l attempted)).
Proof.
  simpl. unfold getCurrentResourceLocks, removeAndDeleteTimedOutLocks,
    Resource_getLocks.
  split; [apply loop_result|].
  split.
  { rewrite loop_result. simpl. apply List.Forall_forall. intros x Hx.
    apply filter_In in Hx as [_ Hx]. apply live_not_expired, Hx. }
  split; [apply loop_log|].
  split; [intros l Hin He Hf; apply loop_deleted; assumption|].
  split.
  { intros user. unfold getCurrentResourceLocksByUser,
      removeAndDeleteTimedOutLocks. split; [apply loop_result|apply loop_log]. }
  split.
  { intros request locks w' H. split.
    - apply getLocks_Forall in H.
      eapply List.Forall_impl; [|exact H]. intros l [L _].
      apply live_not_expired, L.
    - exact (getLocksGeneral_first_attempts request resource Resource_getLocks
               notProvisional w locks w' H). }
  split.
  { intros request user locks w' H. split.
    - apply getLocksByUser_Forall in H.
      eapply List.Forall_impl; [|exact H]. intros l [L _].
      apply live_not_expired, L.
    - exact (getLocksGeneral_first_attempts request resource
               (fun r w => Resource_getLocksByUser r user w)
               notProvisional w locks w' H). }
  split.
  { intros request locks w' H. split.
    - apply getProvisionalLocks_Forall in H.
      eapply List.Forall_impl; [|exact H]. intros l [L _].
      apply live_not_expired, L.
    - exact (getLocksGeneral_first_attempts request resource Resource_getLocks
               Lock.provisional w locks w' H). }
  intros WF request user.
  split; [|split; [apply getLockPermission_returns|split; [|split]]].
  - rewrite (getLockPermission_code request resource user w WF).
    rewrite (getLockPermission_code request resource user (sweep w)
               (sweep_WellFormed w WF)).
    destruct (ancestors request resource) as [chain|]; [|reflexivity]. simpl.
    f_equal. f_equal; apply viewOf_ext; intros r.
    + symmetry. apply sweep_currentLocks.
    + unfold currentLocksByUser. rewrite sweep_currentLocks. reflexivity.
  - intros locks w' H.
    destruct (getLocks_attempts request resource w locks w' WF H)
      as (chain & att & C & L & _ & D).
    exists chain, att. auto.
  - intros locks w' H.
    destruct (getLocksByUser_attempts request resource user w locks w' WF H)
      as (chain & att & C & L & _ & D).
    exists chain, att. auto.
  - intros locks w' H.
    destruct (getProvisionalLocks_attempts request resource w locks w' WF H)
      as (chain & att & C & L & _ & D).
    exists chain, att. auto.
Qed.

Lemma C4_witness :
  WellFormed Sample.world
  /\ expired (now Sample.world) Sample.lockStale = true
  /\ In Sample.lockStale (store Sample.world "/docs/a.txt")
  /\ fst (getCurrentResourceLocks "/docs/a.txt" Sample.world) = [Sample.lockFile]
  /\ deleteLog (snd (getCurrentResourceLocks "/docs/a.txt" Sample.world))
     = [Sample.lockStale]
  /\ ~ In Sample.lockStale
       (store (snd (getCurrentResourceLocks "/docs/a.txt" Sample.world))
              "/docs/a.txt")
  /\ option_map fst
       (getLockPermission Sample.lock "/docs/a.txt" Sample.bob Sample.world)
     = option_map fst
         (getLockPermission Sample.lock "/docs/a.txt" Sample.bob
            (sweep Sample.world))
  /\ exists locks w',
       getLocks Sample.put "/docs/a.txt" Sample.world = Some (locks, w')
       /\ In Sample.lockStale (deleteLog w').
Proof.
  destruct (C4_expired_locks_are_purged "/docs/a.txt" Sample.world)
    as (R & _ & L & D & _ & G & _ & _ & S).
  split; [exact Sample_world_WellFormed|].
  split; [reflexivity|].
  split; [left; reflexivity|].
  split; [rewrite R; reflexivity|].
  split; [rewrite L; reflexivity|].
  split; [apply (D Sample.lockStale); [left; reflexivity|reflexivity|reflexivity]|].
  split; [apply (S Sample_world_WellFormed)|].
  destruct (getLocks Sample.put "/docs/a.txt" Sample.world)
    as [[locks w']|] eqn:E; [|vm_compute in E; discriminate].
  exists locks, w'. split; [reflexivity|].
  destruct (S Sample_world_WellFormed Sample.put Sample.bob)
    as (_ & _ & A & _).
  destruct (A locks w' E) as (chain & att & _ & Lg & Dg).
  rewrite Lg. apply in_or_app. right.
  apply (Dg "/docs/a.txt"%string Sample.lockStale);
    [left; reflexivity|left; reflexivity|reflexivity].
Defined.

(** C9.  Two well-formed worlds with the same clock whose stores hold the
    same non-provisional locks, resource by resource, give the same
    permission code, which is returned whenever the walk up the parents
    ends: provisional locks may be added or removed at will.  The views of
    [getLocks] and [getLocksByUser] hold no provisional lock. *)
Theorem C9_provisional_locks_are_ignored request resource user w w' :
  WellFormed w -> WellFormed w' -> now w = now w' ->
  (forall r, List.filter notProvisional (store w r)
             = List.filter notProvisional (store w' r)) ->
  option_map fst (getLockPermission request resource user w)
  = option_map fst (getLockPermission request resource user w')
  /\ ((exists chain, ancestors request resource = Some chain) ->
      exists code w1,
        getLockPermission request resource user w = Some (code, w1))
  /\ (forall locks w1,
        getLocks request resource w = Some (locks, w1) ->
        Forall (fun l => Lock.provisional l = false) (Locks.all locks))
  /\ (forall locks w1,
        getLocksByUser request resource user w = Some (locks, w1) ->
        Forall (fun l => Lock.provisional l = false) (Locks.all locks)).
Proof.
  intros WF WF' N S. split; [|split; [apply getLockPermission_returns|split]].
  - rewrite (getLockPermission_code request resource user w WF).
    rewrite (getLockPermission_code request resource user w' WF').
    destruct (ancestors request resource) as [chain|]; [|reflexivity]. simpl.
    assert (E : forall r, currentLocks w r = currentLocks w' r).
    { intros r. unfold currentLocks.
      rewrite !(filter_filter_comm (live _) notProvisional), S, N. reflexivity. }
    f_equal. f_equal; apply viewOf_ext; intros r; [apply E|].
    unfold currentLocksByUser. rewrite E. reflexivity.
  - intros locks w1 H. apply getLocks_Forall in H.
    eapply List.Forall_impl; [|exact H]. intros l [_ L].
    unfold notProvisional in L. apply negb_true_iff, L.
  - intros locks w1 H. apply getLocksByUser_Forall in H.
    eapply List.Forall_impl; [|exact H]. intros l [_ L].
    unfold notProvisional in L. apply negb_true_iff, L.
Qed.

Lemma Sample_worldCommitted_WellFormed : WellFormed Sample.worldCommitted.
Proof.
  intros r. unfold Sample.worldCommitted. simpl.
  destruct (String.eqb r "/docs/") eqn:E1;
    [apply String.eqb_eq in E1; subst; split; repeat constructor;
     simpl; intuition discriminate|].
  destruct (String.eqb r "/docs/a.txt") eqn:E2;
    [apply String.eqb_eq in E2; subst; split; repeat constructor;
     simpl; intuition discriminate|].
  split; constructor.
Defined.

Lemma Sample_same_committed_locks r :
  List.filter notProvisional (store Sample.world r)
  = List.filter notProvisional (store Sample.worldCommitted r).
Proof.
  unfold Sample.world, Sample.worldCommitted. simpl.
  destruct (String.eqb r "/docs/"); [reflexivity|].
  destruct (String.eqb r "/docs/a.txt"); [reflexivity|].
  destruct (String.eqb r "/docs/new.txt"); reflexivity.
Defined.

Lemma C9_witness :
  WellFormed Sample.world /\ WellFormed Sample.worldCommitted
  /\ now Sample.world = now Sample.worldCommitted
  /\ store Sample.world "/docs/new.txt" = [Sample.lockProvisional]
  /\ store Sample.worldCommitted "/docs/new.txt" = []
  /\ option_map fst
       (getLockPermission Sample.put "/docs/new.txt" Sample.alice Sample.world)
     = option_map fst
         (getLockPermission Sample.put "/docs/new.txt" Sample.alice
            Sample.worldCommitted).
Proof.
  split; [exact Sample_world_WellFormed|].
  split; [exact Sample_worldCommitted_WellFormed|].
  split; [reflexivity|]. split; [reflexivity|]. split; [reflexivity|].
  exact (proj1 (C9_provisional_locks_are_ignored Sample.put "/docs/new.txt"
                  Sample.alice Sample.world Sample.worldCommitted
                  Sample_world_WellFormed Sample_worldCommitted_WellFormed
                  eq_refl Sample_same_committed_locks)).
Defined.

(** ** Content negotiation *)

Section EncodingFacts.

Context {number : Type}.
Variable parseFloat : string -> number.
Variable sub : number -> number -> number.
Variable positive : number -> bool.

Lemma insertSorted_Permutation (x : @Entry number) l :
  Permutation (insertSorted sub positive x l) (x :: l).
Proof.
  induction l as [|y l IH]; simpl; [reflexivity|].
  destruct (positive (compareFn sub x y)); [|reflexivity].
  rewrite IH. apply perm_swap.
Qed.

Lemma sort_Permutation (l : list (@Entry number)) :
  Permutation (sort sub positive l) l.
Proof.
  induction l as [|x l IH]; simpl; [reflexivity|].
  rewrite insertSorted_Permutation, IH. reflexivity.
Qed.

Lemma parseEncodings_names h :
  map fst (parseEncodings parseFloat h) = listed h.
Proof.
  unfold parseEncodings, listed. rewrite map_map. reflexivity.
Qed.

Lemma pickEncoding_nil encoding :
  pickEncoding encoding ([] : list (@Entry number))
  = if JS.includes recognised encoding then inr (encoding, [])
    else inl (EncodingNotSupportedError
                "Requested content encoding is not supported.").
Proof. reflexivity. Qed.

Lemma pickEncoding_cons encoding (e : @Entry number) rest :
  pickEncoding encoding (e :: rest)
  = if JS.includes recognised encoding then inr (encoding, e :: rest)
    else pickEncoding (fst e) rest.
Proof. reflexivity. Qed.

Lemma find_isRecognised_cons (e : @Entry number) l :
  List.find isRecognised (e :: l)
  = if JS.includes recognised (fst e) then Some e else List.find isRecognised l.
Proof. reflexivity. Qed.

(** The loop stops at the first recognised entry and leaves the entries
    behind it. *)
Lemma pickEncoding_find (l : list (@Entry number)) : forall encoding,
  JS.includes recognised encoding = false ->
  match pickEncoding encoding l with
  | inl e =>
      e = EncodingNotSupportedError "Requested content encoding is not supported."
      /\ List.find isRecognised l = None
  | inr (name, rest) =>
      exists before q,
        l = before ++ (name, q) :: rest
        /\ Forall (fun e => isRecognised e = false) before
        /\ JS.includes recognised name = true
        /\ List.find isRecognised l = Some (name, q)
  end.
Proof.
  induction l as [|[n q] l IH]; intros encoding U.
  - rewrite pickEncoding_nil, U. split; reflexivity.
  - rewrite pickEncoding_cons, U, find_isRecognised_cons.
    cbn [fst]. destruct (JS.includes recognised n) eqn:R.
    + destruct l as [|e l'];
        [rewrite pickEncoding_nil|rewrite pickEncoding_cons]; rewrite R;
        exists [], q; (split; [reflexivity|]); (split; [apply List.Forall_nil|]);
        (split; [exact R|reflexivity]).
    + specialize (IH n R). destruct (pickEncoding n l) as [e|[name rest]].
      * exact IH.
      * destruct IH as (before & q' & -> & F & Rn & Fd).
        exists ((n, q) :: before), q'. split; [reflexivity|].
        split; [apply List.Forall_cons; [exact R|exact F]|].
        split; assumption.
Qed.

End EncodingFacts.

Section EncodingOrder.

Context {number : Type}.
Variable parseFloat : string -> number.
Variable sub : number -> number -> number.
Variable positive : number -> bool.
Variable isNaN : number -> bool.

(** [positive (sub a b) = true] reads [a > b].  The three facts hold of
    binary64 numbers; the last one needs the middle number not to be NaN. *)
Hypothesis gt_irrefl : forall a, positive (sub a a) = false.
Hypothesis gt_trans : forall a b c,
  positive (sub a b) = true -> positive (sub b c) = true ->
  positive (sub a c) = true.
Hypothesis ngt_trans : forall a b c,
  isNaN b = false ->
  positive (sub a b) = false -> positive (sub b c) = false ->
  positive (sub a c) = false.

Lemma gt_asym a b : positive (sub a b) = true -> positive (sub b a) = false.
Proof.
  intros H. destruct (positive (sub b a)) eqn:E; [|reflexivity].
  rewrite <- (gt_irrefl a). symmetry. eapply gt_trans; eassumption.
Qed.

Lemma insertSorted_descending (x : @Entry number) s :
  Forall (numeric isNaN) s ->
  descending sub positive s -> descending sub positive (insertSorted sub positive x s).
Proof.
  unfold descending. induction s as [|y s IH]; intros N D; simpl.
  - constructor; constructor.
  - apply List.Forall_cons_iff in N as [Ny N].
    apply StronglySorted_inv in D as [D Fy].
    destruct (positive (compareFn sub x y)) eqn:C.
    + constructor; [apply IH; assumption|].
      eapply Permutation_Forall; [symmetry; apply insertSorted_Permutation|].
      constructor; [|exact Fy].
      unfold compareFn in *. apply gt_asym, C.
    + constructor; [constructor; assumption|].
      constructor; [exact C|].
      rewrite List.Forall_forall in *. intros z Hz. specialize (Fy z Hz).
      unfold compareFn in *. eapply ngt_trans; [exact Ny|exact Fy|exact C].
Qed.

Lemma sort_descending (l : list (@Entry number)) :
  Forall (numeric isNaN) l -> descending sub positive (sort sub positive l).
Proof.
  induction l as [|x l IH]; intros N; simpl; [constructor|].
  apply List.Forall_cons_iff in N as [_ N]. apply insertSorted_descending.
  - eapply Permutation_Forall; [symmetry; apply sort_Permutation|exact N].
  - apply IH, N.
Qed.

(** Inserting an entry into a descending list changes the first recognised
    entry only when the new entry is recognised and the old first one does
    not have a greater q-value. *)
Lemma find_insertSorted (x : @Entry number) s :
  Forall (numeric isNaN) s -> descending sub positive s ->
  List.find isRecognised (insertSorted sub positive x s)
  = if isRecognised x then
      match List.find isRecognised s with
      | Some e => if positive (sub (snd e) (snd x)) then Some e else Some x
      | None => Some x
      end
    else List.find isRecognised s.
Proof.
  unfold descending. induction s as [|y s IH]; intros N D.
  - simpl. destruct (isRecognised x); reflexivity.
  - apply List.Forall_cons_iff in N as [Ny N].
    apply StronglySorted_inv in D as [D Fy].
    cbn [insertSorted]. destruct (positive (compareFn sub x y)) eqn:C.
    + cbn [List.find]. destruct (isRecognised y) eqn:Ry.
      * unfold compareFn in C. rewrite C. destruct (isRecognised x); reflexivity.
      * apply IH; assumption.
    + cbn [List.find]. destruct (isRecognised x) eqn:Rx; [|reflexivity].
      destruct (isRecognised y) eqn:Ry.
      * unfold compareFn in C. rewrite C. reflexivity.
      * destruct (List.find isRecognised s) as [e|] eqn:F; [|reflexivity].
        apply List.find_some in F as [He _].
        rewrite List.Forall_forall in Fy. specialize (Fy e He).
        unfold compareFn in *.
        rewrite (ngt_trans _ _ _ Ny Fy C). reflexivity.
Qed.

(** The loop over the sorted entries picks the recognised entry with the
    greatest q-value, the earliest in the header among equals. *)
Lemma find_sort_bestByQ (l : list (@Entry number)) :
  Forall (numeric isNaN) l ->
  List.find isRecognised (sort sub positive l) = bestByQ sub positive l.
Proof.
  induction l as [|x l IH]; intros N; [reflexivity|].
  apply List.Forall_cons_iff in N as [_ N]. cbn [sort foldr bestByQ].
  rewrite <- (IH N). apply find_insertSorted.
  - eapply Permutation_Forall; [symmetry; apply sort_Permutation|exact N].
  - apply sort_descending, N.
Qed.

Lemma bestByQ_None (l : list (@Entry number)) :
  bestByQ sub positive l = None -> Forall (fun e => isRecognised e = false) l.
Proof.
  induction l as [|x l IH]; simpl; intros H; [constructor|].
  destruct (isRecognised x) eqn:R.
  - destruct (bestByQ sub positive l) as [e|]; [|discriminate].
    destruct (positive (sub (snd e) (snd x))); discriminate.
  - constructor; [exact R|apply IH, H].
Qed.

(** [bestByQ] is a recognised entry of the list that no recognised entry
    exceeds. *)
Lemma bestByQ_greatest (l : list (@Entry number)) e :
  Forall (numeric isNaN) l -> bestByQ sub positive l = Some e ->
  In e l /\ isRecognised e = true
  /\ forall e', In e' l -> isRecognised e' = true ->
                positive (sub (snd e') (snd e)) = false.
Proof.
  revert e. induction l as [|x l IH]; intros e N H; simpl in H; [discriminate|].
  apply List.Forall_cons_iff in N as [Nx N].
  destruct (isRecognised x) eqn:R.
  - destruct (bestByQ sub positive l) as [b|] eqn:B.
    + destruct (IH b N eq_refl) as (Hb & Rb & M).
      destruct (positive (sub (snd b) (snd x))) eqn:G; injection H as <-.
      * split; [right; exact Hb|]. split; [exact Rb|].
        intros e' [<-|He'] Re'; [apply gt_asym, G|apply M; assumption].
      * split; [left; reflexivity|]. split; [exact R|].
        intros e' [<-|He'] Re'; [apply gt_irrefl|].
        eapply ngt_trans; [|apply M; eassumption|exact G].
        rewrite List.Forall_forall in N. apply N, Hb.
    + injection H as <-. split; [left; reflexivity|]. split; [exact R|].
      intros e' [<-|He'] Re'; [apply gt_irrefl|].
      apply bestByQ_None in B. rewrite List.Forall_forall in B.
      rewrite (B e' He') in Re'. discriminate.
  - destruct (IH e N H) as (He & Re & M). split; [right; exact He|].
    split; [exact Re|]. intros e' [<-|He'] Re'; [congruence|apply M; assumption].
Qed.

End EncodingOrder.

Lemma recognised_cases name :
  JS.includes recognised name = true <-> In name contentCodings \/ name = "*".
Proof.
  rewrite includes_In. unfold recognised, supported, contentCodings. simpl.
  intuition (subst; auto).
Qed.

Lemma firstUnlisted_coding names : In (firstUnlisted names) contentCodings.
Proof.
  unfold firstUnlisted.
  destruct (List.find (fun check => negb (JS.includes names check)) supported)
    as [s|] eqn:F; [|simpl; auto 10].
  apply List.find_some in F as [F _]. unfold supported in F. simpl in F.
  destruct F as [<-|[<-|[<-|[<-|[]]]]]; simpl; auto 10.
Qed.

Lemma firstUnlisted_ext names names' :
  (forall check, In check supported ->
                 JS.includes names check = JS.includes names' check) ->
  firstUnlisted names = firstUnlisted names'.
Proof.
  intros E. unfold firstUnlisted. f_equal. unfold supported in *. simpl.
  rewrite !E by (simpl; auto). reflexivity.
Qed.

Lemma find_ext {A} (p q : A -> bool) (l : list A) :
  (forall x, p x = q x) -> List.find p l = List.find q l.
Proof.
  intros E. induction l as [|x l IH]; simpl; [reflexivity|].
  rewrite E, IH. reflexivity.
Qed.

Lemma includes_Permutation l l' x :
  Permutation l l' -> JS.includes l x = JS.includes l' x.
Proof.
  intros P. apply eq_true_iff_eq. rewrite !includes_In.
  split; apply Permutation_in; [exact P|symmetry; exact P].
Qed.

Section EncodingChoice.

Context {number : Type}.
Variable parseFloat : string -> number.
Variable sub : number -> number -> number.
Variable positive : number -> bool.

Lemma pickUnlisted_names (rest : list (@Entry number)) :
  pickUnlisted rest = firstUnlisted (map fst rest).
Proof.
  unfold pickUnlisted, firstUnlisted, JS.find. f_equal.
  apply find_ext. intros check.
  destruct (List.find (fun e => String.eqb check (fst e)) rest) as [e|] eqn:F.
  - apply List.find_some in F as [He Ee]. apply String.eqb_eq in Ee.
    symmetry. apply negb_false_iff, includes_In. rewrite Ee. apply in_map, He.
  - symmetry. apply negb_true_iff. destruct (JS.includes (map fst rest) check) eqn:I;
      [|reflexivity].
    apply includes_In, in_map_iff in I as (e & <- & He).
    eapply List.find_none in F; [|exact He]. rewrite String.eqb_refl in F.
    discriminate.
Qed.

(** Behind a chosen [*] the entries left list exactly the supported
    encodings the header lists. *)
Lemma rest_lists_supported h before q (rest : list (@Entry number)) check :
  sort sub positive (parseEncodings parseFloat h) = before ++ ("*", q) :: rest ->
  Forall (fun e => isRecognised e = false) before ->
  In check supported ->
  JS.includes (map fst rest) check = JS.includes (listed h) check.
Proof.
  intros S U C.
  rewrite <- (parseEncodings_names parseFloat).
  rewrite <- (includes_Permutation _ _ check
                (Permutation_map fst
                   (sort_Permutation sub positive (parseEncodings parseFloat h)))).
  rewrite S, map_app. cbn [map fst]. apply eq_true_iff_eq.
  rewrite !includes_In, in_app_iff. cbn [In].
  assert (R : JS.includes recognised check = true).
  { apply includes_In. unfold recognised. apply in_app_iff. left. exact C. }
  split; [tauto|]. intros [H|[H|H]]; [|subst check|exact H].
  - exfalso. apply in_map_iff in H as (e & <- & He).
    rewrite List.Forall_forall in U. specialize (U e He).
    unfold isRecognised in U. congruence.
  - exfalso. unfold supported in C. simpl in C. intuition discriminate.
Qed.

(** What [getRequestedEncoding] returns, by the entry the loop stops at. *)
Lemma getRequestedEncoding_chosen request :
  let h := acceptEncodingOf request in
  match chosen parseFloat sub positive h with
  | None =>
      getRequestedEncoding parseFloat sub positive request
      = inl (EncodingNotSupportedError
               "Requested content encoding is not supported.")
  | Some (name, _) =>
      JS.includes recognised name = true
      /\ getRequestedEncoding parseFloat sub positive request
         = inr (if String.eqb name "*" then firstUnlisted (listed h) else name)
  end.
Proof.
  simpl. unfold getRequestedEncoding, chosen.
  pose proof (pickEncoding_find
                (sort sub positive (parseEncodings parseFloat (acceptEncodingOf request)))
                EmptyString eq_refl) as P.
  destruct (pickEncoding EmptyString
              (sort sub positive (parseEncodings parseFloat (acceptEncodingOf request))))
    as [e|[name rest]].
  - destruct P as [-> ->]. reflexivity.
  - destruct P as (before & q & S & U & R & ->). split; [exact R|].
    destruct (String.eqb name "*") eqn:E; [|reflexivity].
    apply String.eqb_eq in E. subst name. f_equal.
    rewrite pickUnlisted_names. apply firstUnlisted_ext. intros check C.
    eapply rest_lists_supported; eassumption.
Qed.

Lemma chosen_None_iff h :
  chosen parseFloat sub positive h = None
  <-> forall name, In name (listed h) -> ~ In name contentCodings /\ name <> "*".
Proof.
  unfold chosen. rewrite find_none_iff, <- (parseEncodings_names parseFloat). split.
  - intros F name Hn.
    apply in_map_iff in Hn as (e & <- & He).
    apply (Permutation_in _ (Permutation_sym (sort_Permutation sub positive _))) in He.
    rewrite List.Forall_forall in F. specialize (F e He). unfold isRecognised in F.
    pose proof (recognised_cases (fst e)) as RC.
    split; [intros H|intros H]; rewrite (proj2 RC) in F; auto; discriminate.
  - intros H. apply List.Forall_forall. intros e He.
    apply (Permutation_in _ (sort_Permutation sub positive _)) in He.
    unfold isRecognised. destruct (JS.includes recognised (fst e)) eqn:R;
      [|reflexivity].
    apply recognised_cases in R. specialize (H (fst e) (in_map fst _ _ He)).
    tauto.
Qed.

End EncodingChoice.

(** ** The decimal numbers are ordered as the comparator needs *)

Section DecimalOrder.

Lemma Decimal_gt_irrefl a : Decimal.positive (Decimal.sub a a) = false.
Proof.
  destruct a as [|s|n d]; simpl; [reflexivity| |apply Z.ltb_ge; lia].
  rewrite Bool.eqb_reflx. reflexivity.
Qed.

Lemma cross_lt_trans (n1 n2 n3 : Z) (d1 d2 d3 : positive) :
  (0 < n1 * Z.pos d2 - n2 * Z.pos d1)%Z ->
  (0 < n2 * Z.pos d3 - n3 * Z.pos d2)%Z ->
  (0 < n1 * Z.pos d3 - n3 * Z.pos d1)%Z.
Proof.
  intros H1 H2.
  assert (K : (0 < Z.pos d2 * (n1 * Z.pos d3 - n3 * Z.pos d1))%Z).
  { replace (Z.pos d2 * (n1 * Z.pos d3 - n3 * Z.pos d1))%Z
      with (Z.pos d3 * (n1 * Z.pos d2 - n2 * Z.pos d1)
            + Z.pos d1 * (n2 * Z.pos d3 - n3 * Z.pos d2))%Z by ring.
    apply Z.add_pos_pos; apply Z.mul_pos_pos; lia. }
  apply Z.mul_pos_cancel_l in K; lia.
Qed.

Lemma cross_le_trans (n1 n2 n3 : Z) (d1 d2 d3 : positive) :
  (n1 * Z.pos d2 - n2 * Z.pos d1 <= 0)%Z ->
  (n2 * Z.pos d3 - n3 * Z.pos d2 <= 0)%Z ->
  (n1 * Z.pos d3 - n3 * Z.pos d1 <= 0)%Z.
Proof.
  intros H1 H2.
  assert (K : (Z.pos d2 * (n1 * Z.pos d3 - n3 * Z.pos d1) <= 0)%Z).
  { replace (Z.pos d2 * (n1 * Z.pos d3 - n3 * Z.pos d1))%Z
      with (Z.pos d3 * (n1 * Z.pos d2 - n2 * Z.pos d1)
            + Z.pos d1 * (n2 * Z.pos d3 - n3 * Z.pos d2))%Z by ring.
    assert (Z.pos d3 * (n1 * Z.pos d2 - n2 * Z.pos d1) <= 0)%Z
      by (apply Z.mul_nonneg_nonpos; lia).
    assert (Z.pos d1 * (n2 * Z.pos d3 - n3 * Z.pos d2) <= 0)%Z
      by (apply Z.mul_nonneg_nonpos; lia).
    lia. }
  destruct (Z.le_gt_cases (n1 * Z.pos d3 - n3 * Z.pos d1) 0) as [L|G];
    [exact L|].
  assert (0 < Z.pos d2 * (n1 * Z.pos d3 - n3 * Z.pos d1))%Z
    by (apply Z.mul_pos_pos; lia).
  lia.
Qed.

Lemma Decimal_gt_trans a b c :
  Decimal.positive (Decimal.sub a b) = true ->
  Decimal.positive (Decimal.sub b c) = true ->
  Decimal.positive (Decimal.sub a c) = true.
Proof.
  destruct a as [|[]|n1 d1], b as [|[]|n2 d2], c as [|[]|n3 d3]; simpl;
    try discriminate; try reflexivity.
  rewrite !Z.ltb_lt. apply cross_lt_trans.
Qed.

Lemma Decimal_ngt_trans a b c :
  Decimal.isNaN b = false ->
  Decimal.positive (Decimal.sub a b) = false ->
  Decimal.positive (Decimal.sub b c) = false ->
  Decimal.positive (Decimal.sub a c) = false.
Proof.
  destruct a as [|[]|n1 d1], b as [|[]|n2 d2], c as [|[]|n3 d3]; simpl;
    try discriminate; try reflexivity.
  rewrite !Z.ltb_ge. intros _. apply cross_le_trans.
Qed.

End DecimalOrder.

(** ** Claims on content negotiation *)

(** C6 as stated fails at the empty header: it lists no encoding of the
    supported set and no [*], yet the method does not throw; the header is
    read as [identity, *;q=0.5] and the answer is [identity]. *)
Lemma C6_counterexample :
  ~ ((exists e,
        getRequestedEncoding Decimal.parseFloat Decimal.sub Decimal.positive
          (withAcceptEncoding (Some EmptyString)) = inl e)
     <-> (forall name, In name (listed EmptyString) ->
                       ~ In name contentCodings /\ name <> "*")).
Proof.
  intros [_ H]. destruct H as [e He].
  - intros name [<-|[]]. split; [|discriminate].
    simpl. intuition discriminate.
  - vm_compute in He. discriminate.
Qed.

(** C6, amended.  An [Accept-Encoding] header that is not empty is read as
    it is; an absent or empty one is read as [identity, *;q=0.5].  Of the
    header [h] so read: the method returns a member of
    {gzip, x-gzip, deflate, br, identity} or throws
    [EncodingNotSupportedError]; it throws exactly when [h] lists neither one
    of these five nor [*]; when the entry chosen is [*] it returns the first
    of gzip, deflate, br, identity that [h] does not list, and gzip when it
    lists all four, otherwise it returns the name of the entry chosen; and
    when every q-value of [h] is a number the entry chosen is the recognised
    entry with the greatest q-value, the earliest in [h] among equals. *)
Theorem C6_requested_encoding {number : Type} (parseFloat : string -> number)
  (sub : number -> number -> number) (positive : number -> bool)
  (isNaN : number -> bool) (request : Request) :
  let h := acceptEncodingOf request in
  let result := getRequestedEncoding parseFloat sub positive request in
  (forall v, get request "Accept-Encoding" = Some v -> v <> EmptyString -> h = v)
  /\ (get request "Accept-Encoding" = None
      \/ get request "Accept-Encoding" = Some EmptyString
      -> h = "identity, *;q=0.5")
  /\ match result with
     | inl e =>
         e = EncodingNotSupportedError "Requested content encoding is not supported."
     | inr encoding => In encoding contentCodings
     end
  /\ ((exists e, result = inl e)
      <-> forall name, In name (listed h) ->
                       ~ In name contentCodings /\ name <> "*")
  /\ (forall name q,
        chosen parseFloat sub positive h = Some (name, q) ->
        result = inr (if String.eqb name "*" then firstUnlisted (listed h)
                      else name))
  /\ ((forall a, positive (sub a a) = false) ->
      (forall a b c, positive (sub a b) = true -> positive (sub b c) = true ->
                     positive (sub a c) = true) ->
      (forall a b c, isNaN b = false ->
                     positive (sub a b) = false -> positive (sub b c) = false ->
                     positive (sub a c) = false) ->
      Forall (numeric isNaN) (parseEncodings parseFloat h) ->
      chosen parseFloat sub positive h
      = bestByQ sub positive (parseEncodings parseFloat h)).
Proof.
  intros h result. subst h result.
  pose proof (getRequestedEncoding_chosen parseFloat sub positive request) as G.
  cbv zeta in G.
  split.
  { intros v Hv Ne. unfold acceptEncodingOf. rewrite Hv. simpl.
    apply String.eqb_neq in Ne. rewrite Ne. reflexivity. }
  split.
  { intros [Hv|Hv]; unfold acceptEncodingOf; rewrite Hv; reflexivity. }
  split.
  { destruct (chosen parseFloat sub positive (acceptEncodingOf request))
      as [[name q]|]; [|rewrite G; reflexivity].
    destruct G as [R ->]. destruct (String.eqb name "*") eqn:E.
    - apply firstUnlisted_coding.
    - apply recognised_cases in R as [R| ->]; [exact R|].
      rewrite String.eqb_refl in E. discriminate. }
  split.
  { rewrite <- (chosen_None_iff parseFloat sub positive).
    destruct (chosen parseFloat sub positive (acceptEncodingOf request))
      as [[name q]|].
    - destruct G as [_ ->]. split; [intros [e He]|]; discriminate.
    - rewrite G. split; eauto. }
  split.
  { intros name q C. rewrite C in G. apply G. }
  intros I T N F. unfold chosen. eapply find_sort_bestByQ; eassumption.
Qed.

(** A q-value written behind a space, as in [gzip; q=0.1], is not read:
    the text [ q=0.1] is handed to [parseFloat] as it is and gives NaN, every
    comparison of the sort is then undecided, and the entries stay in the
    order of the header. *)
Lemma q_value_behind_space_is_not_read :
  parseEncodings Decimal.parseFloat "gzip; q=0.1, identity; q=0.9"
  = [("gzip", Decimal.NaN); ("identity", Decimal.NaN)]
  /\ getRequestedEncoding Decimal.parseFloat Decimal.sub Decimal.positive
       (withAcceptEncoding (Some "gzip; q=0.1, identity; q=0.9")) = inr "gzip".
Proof. split; vm_compute; reflexivity. Qed.

Lemma C6_witness :
  Forall (numeric Decimal.isNaN)
         (parseEncodings Decimal.parseFloat Sample.acceptEncoding)
  /\ chosen Decimal.parseFloat Decimal.sub Decimal.positive Sample.acceptEncoding
     = bestByQ Decimal.sub Decimal.positive
         (parseEncodings Decimal.parseFloat Sample.acceptEncoding)
  /\ chosen Decimal.parseFloat Decimal.sub Decimal.positive Sample.acceptEncoding
     = Some ("deflate", Decimal.Finite 8 10)
  /\ getRequestedEncoding Decimal.parseFloat Decimal.sub Decimal.positive
       (withAcceptEncoding (Some Sample.acceptEncoding)) = inr "deflate".
Proof.
  set (h := Sample.acceptEncoding).
  assert (A : acceptEncodingOf (withAcceptEncoding (Some h)) = h)
    by (vm_compute; reflexivity).
  assert (P : parseEncodings Decimal.parseFloat h
              = [("gzip", Decimal.Finite 5 10); ("deflate", Decimal.Finite 8 10);
                 ("*", Decimal.Finite 1 10); ("compress", Decimal.Finite 10 10)])
    by (vm_compute; reflexivity).
  assert (N : Forall (numeric Decimal.isNaN) (parseEncodings Decimal.parseFloat h)).
  { rewrite P. repeat (apply List.Forall_cons; [reflexivity|]).
    apply List.Forall_nil. }
  assert (C : chosen Decimal.parseFloat Decimal.sub Decimal.positive h
              = Some ("deflate", Decimal.Finite 8 10))
    by (vm_compute; reflexivity).
  pose proof (C6_requested_encoding Decimal.parseFloat Decimal.sub
                Decimal.positive Decimal.isNaN (withAcceptEncoding (Some h))) as T.
  cbv zeta in T. rewrite A in T. destruct T as (_ & _ & _ & _ & S & B).
  split; [exact N|].
  split;
    [exact (B Decimal_gt_irrefl Decimal_gt_trans Decimal_ngt_trans N)|].
  split; [exact C|].
  rewrite (S "deflate" (Decimal.Finite 8 10) C). reflexivity.
Defined.

(** C10.  A request without an [Accept-Encoding] header is negotiated as
    [identity, *;q=0.5], the requested encoding is [identity], and
    [sendBodyContent] with it sends the UTF-8 bytes of the content as they
    are, sets [Content-Length] to their number and leaves [Content-Encoding]
    as it was.  (0.5 - 1.0 is not greater than zero; the [vary] package
    touches the [Vary] header only.) *)
Theorem C10_identity_without_accept_encoding {number : Type}
  (parseFloat : string -> number) (sub : number -> number -> number)
  (positive : number -> bool)
  (vary : Response -> string -> Response)
  (gzipSync deflateSync brotliCompressSync : list Z -> list Z)
  (request : Request) (opts : Options) (response : Response) (content : list Z) :
  get request "Accept-Encoding" = None ->
  positive (sub (parseFloat "0.5") (parseFloat "1.0")) = false ->
  (forall r field name,
     JS.toLowerCase name <> "vary" ->
     getHeader (vary r field) name = getHeader r name) ->
  acceptEncodingOf request = "identity, *;q=0.5"
  /\ getRequestedEncoding parseFloat sub positive request = inr "identity"
  /\ let response' :=
       sendBodyContent vary gzipSync deflateSync brotliCompressSync opts
         response content "identity" in
     sentBody response' = Some (Buffer_from_utf8 content)
     /\ getHeader response' "Content-Length"
        = Some (HNumber (Z.of_nat (List.length (Buffer_from_utf8 content))))
     /\ getHeader response' "Content-Encoding"
        = getHeader response "Content-Encoding".
Proof.
  intros H P V.
  assert (A : acceptEncodingOf request = "identity, *;q=0.5")
    by (unfold acceptEncodingOf; rewrite H; reflexivity).
  split; [exact A|]. split.
  - unfold getRequestedEncoding. rewrite A.
    change (parseEncodings parseFloat "identity, *;q=0.5")
      with [("identity", parseFloat "1.0"); ("*", parseFloat "0.5")].
    cbn [sort foldr insertSorted]. unfold compareFn. cbn [snd]. rewrite P.
    reflexivity.
  - unfold sendBodyContent. rewrite orb_true_r. simpl.
    split; [reflexivity|]. split.
    + unfold getHeader, setHeader. simpl. apply lookup_insert_eq.
    + unfold getHeader at 1. unfold setHeader, send. simpl.
      rewrite lookup_insert_ne by discriminate.
      apply (V response "Accept-Encoding" "Content-Encoding"). discriminate.
Qed.

Lemma varyAppend_other r field name :
  JS.toLowerCase name <> "vary" ->
  getHeader (varyAppend r field) name = getHeader r name.
Proof.
  intros N. unfold varyAppend. destruct (getHeader r "Vary"); [reflexivity|].
  unfold getHeader, setHeader. cbn [responseHeaders]. apply lookup_insert_ne.
  intros H. apply N. rewrite <- H. reflexivity.
Defined.

Lemma C10_witness :
  get (withAcceptEncoding None) "Accept-Encoding" = None
  /\ getRequestedEncoding Decimal.parseFloat Decimal.sub Decimal.positive
       (withAcceptEncoding None) = inr "identity"
  /\ let response' :=
       sendBodyContent varyAppend (fun b => b) (fun b => b) (fun b => b)
         (mkOptions true 30000) (mkResponse ∅ None) [104; 233; 8364]%Z "identity" in
     sentBody response' = Some [104; 195; 169; 226; 130; 172]%Z
     /\ getHeader response' "Content-Length" = Some (HNumber 6)
     /\ getHeader response' "Content-Encoding" = None.
Proof.
  destruct (C10_identity_without_accept_encoding Decimal.parseFloat Decimal.sub
              Decimal.positive varyAppend (fun b => b) (fun b => b) (fun b => b)
              (withAcceptEncoding None) (mkOptions true 30000)
              (mkResponse ∅ None) [104; 233; 8364]%Z
              eq_refl eq_refl varyAppend_other) as (_ & E & B & L & C).
  split; [reflexivity|]. split; [exact E|]. simpl.
  split; [exact B|]. split; [exact L|exact C].
Defined.

(** ** Claims on the file-system adapter *)

Section FileSystem.

Import FileSystemAdapter.

Lemma indexOf_In l x : (JS.indexOf l x >? -1)%Z = true <-> In x l.
Proof.
  induction l as [|y l IH]; simpl.
  - split; [discriminate|contradiction].
  - destruct (String.eqb y x) eqn:E.
    + apply String.eqb_eq in E. split; [auto|reflexivity].
    + apply String.eqb_neq in E. destruct (JS.indexOf l x <? 0)%Z eqn:N.
      * split; [discriminate|]. intros [H|H]; [contradiction|].
        apply IH in H. apply Z.ltb_lt in N. apply Z.gtb_lt in H. lia.
      * apply Z.ltb_ge in N. split; [|intros _; apply Z.gtb_lt; lia].
        intros _. right. apply IH. apply Z.gtb_lt. lia.
Qed.

(** C7.  For a name of the live set, whatever the value, [Properties.set]
    throws [PropertyIsProtectedError] and leaves the file system as it was:
    no file is read, none is written, the stored properties are the same. *)
Theorem C7_set_live_property_is_protected
  (getPropFilePath : Resource -> string) (resource : Resource)
  (name : string) (value : option string) (fs : FileSystem) :
  In name ["creationdate"; "getcontentlength"; "getcontenttype"; "getetag";
           "getlastmodified"; "lockdiscovery"; "resourcetype"; "supportedlock"] ->
  let out := set getPropFilePath resource name value fs in
  fst out = inl (PropertyIsProtectedError (name ++ " is a protected property."))
  /\ snd out = fs
  /\ trace (snd out) = trace fs
  /\ files (snd out) = files fs.
Proof.
  intros L. unfold set.
  change (In name liveProperties) in L. apply indexOf_In in L. rewrite L.
  simpl. auto.
Qed.

Lemma C7_witness :
  In "getetag" ["creationdate"; "getcontentlength"; "getcontenttype"; "getetag";
                "getlastmodified"; "lockdiscovery"; "resourcetype"; "supportedlock"]
  /\ set FileSample.propFileOf "/docs/a.txt" "getetag" (Some "x") FileSample.disk
     = (inl (PropertyIsProtectedError "getetag is a protected property."),
        FileSample.disk)
  /\ fst (set FileSample.propFileOf "/docs/a.txt" "color" (Some "red")
            FileSample.disk) = inr tt
  /\ trace (snd (set FileSample.propFileOf "/docs/a.txt" "color" (Some "red")
                   FileSample.disk))
     = [ReadFile "/docs/a.txt.props.json"; WriteFile "/docs/a.txt.props.json"].
Proof.
  assert (L : In "getetag"
                ["creationdate"; "getcontentlength"; "getcontenttype"; "getetag";
                 "getlastmodified"; "lockdiscovery"; "resourcetype";
                 "supportedlock"]) by (simpl; auto 10).
  split; [exact L|].
  destruct (C7_set_live_property_is_protected FileSample.propFileOf "/docs/a.txt"
              "getetag" (Some "x") FileSample.disk L) as (R & S & _).
  split; [|split; reflexivity].
  rewrite (surjective_pairing (set _ _ _ _ _)), R, S. reflexivity.
Defined.

Lemma read_after_save resource meta disk :
  readMetadataFile resource (saveMetadataFile resource meta disk) = meta.
Proof.
  unfold readMetadataFile, saveMetadataFile. rewrite lookup_insert_eq. reflexivity.
Qed.

(** C8.  [Lock.save] leaves in the metadata document of the lock's
    resource, under the lock's token, the record of the principal's user
    name, the creation time stamp, the timeout, the exclusive flag, the depth
    and the provisional flag; the records under every other token, the rest
    of the document and the documents of the other resources stay as they
    were. *)
Theorem C8_save_writes_lock_record (this : Lock.t) (disk : gmap string Meta) :
  let before := readMetadataFile (Lock.resource this) disk in
  let after := readMetadataFile (Lock.resource this) (Lock.save this disk) in
  exists locks,
    meta_locks after = Some locks
    /\ locks !! Lock.token this
       = Some {| rec_username := username (Lock.user this);
                 rec_date := Lock.date this;
                 rec_timeout := Lock.timeout this;
                 rec_exclusive := Lock.exclusive this;
                 rec_depth := Lock.depth this;
                 rec_provisional := Lock.provisional this |}
    /\ base.delete (Lock.token this) locks
       = base.delete (Lock.token this) (default ∅ (meta_locks before))
    /\ meta_props after = meta_props before
    /\ base.delete (Lock.resource this) (Lock.save this disk)
       = base.delete (Lock.resource this) disk.
Proof.
  cbv zeta. unfold Lock.save. rewrite !read_after_save.
  unfold saveMetadataFile. rewrite delete_insert_eq.
  generalize (readMetadataFile (Lock.resource this) disk). intros m.
  destruct m as [props [g|]]; cbn [default meta_locks meta_props id from_option];
    (eexists; split; [reflexivity|]); (split; [apply lookup_insert_eq|]);
    (split; [apply delete_insert_eq|]); split; reflexivity.
Qed.

Lemma C8_witness :
  exists locks,
    meta_locks (readMetadataFile "/docs/a.txt"
                  (Lock.save FileSample.lock FileSample.metadata)) = Some locks
    /\ locks !! Sample.tokenA
       = Some (mkLockRecord "alice" 1000 5000 true depth_infinity false)
    /\ locks !! Sample.tokenB = Some FileSample.otherRecord
    /\ meta_props (readMetadataFile "/docs/a.txt"
                     (Lock.save FileSample.lock FileSample.metadata))
       = Some {[ "author" := "alice" ]}.
Proof.
  destruct (C8_save_writes_lock_record FileSample.lock FileSample.metadata)
    as (locks & E & R & D & P & _).
  exists locks. split; [exact E|]. split; [exact R|]. split; [|exact P].
  assert (N : Sample.tokenA <> Sample.tokenB) by discriminate.
  rewrite <- (lookup_delete_ne locks Sample.tokenA Sample.tokenB N).
  change (Lock.token FileSample.lock) with Sample.tokenA in D. rewrite D.
  rewrite lookup_delete_ne by exact N. reflexivity.
Defined.

End FileSystem.

(** * Further properties *)

(** ** Submitted lock tokens *)

Lemma append_assoc (a b c : string) : ((a ++ b) ++ c = a ++ (b ++ c))%string.
Proof.
  induction a as [|x a IH]; [reflexivity|].
  change (String x ((a ++ b) ++ c) = String x (a ++ (b ++ c)))%string.
  f_equal. exact IH.
Qed.

Lemma prefix_split lit : forall s,
  String.prefix lit s = true ->
  exists r, s = (lit ++ r)%string
            /\ String.substring (String.length lit)
                 (String.length s - String.length lit) s = r.
Proof.
  induction lit as [|c lit IH]; intros s H.
  - exists s. split; [reflexivity|]. simpl. rewrite Nat.sub_0_r.
    clear H. induction s as [|d s IHs]; [reflexivity|].
    simpl. f_equal. exact IHs.
  - destruct s as [|d s]; [discriminate|]. simpl in H.
    destruct (ascii_dec c d) as [->|N]; [|discriminate].
    destruct (IH s H) as (r & -> & E). exists r. split; [reflexivity|].
    simpl. exact E.
Qed.

Lemma prefix_append lit r : String.prefix lit (lit ++ r) = true.
Proof.
  induction lit as [|c lit IH]; [destruct r; reflexivity|].
  change (String.prefix (String c lit) (String c (lit ++ r)) = true).
  simpl. destruct (ascii_dec c c); [exact IH|congruence].
Qed.

Lemma append_inj_l lit : forall a b : string,
  (lit ++ a = lit ++ b)%string -> a = b.
Proof.
  induction lit as [|c lit IH]; intros a b E; [exact E|].
  apply IH. change (String c (lit ++ a) = String c (lit ++ b)) in E.
  congruence.
Qed.

Lemma matchLiteral_Some lit s r :
  matchLiteral lit s = Some r <-> s = (lit ++ r)%string.
Proof.
  unfold matchLiteral. split.
  - destruct (String.prefix lit s) eqn:P; [|discriminate].
    destruct (prefix_split lit s P) as (r' & E & S). rewrite S.
    intros H. injection H as <-. exact E.
  - intros ->. rewrite prefix_append.
    destruct (prefix_split lit _ (prefix_append lit r)) as (r' & E & ->).
    f_equal. symmetry. exact (append_inj_l _ _ _ E).
Qed.

Lemma matchHex_Some n : forall s r,
  matchHex n s = Some r
  <-> exists h, s = (h ++ r)%string /\ String.length h = n /\ allHex h.
Proof.
  induction n as [|n IH]; intros s r; simpl.
  - split.
    + intros H. injection H as <-. exists EmptyString. repeat split. constructor.
    + intros (h & -> & L & _). destruct h; [reflexivity|discriminate].
  - destruct s as [|c s].
    + split; [discriminate|]. intros (h & E & L & _).
      destruct h; discriminate.
    + destruct (isLowerHex c) eqn:X.
      * rewrite IH. split.
        -- intros (h & -> & L & A). exists (String c h). repeat split.
           ++ simpl. f_equal. exact L.
           ++ constructor; assumption.
        -- intros (h & E & L & A). destruct h as [|d h]; [discriminate|].
           change (String c s = String d (h ++ r)) in E.
           injection E as -> ->. exists h. repeat split.
           ++ simpl in L. lia.
           ++ unfold allHex in A. simpl in A. apply List.Forall_cons_iff in A. tauto.
      * split; [discriminate|]. intros (h & E & L & A).
        destruct h as [|d h]; [discriminate|].
        change (String c s = String d (h ++ r)) in E. injection E as -> ->.
        unfold allHex in A. simpl in A. apply List.Forall_cons_iff in A as [A _].
        congruence.
Qed.

Lemma matchTokenBody_Some s r :
  matchTokenBody s = Some r
  <-> exists h8 h4a h4b h4c h12,
        s = tokenText h8 h4a h4b h4c h12 r
        /\ (String.length h8 = 8 /\ String.length h4a = 4
            /\ String.length h4b = 4 /\ String.length h4c = 4
            /\ String.length h12 = 12)%nat
        /\ allHex h8 /\ allHex h4a /\ allHex h4b /\ allHex h4c /\ allHex h12.
Proof.
  unfold matchTokenBody, tokenText. split.
  - intros H.
    destruct (matchLiteral "urn:uuid:" s) as [s1|] eqn:E1; cbn [mbind option_bind] in H; [|discriminate].
    destruct (matchHex 8 s1) as [s2|] eqn:E2; cbn [mbind option_bind] in H; [|discriminate].
    destruct (matchLiteral "-" s2) as [s3|] eqn:E3; cbn [mbind option_bind] in H; [|discriminate].
    destruct (matchHex 4 s3) as [s4|] eqn:E4; cbn [mbind option_bind] in H; [|discriminate].
    destruct (matchLiteral "-" s4) as [s5|] eqn:E5; cbn [mbind option_bind] in H; [|discriminate].
    destruct (matchHex 4 s5) as [s6|] eqn:E6; cbn [mbind option_bind] in H; [|discriminate].
    destruct (matchLiteral "-" s6) as [s7|] eqn:E7; cbn [mbind option_bind] in H; [|discriminate].
    destruct (matchHex 4 s7) as [s8|] eqn:E8; cbn [mbind option_bind] in H; [|discriminate].
    destruct (matchLiteral "-" s8) as [s9|] eqn:E9; cbn [mbind option_bind] in H; [|discriminate].
    apply matchLiteral_Some in E1, E3, E5, E7, E9.
    apply matchHex_Some in E2 as (h8 & -> & L8 & A8).
    apply matchHex_Some in E4 as (h4a & -> & L4a & A4a).
    apply matchHex_Some in E6 as (h4b & -> & L4b & A4b).
    apply matchHex_Some in E8 as (h4c & -> & L4c & A4c).
    apply matchHex_Some in H as (h12 & -> & L12 & A12).
    subst. exists h8, h4a, h4b, h4c, h12. repeat split; assumption.
  - intros (h8 & h4a & h4b & h4c & h12 & -> & (L8 & L4a & L4b & L4c & L12)
            & A8 & A4a & A4b & A4c & A12).
    rewrite (proj2 (matchLiteral_Some _ _ _) eq_refl). cbn [mbind option_bind].
    rewrite (proj2 (matchHex_Some 8 _ _)) by (exists h8; repeat split; assumption).
    cbn [mbind option_bind]. rewrite (proj2 (matchLiteral_Some _ _ _) eq_refl). cbn [mbind option_bind].
    rewrite (proj2 (matchHex_Some 4 _ _)) by (exists h4a; repeat split; assumption).
    cbn [mbind option_bind]. rewrite (proj2 (matchLiteral_Some _ _ _) eq_refl). cbn [mbind option_bind].
    rewrite (proj2 (matchHex_Some 4 _ _)) by (exists h4b; repeat split; assumption).
    cbn [mbind option_bind]. rewrite (proj2 (matchLiteral_Some _ _ _) eq_refl). cbn [mbind option_bind].
    rewrite (proj2 (matchHex_Some 4 _ _)) by (exists h4c; repeat split; assumption).
    cbn [mbind option_bind]. rewrite (proj2 (matchLiteral_Some _ _ _) eq_refl). cbn [mbind option_bind].
    apply matchHex_Some. exists h12; repeat split; assumption.
Qed.

Lemma tokenText_behind h8 h4a h4b h4c h12 x :
  tokenText h8 h4a h4b h4c h12 x
  = (tokenText h8 h4a h4b h4c h12 EmptyString ++ x)%string.
Proof.
  unfold tokenText. rewrite !append_assoc. reflexivity.
Qed.

Lemma tokenText_length h8 h4a h4b h4c h12 :
  String.length h8 = 8 -> String.length h4a = 4 -> String.length h4b = 4 ->
  String.length h4c = 4 -> String.length h12 = 12 ->
  String.length (tokenText h8 h4a h4b h4c h12 EmptyString) = 45.
Proof.
  intros L1 L2 L3 L4 L5. unfold tokenText. rewrite !length_append.
  rewrite L1, L2, L3, L4, L5. reflexivity.
Qed.

Lemma noBracket_append a b : noBracket a -> noBracket b -> noBracket (a ++ b).
Proof.
  unfold noBracket. intros A B. induction a as [|c a IH]; [exact B|].
  change (Forall (fun c => c <> "<"%char)
            (c :: list_ascii_of_string (a ++ b))).
  simpl in A. apply List.Forall_cons_iff in A as [A1 A2].
  constructor; [exact A1|apply IH, A2].
Qed.

Lemma allHex_noBracket h : allHex h -> noBracket h.
Proof.
  unfold allHex, noBracket. apply List.Forall_impl. intros c H ->. discriminate.
Qed.

Lemma tokenText_noBracket h8 h4a h4b h4c h12 :
  allHex h8 -> allHex h4a -> allHex h4b -> allHex h4c -> allHex h12 ->
  noBracket (tokenText h8 h4a h4b h4c h12 ">").
Proof.
  intros A1 A2 A3 A4 A5. unfold tokenText.
  assert (D : noBracket "-") by (repeat constructor; discriminate).
  repeat (apply noBracket_append;
          [first [apply allHex_noBracket; assumption | exact D
                 | repeat constructor; discriminate]|]).
  repeat constructor; discriminate.
Qed.

Lemma noOpenBracket_covered a : forall k b,
  noBracket a -> String.length a = k -> noOpenBracket k (a ++ b) = true.
Proof.
  induction a as [|c a IH]; intros k b A L.
  - simpl in L. subst k. reflexivity.
  - simpl in L. subst k. unfold noBracket in A. simpl in A.
    apply List.Forall_cons_iff in A as [A1 A2].
    change (negb (Ascii.eqb c "<") && noOpenBracket (String.length a) (a ++ b)
            = true)%bool.
    rewrite (IH _ b A2 eq_refl), andb_true_r.
    destruct (Ascii.eqb c "<") eqn:E; [|reflexivity].
    apply Ascii.eqb_eq in E. contradiction.
Qed.

Lemma matchLiteral_cons c lit s :
  matchLiteral (String c lit) (String c s) = matchLiteral lit s.
Proof.
  unfold matchLiteral. cbn [String.prefix String.length].
  destruct (ascii_dec c c) as [_|N]; [|congruence]. reflexivity.
Qed.

Lemma matchLiteral_differs c d lit s :
  c <> d -> matchLiteral (String c lit) (String d s) = None.
Proof.
  intros N. unfold matchLiteral. cbn [String.prefix].
  destruct (ascii_dec c d); [contradiction|reflexivity].
Qed.

Lemma substring_covered a : forall b,
  String.substring 0 (String.length a) (a ++ b) = a.
Proof.
  induction a as [|c a IH]; intros b.
  - simpl. destruct b; reflexivity.
  - change (String.substring 0 (S (String.length a)) (String c (a ++ b))
            = String c a).
    simpl. f_equal. apply IH.
Qed.

Lemma slice_bracketed t : slice_1_m1 (bracketed t) = t.
Proof.
  unfold slice_1_m1, bracketed.
  change (String.length (String "<" (t ++ ">")))
    with (S (String.length (t ++ ">"))).
  rewrite length_append. simpl String.length.
  replace (S (String.length t + 1) - 2) with (String.length t) by lia.
  change (String.substring 0 (String.length t) (t ++ ">") = t).
  apply substring_covered.
Qed.

(** A match of the regular expression at the head of [s] is a bracketed
    token of the admitted form, and conversely. *)
Lemma matchLockToken_Some s m :
  matchLockToken s = Some m
  <-> exists t behind,
        isLockToken t = true /\ s = (bracketed t ++ behind)%string
        /\ m = bracketed t.
Proof.
  assert (B : forall s0,
    matchLockToken (String "<" s0)
    = (r ← matchTokenBody s0; _ ← matchLiteral ">" r;
       Some (String.substring 0 47 (String "<" s0)))).
  { intros s0. unfold matchLockToken, matchTokenBody.
    change "<urn:uuid:"%string with (String "<" "urn:uuid:").
    rewrite matchLiteral_cons.
    destruct (matchLiteral "urn:uuid:" s0) as [s1|]; [|reflexivity].
    cbn [mbind option_bind].
    destruct (matchHex 8 s1) as [s2|]; [|reflexivity]. cbn [mbind option_bind].
    destruct (matchLiteral "-" s2) as [s3|]; [|reflexivity]. cbn [mbind option_bind].
    destruct (matchHex 4 s3) as [s4|]; [|reflexivity]. cbn [mbind option_bind].
    destruct (matchLiteral "-" s4) as [s5|]; [|reflexivity]. cbn [mbind option_bind].
    destruct (matchHex 4 s5) as [s6|]; [|reflexivity]. cbn [mbind option_bind].
    destruct (matchLiteral "-" s6) as [s7|]; [|reflexivity]. cbn [mbind option_bind].
    destruct (matchHex 4 s7) as [s8|]; [|reflexivity]. cbn [mbind option_bind].
    destruct (matchLiteral "-" s8) as [s9|]; reflexivity. }
  split.
  - destruct s as [|c s0]; [discriminate|].
    destruct (ascii_dec "<" c) as [<-|N].
    2:{ unfold matchLockToken.
        change "<urn:uuid:"%string with (String "<" "urn:uuid:").
        rewrite (matchLiteral_differs _ _ _ _ N). discriminate. }
    rewrite B.
    destruct (matchTokenBody s0) as [r|] eqn:E;
      cbn [mbind option_bind]; [|discriminate].
    destruct (matchLiteral ">" r) as [r'|] eqn:E';
      cbn [mbind option_bind]; [|discriminate].
    intros H. injection H as <-.
    apply matchLiteral_Some in E'. subst r.
    apply matchTokenBody_Some in E
      as (h8 & h4a & h4b & h4c & h12 & -> & (L1 & L2 & L3 & L4 & L5) & A).
    set (t := tokenText h8 h4a h4b h4c h12 EmptyString).
    assert (Sq : String "<" (tokenText h8 h4a h4b h4c h12 (">" ++ r'))
                = (bracketed t ++ r')%string).
    { unfold bracketed.
      change (String "<" (tokenText h8 h4a h4b h4c h12 (">" ++ r'))
              = String "<" ((t ++ ">") ++ r')).
      f_equal. rewrite tokenText_behind, append_assoc. reflexivity. }
    exists t, r'. split; [|split; [exact Sq|]].
    + unfold isLockToken.
      rewrite (proj2 (matchTokenBody_Some t EmptyString)); [reflexivity|].
      exists h8, h4a, h4b, h4c, h12. repeat split; tauto.
    + change (String.substring 0 47
                (String "<" (tokenText h8 h4a h4b h4c h12 (">" ++ r')))
              = bracketed t).
      rewrite Sq.
      assert (L : String.length (bracketed t) = 47).
      { assert (Lt : String.length t = 45)
          by (apply tokenText_length; assumption).
        unfold bracketed.
        change (S (String.length (t ++ ">")) = 47).
        rewrite length_append, Lt. reflexivity. }
      rewrite <- L. apply substring_covered.
  - intros (t & behind & T & -> & ->). unfold isLockToken in T.
    destruct (matchTokenBody t) as [rest|] eqn:E; [|discriminate].
    apply String.eqb_eq in T. subst rest.
    apply matchTokenBody_Some in E
      as (h8 & h4a & h4b & h4c & h12 & E & (L1 & L2 & L3 & L4 & L5) & A).
    assert (L : String.length (bracketed t) = 47).
    { assert (Lt : String.length t = 45)
        by (rewrite E; apply tokenText_length; assumption).
      unfold bracketed.
      change (S (String.length (t ++ ">")) = 47).
      rewrite length_append, Lt. reflexivity. }
    unfold bracketed at 1.
    change (matchLockToken (String "<" ((t ++ ">") ++ behind))
            = Some (bracketed t)).
    rewrite B.
    rewrite (proj2 (matchTokenBody_Some _ (">" ++ behind))).
    + cbn [mbind option_bind].
      rewrite (proj2 (matchLiteral_Some ">" _ behind) eq_refl).
      cbn [mbind option_bind]. f_equal.
      change (String "<" ((t ++ ">") ++ behind))
        with (bracketed t ++ behind)%string.
      rewrite <- L. apply substring_covered.
    + exists h8, h4a, h4b, h4c, h12. split; [|tauto].
      rewrite append_assoc, E, <- tokenText_behind. reflexivity.
Qed.

Lemma matchLockToken_noOpenBracket c s0 m :
  matchLockToken (String c s0) = Some m -> noOpenBracket 46 s0 = true.
Proof.
  intros H. apply matchLockToken_Some in H as (t & behind & T & E & _).
  unfold bracketed in E.
  change (String c s0 = String "<" ((t ++ ">") ++ behind)) in E.
  injection E as _ ->.
  unfold isLockToken in T.
  destruct (matchTokenBody t) as [rest|] eqn:B; [|discriminate].
  apply String.eqb_eq in T. subst rest.
  apply matchTokenBody_Some in B
    as (h8 & h4a & h4b & h4c & h12 & -> & (L1 & L2 & L3 & L4 & L5)
        & A1 & A2 & A3 & A4 & A5).
  rewrite <- tokenText_behind.
  apply noOpenBracket_covered.
  - apply tokenText_noBracket; assumption.
  - rewrite tokenText_behind, length_append, tokenText_length by assumption.
    reflexivity.
Qed.

Lemma occursIn_later c needle hay :
  occursIn needle hay -> occursIn needle (String c hay).
Proof.
  intros (before & behind & ->). exists (String c before), behind. reflexivity.
Qed.

Lemma matchAllLockTokens_sound : forall s skip m,
  In m (matchAllLockTokens skip s) ->
  exists t, m = bracketed t /\ isLockToken t = true /\ occursIn m s.
Proof.
  induction s as [|c s IH]; intros skip m H; [destruct H|].
  cbn [matchAllLockTokens] in H. destruct skip as [|skip].
  - destruct (matchLockToken (String c s)) as [m0|] eqn:E.
    + destruct H as [<-|H].
      * apply matchLockToken_Some in E as (t & behind & T & E & ->).
        exists t. repeat split; [exact T|].
        exists EmptyString, behind. exact E.
      * destruct (IH _ _ H) as (t & -> & T & O). exists t.
        repeat split; [exact T|apply occursIn_later, O].
    + destruct (IH _ _ H) as (t & -> & T & O). exists t.
      repeat split; [exact T|apply occursIn_later, O].
  - destruct (IH _ _ H) as (t & -> & T & O). exists t.
    repeat split; [exact T|apply occursIn_later, O].
Qed.

Lemma matchAllLockTokens_complete t behind :
  isLockToken t = true ->
  forall before skip,
    noOpenBracket skip (before ++ bracketed t ++ behind) = true ->
    In (bracketed t)
       (matchAllLockTokens skip (before ++ bracketed t ++ behind)).
Proof.
  intros T. induction before as [|c before IH]; intros skip N.
  - change (EmptyString ++ bracketed t ++ behind)%string
      with (bracketed t ++ behind)%string in *.
    assert (M : matchLockToken (bracketed t ++ behind) = Some (bracketed t))
      by (apply matchLockToken_Some; exists t, behind; auto).
    unfold bracketed at 1 in N. unfold bracketed at 2.
    change (String "<" (t ++ ">") ++ behind)%string
      with (String "<" ((t ++ ">") ++ behind)) in *.
    destruct skip as [|skip]; [|discriminate].
    cbn [matchAllLockTokens].
    change (String "<" ((t ++ ">") ++ behind))
      with (bracketed t ++ behind)%string.
    rewrite M. left. reflexivity.
  - change (String c before ++ bracketed t ++ behind)%string
      with (String c (before ++ bracketed t ++ behind)) in *.
    cbn [matchAllLockTokens]. destruct skip as [|skip].
    + destruct (matchLockToken (String c (before ++ bracketed t ++ behind)))
        as [m|] eqn:E.
      * right. apply IH. exact (matchLockToken_noOpenBracket _ _ _ E).
      * apply IH. reflexivity.
    + apply IH. cbn [noOpenBracket] in N. apply andb_true_iff in N. tauto.
Qed.

(** X1.  Every token [getRequestLockTockens] returns has the form
    [urn:uuid:] followed by 8-4-4-4-12 lower-case hexadecimal digits, and it
    stands between [<] and [>] in the request's [If] header; without that
    header nothing is returned. *)
Theorem extracted_tokens_are_bracketed_in_If request t :
  In t (getRequestLockTockens request) ->
  isLockToken t = true
  /\ exists header,
       get request "If" = Some header /\ occursIn (bracketed t) header.
Proof.
  unfold getRequestLockTockens. intros H.
  apply in_map_iff in H as (m & <- & H).
  destruct (matchAllLockTokens_sound _ _ _ H) as (t & -> & T & O).
  rewrite slice_bracketed. split; [exact T|].
  destruct (get request "If") as [header|]; simpl in H; [|destruct H].
  exists header. split; [reflexivity|]. unfold orElse in O, H.
  destruct (String.eqb header EmptyString); [destruct H|exact O].
Qed.

Lemma extracted_tokens_are_bracketed_in_If_witness :
  In Sample.tokenB (getRequestLockTockens (Sample.putIf Sample.tokenB))
  /\ isLockToken Sample.tokenB = true.
Proof.
  assert (H : In Sample.tokenB
                (getRequestLockTockens (Sample.putIf Sample.tokenB)))
    by (vm_compute; auto).
  split; [exact H|].
  exact (proj1 (extracted_tokens_are_bracketed_in_If _ _ H)).
Defined.

Lemma getRequestLockTockens_complete request header t :
  get request "If" = Some header ->
  isLockToken t = true ->
  occursIn (bracketed t) header ->
  In t (getRequestLockTockens request).
Proof.
  intros G T (before & behind & ->). unfold getRequestLockTockens.
  rewrite G. apply in_map_iff. exists (bracketed t).
  split; [apply slice_bracketed|].
  assert (E : orElse (Some (before ++ bracketed t ++ behind)%string) EmptyString
              = (before ++ bracketed t ++ behind)%string).
  { unfold orElse.
    destruct (String.eqb _ EmptyString) eqn:Q; [|reflexivity].
    apply String.eqb_eq in Q. symmetry. exact Q. }
  rewrite E. apply matchAllLockTokens_complete; [exact T|reflexivity].
Qed.

(** X2.  A token of that form written between [<] and [>] anywhere in the
    [If] header is returned by [getRequestLockTockens], whatever stands
    before and behind it. *)
Theorem bracketed_token_is_extracted request header t :
  get request "If" = Some header ->
  isLockToken t = true ->
  occursIn (bracketed t) header ->
  In t (getRequestLockTockens request).
Proof. exact (getRequestLockTockens_complete request header t). Qed.

Lemma bracketed_token_is_extracted_witness :
  get (Sample.putIf Sample.tokenB) "If"
  = Some ("(" ++ bracketed Sample.tokenB ++ ")")%string
  /\ isLockToken Sample.tokenB = true
  /\ In Sample.tokenB (getRequestLockTockens (Sample.putIf Sample.tokenB)).
Proof.
  assert (G : get (Sample.putIf Sample.tokenB) "If"
              = Some ("(" ++ bracketed Sample.tokenB ++ ")")%string)
    by (vm_compute; reflexivity).
  assert (T : isLockToken Sample.tokenB = true) by (vm_compute; reflexivity).
  split; [exact G|]. split; [exact T|].
  apply (bracketed_token_is_extracted _ _ _ G T).
  exists "("%string, ")"%string. reflexivity.
Defined.

(** X3.  On a well-formed store, a user who is the principal of a lock of
    the effective lock set and quotes its token (of the form above) between
    [<] and [>] anywhere in the [If] header gets permission 2, for every
    method. *)
Theorem owner_quoting_token_is_permitted
    request resource user w locks w1 header l :
  WellFormed w ->
  getLocks request resource w = Some (locks, w1) ->
  In l (Locks.all locks) ->
  username (Lock.user l) = username user ->
  isLockToken (Lock.token l) = true ->
  get request "If" = Some header ->
  occursIn (bracketed (Lock.token l)) header ->
  exists w2, getLockPermission request resource user w = Some (2, w2).
Proof.
  intros WF H1 Hl U T G O.
  assert (NE : Locks.all locks <> []) by (intros E; rewrite E in Hl; destruct Hl).
  destruct (getLocks_ancestors _ _ _ _ _ H1) as (chain & C).
  destruct (getLocks_view request resource w chain WF C) as (w1' & H1' & P1).
  rewrite H1 in H1'. injection H1' as -> <-.
  destruct (getLocksByUser_view request resource user w w1 chain WF P1 C)
    as (w2 & H2 & _).
  rewrite (getLockPermission_unfold _ _ _ _ _ _ _ _ H1 H2).
  apply lengthTruthy_true in NE. unfold permissionOf. rewrite NE. simpl.
  exists w2. f_equal. f_equal.
  apply permissionWithLocks_owned.
  change (currentLocksByUser user w)
    with (fun r => List.filter (fun lock => sameUser (Lock.user lock) user)
                     (currentLocks w r)).
  rewrite viewOf_filter_all. exists l. split.
  - apply filter_In. split; [exact Hl|]. apply String.eqb_eq, U.
  - apply includes_In. exact (getRequestLockTockens_complete _ _ _ G T O).
Qed.

Lemma owner_quoting_token_is_permitted_witness :
  WellFormed Sample.world
  /\ isLockToken (Lock.token Sample.lockFile) = true
  /\ exists w2,
       getLockPermission (Sample.putIf Sample.tokenB) "/docs/a.txt"
         Sample.alice Sample.world = Some (2, w2).
Proof.
  split; [exact Sample_world_WellFormed|].
  assert (T : isLockToken (Lock.token Sample.lockFile) = true)
    by (vm_compute; reflexivity).
  split; [exact T|].
  destruct (getLocks (Sample.putIf Sample.tokenB) "/docs/a.txt" Sample.world)
    as [[locks w1]|] eqn:E; [|vm_compute in E; discriminate].
  assert (V : Locks.all locks = [Sample.lockFile; Sample.lockDocs]).
  { vm_compute in E. injection E as <- _. reflexivity. }
  assert (G : get (Sample.putIf Sample.tokenB) "If"
              = Some ("(" ++ bracketed (Lock.token Sample.lockFile) ++ ")")%string)
    by (vm_compute; reflexivity).
  apply (owner_quoting_token_is_permitted (Sample.putIf Sample.tokenB)
           "/docs/a.txt" Sample.alice Sample.world locks w1
           ("(" ++ bracketed (Lock.token Sample.lockFile) ++ ")")%string
           Sample.lockFile Sample_world_WellFormed E).
  - rewrite V. left. reflexivity.
  - reflexivity.
  - exact T.
  - exact G.
  - exists "("%string, ")"%string. reflexivity.
Defined.

(** ** The lock engine, further *)

Lemma permissionWithLocks_range request locks userLocks :
  let code := permissionWithLocks request locks userLocks in
  code <= 3
  /\ (code = 3 -> method request = "LOCK"%string)
  /\ (code = 1 -> Locks.depthZero locks <> []).
Proof.
  unfold permissionWithLocks.
  destruct (JS.find _ (Locks.all userLocks)).
  { cbv zeta. (split; [clear; lia|split; discriminate]). }
  destruct (String.eqb (method request) "LOCK") eqn:M.
  - apply String.eqb_eq in M. cbv zeta. rewrite scanLocks_spec.
    destruct (existsb isExclusive (Locks.resource locks)); cbv iota;
      [(split; [clear; lia|split; discriminate])|].
    rewrite scanLocks_spec.
    destruct (existsb isExclusive (Locks.depthInfinity locks)); cbv iota;
      [(split; [clear; lia|split; discriminate])|].
    rewrite scanLocks_spec.
    destruct (existsb isExclusive (Locks.depthZero locks)) eqn:Z; cbv iota.
    + split; [clear; lia|split; [discriminate|]].
      intros _ E. rewrite E in Z. discriminate.
    + split; [|split].
      * repeat match goal with |- context [if ?b then _ else _] => destruct b end; clear; lia.
      * intros _. exact M.
      * repeat match goal with |- context [if ?b then _ else _] => destruct b end;
          discriminate.
  - cbv zeta.
    destruct (lengthTruthy (Locks.depthInfinity locks)
              || lengthTruthy (Locks.resource locks))%bool;
      [(split; [clear; lia|split; discriminate])|].
    destruct (lengthTruthy (Locks.depthZero locks)) eqn:Z;
      [|(split; [clear; lia|split; discriminate])].
    split; [clear; lia|split; [discriminate|]].
    intros _. apply lengthTruthy_true, Z.
Qed.

(** X4.  Whatever [getLockPermission] returns is one of 0, 1, 2, 3; it is 3
    only for a [LOCK] request, and 1 only when the [depthZero] view is not
    empty, that is, when the parent collection holds a depth-0 lock. *)
Theorem getLockPermission_code_range request resource user w code w' :
  getLockPermission request resource user w = Some (code, w') ->
  code <= 3
  /\ (code = 3 -> method request = "LOCK"%string)
  /\ (code = 1 ->
      exists locks w1,
        getLocks request resource w = Some (locks, w1)
        /\ Locks.depthZero locks <> []).
Proof.
  unfold getLockPermission.
  destruct (getLocks request resource w) as [[locks w1]|];
    cbn [mbind option_bind]; [|discriminate].
  destruct (negb (lengthTruthy (Locks.all locks))).
  { intros H. injection H as <- <-.
    (split; [clear; lia|split; discriminate]). }
  destruct (getLocksByUser request resource user w1) as [[userLocks w2]|];
    cbn [mbind option_bind]; [|discriminate].
  intros H. injection H as <- <-.
  destruct (permissionWithLocks_range request locks userLocks) as (R & L & Z).
  split; [exact R|split; [exact L|]].
  intros E. exists locks, w1. split; [reflexivity|exact (Z E)].
Qed.

Lemma getLockPermission_code_range_witness :
  exists w',
    getLockPermission Sample.put "/docs/b.txt" Sample.bob Sample.world
    = Some (1, w')
    /\ exists locks w1,
         getLocks Sample.put "/docs/b.txt" Sample.world = Some (locks, w1)
         /\ Locks.depthZero locks <> [].
Proof.
  destruct (getLockPermission Sample.put "/docs/b.txt" Sample.bob Sample.world)
    as [[code w']|] eqn:E; [|vm_compute in E; discriminate].
  assert (C : code = 1) by (vm_compute in E; injection E as <- _; reflexivity).
  subst code. exists w'. split; [reflexivity|].
  exact (proj2 (proj2 (getLockPermission_code_range _ _ _ _ _ _ E)) eq_refl).
Defined.


Lemma loop_store_other resource locks : forall currentLocks w r,
  Forall (fun l => Lock.resource l = resource) locks ->
  r <> resource ->
  store (snd (removeAndDeleteTimedOutLocks_loop locks currentLocks w)) r
  = store w r.
Proof.
  induction locks as [|l locks IH]; intros acc w r F N; [reflexivity|].
  apply List.Forall_cons_iff in F as [L F]. simpl.
  destruct (Lock.date l + Lock.timeout l <=? now w)%Z; [|apply IH; assumption].
  destruct (Lock_delete l w) as [e w1] eqn:D.
  rewrite IH by assumption.
  assert (Hw : w1 = snd (Lock_delete l w)) by (rewrite D; reflexivity).
  rewrite Hw, Lock_delete_store, L.
  destruct (String.eqb r resource) eqn:Q;
    [apply String.eqb_eq in Q; contradiction|].
  rewrite andb_false_r. reflexivity.
Qed.

(** X5.  On a well-formed store, reading the current locks of a resource
    changes the stored locks of no other resource. *)
Theorem purge_leaves_other_resources resource w r :
  WellFormed w -> r <> resource ->
  store (snd (getCurrentResourceLocks resource w)) r = store w r.
Proof.
  intros WF N. unfold getCurrentResourceLocks, removeAndDeleteTimedOutLocks.
  apply loop_store_other with (resource := resource); [|exact N].
  apply WF.
Qed.

Lemma purge_leaves_other_resources_witness :
  WellFormed Sample.world
  /\ store (snd (getCurrentResourceLocks "/docs/a.txt" Sample.world)) "/docs/"
     = [Sample.lockDocs].
Proof.
  split; [exact Sample_world_WellFormed|].
  rewrite (purge_leaves_other_resources "/docs/a.txt" Sample.world "/docs/"
             Sample_world_WellFormed); [reflexivity|discriminate].
Defined.



Lemma filter_negb_Permutation {A} (p : A -> bool) (l : list A) :
  Permutation (List.filter (fun x => negb (p x)) l ++ List.filter p l) l.
Proof.
  induction l as [|x l IH]; [constructor|]. simpl.
  destruct (p x); simpl.
  - apply Permutation_sym, Permutation_cons_app, Permutation_sym, IH.
  - constructor. exact IH.
Qed.

(** X7.  On a well-formed store [getLocks] and [getProvisionalLocks] split
    the unexpired locks of the resource between them: the two [resource]
    views together hold each stored lock that has not timed out, once, and
    no lock is in the views of both. *)
Theorem committed_and_provisional_locks_split
    request resource w locks w1 plocks w2 :
  WellFormed w ->
  getLocks request resource w = Some (locks, w1) ->
  getProvisionalLocks request resource w = Some (plocks, w2) ->
  Permutation (Locks.resource locks ++ Locks.resource plocks)
    (List.filter (live (now w)) (store w resource))
  /\ (forall l, In l (Locks.all locks) -> ~ In l (Locks.all plocks)).
Proof.
  intros WF H1 H2. split.
  - destruct (getLocks_ancestors _ _ _ _ _ H1) as (chain & C).
    destruct (getLocks_view request resource w chain WF C) as (w1' & H1' & _).
    rewrite H1 in H1'. injection H1' as -> _.
    destruct (getLocksGeneral_spec request w _ _ resource w chain
                (getProvisionalLocks_reader_ok w WF) (Purged_refl w) C)
      as (w2' & H2' & _).
    unfold getProvisionalLocks in H2. rewrite H2 in H2'. injection H2' as -> _.
    destruct (viewOf_shape (currentLocks w) resource chain) as (-> & _).
    destruct (viewOf_shape
                (fun r => List.filter Lock.provisional
                            (List.filter (live (now w)) (store w r)))
                resource chain) as (-> & _).
    unfold currentLocks, notProvisional. apply filter_negb_Permutation.
  - intros l A B.
    pose proof (getLocks_Forall _ _ _ _ _ H1) as F1.
    pose proof (getProvisionalLocks_Forall _ _ _ _ _ H2) as F2.
    apply (proj1 (List.Forall_forall _ _) F1) in A as [_ A].
    apply (proj1 (List.Forall_forall _ _) F2) in B as [_ B].
    unfold notProvisional in A. rewrite B in A. discriminate.
Qed.

Lemma committed_and_provisional_locks_split_witness :
  WellFormed Sample.world
  /\ exists locks w1 plocks w2,
       getLocks Sample.put "/docs/new.txt" Sample.world = Some (locks, w1)
       /\ getProvisionalLocks Sample.put "/docs/new.txt" Sample.world
          = Some (plocks, w2)
       /\ Locks.resource plocks = [Sample.lockProvisional]
       /\ Permutation (Locks.resource locks ++ Locks.resource plocks)
            (List.filter (live (now Sample.world))
               (store Sample.world "/docs/new.txt")).
Proof.
  split; [exact Sample_world_WellFormed|].
  destruct (getLocks Sample.put "/docs/new.txt" Sample.world)
    as [[locks w1]|] eqn:E1; [|vm_compute in E1; discriminate].
  destruct (getProvisionalLocks Sample.put "/docs/new.txt" Sample.world)
    as [[plocks w2]|] eqn:E2; [|vm_compute in E2; discriminate].
  exists locks, w1, plocks, w2. split; [reflexivity|]. split; [reflexivity|].
  split; [vm_compute in E2; injection E2 as <- _; reflexivity|].
  exact (proj1 (committed_and_provisional_locks_split _ _ _ _ _ _ _
                  Sample_world_WellFormed E1 E2)).
Defined.

(** X8.  The parent [getParentResource] returns is a collection path (it
    ends in [/]), it is never longer than the path it was computed from
    (the one-character path [/] apart), and it is strictly shorter than a
    collection path other than [/]. *)
Theorem getParentResource_is_a_shorter_collection request resource parent :
  getParentResource request resource = Some parent ->
  endsWithSlash parent = true
  /\ String.length parent <= Nat.max 1 (String.length resource)
  /\ (endsWithSlash resource = true -> resource <> "/"%string ->
      String.length parent < String.length resource).
Proof.
  rewrite getParentResource_parentPath.
  destruct (String.eqb (parentPath resource) _); [discriminate|].
  intros H. injection H as <-.
  split; [apply parentPath_ends|]. split.
  - pose proof (parentPath_length resource).
    pose proof (replaceEndSlash_length "" resource). simpl in *. lia.
  - apply parentPath_shorter.
Qed.

Lemma getParentResource_is_a_shorter_collection_witness :
  getParentResource Sample.put "/docs/sub/" = Some "/docs/"%string
  /\ endsWithSlash "/docs/" = true
  /\ String.length "/docs/" < String.length "/docs/sub/".
Proof.
  assert (G : getParentResource Sample.put "/docs/sub/" = Some "/docs/"%string)
    by (vm_compute; reflexivity).
  split; [exact G|].
  destruct (getParentResource_is_a_shorter_collection _ _ _ G) as (E & _ & L).
  split; [exact E|]. apply L; [reflexivity|discriminate].
Defined.

Lemma replaceEndSlash_no_final_slash r s :
  endsWithSlash s = false -> JS.replaceEndSlash r s = (s ++ r)%string.
Proof.
  induction s as [|c s IH]; [reflexivity|]. intros E.
  cbn [endsWithSlash] in E. cbn [JS.replaceEndSlash].
  change (String c s ++ r)%string with (String c (s ++ r)).
  destruct (String.eqb s EmptyString) eqn:Q.
  - rewrite E. cbn [andb]. apply String.eqb_eq in Q. subst s. reflexivity.
  - rewrite andb_false_r. rewrite IH by exact E. reflexivity.
Qed.

Lemma replaceEndSlash_final_slash r s :
  JS.replaceEndSlash r (s ++ "/")%string = (s ++ r)%string.
Proof.
  induction s as [|c s IH]; [reflexivity|].
  change (String c s ++ "/")%string with (String c (s ++ "/")).
  change (String c s ++ r)%string with (String c (s ++ r)).
  cbn [JS.replaceEndSlash].
  destruct (String.eqb (s ++ "/") EmptyString) eqn:Q.
  - apply String.eqb_eq in Q. destruct s; discriminate.
  - rewrite andb_false_r. rewrite IH. reflexivity.
Qed.

(** X9.  A path without a final slash and the same path with one have the
    same parent: [getParentResource] does not tell a collection's path from
    the path of a file of that name. *)
Theorem getParentResource_ignores_final_slash request path :
  endsWithSlash path = false ->
  getParentResource request (path ++ "/")%string
  = getParentResource request path.
Proof.
  intros E. unfold getParentResource.
  rewrite replaceEndSlash_final_slash.
  rewrite (replaceEndSlash_no_final_slash "" path E). reflexivity.
Qed.

Lemma getParentResource_ignores_final_slash_witness :
  endsWithSlash "/docs/sub" = false
  /\ getParentResource Sample.put ("/docs/sub" ++ "/")%string
     = getParentResource Sample.put "/docs/sub".
Proof.
  split; [reflexivity|].
  apply getParentResource_ignores_final_slash. reflexivity.
Defined.

(** ** Instances of the general facts above *)

Lemma walkParents_fuel_enough_witness :
  walkParents (walkFuel "/x") (mkRequest "PUT" "/dav" [])
    (fun _ w => ([], w)) (getParentResource (mkRequest "PUT" "/dav" []) "/x")
    true (Locks.mk [] [] [] []) Sample.world = None
  /\ walkParents 1000 (mkRequest "PUT" "/dav" [])
       (fun _ w => ([], w)) (getParentResource (mkRequest "PUT" "/dav" []) "/x")
       true (Locks.mk [] [] [] []) Sample.world = None.
Proof.
  assert (H : walkParents (walkFuel "/x") (mkRequest "PUT" "/dav" [])
                (fun _ w => ([], w))
                (getParentResource (mkRequest "PUT" "/dav" []) "/x")
                true (Locks.mk [] [] [] []) Sample.world = None)
    by (vm_compute; reflexivity).
  split; [exact H|].
  exact (walkParents_fuel_enough _ _ _ _ _ _ H 1000).
Defined.

Lemma getLocks_closed_form_witness :
  WellFormed Sample.world
  /\ exists locks w1,
       getLocks Sample.put "/docs/a.txt" Sample.world = Some (locks, w1)
       /\ Locks.resource locks = currentLocks Sample.world "/docs/a.txt"
       /\ Permutation (Locks.all locks)
            (Locks.resource locks ++ Locks.depthZero locks
             ++ Locks.depthInfinity locks).
Proof.
  split; [exact Sample_world_WellFormed|].
  destruct (getLocks Sample.put "/docs/a.txt" Sample.world)
    as [[locks w1]|] eqn:E; [|vm_compute in E; discriminate].
  exists locks, w1. split; [reflexivity|].
  destruct (getLocks_closed_form Sample.put "/docs/a.txt" Sample.world locks w1
              Sample_world_WellFormed E) as (chain & _ & R & _ & _ & P & _).
  split; [exact R|exact P].
Defined.

Lemma root_collection_locks_reach_no_member_witness :
  JS.replaceEndSlash "/" (baseUrl Sample.put) = "/"%string
  /\ noSlash "a" = true
  /\ exists locks w1,
       getLocks Sample.put "/a" Sample.worldRootLocked = Some (locks, w1)
       /\ Locks.depthZero locks = [] /\ Locks.depthInfinity locks = []
       /\ Locks.all locks = Locks.resource locks.
Proof.
  split; [reflexivity|]. split; [reflexivity|].
  exact (root_collection_locks_reach_no_member Sample.put "a"
           Sample.worldRootLocked eq_refl eq_refl).
Defined.

(** ** The property store of the file-system adapter *)

Section PropertyStore.

Import FileSystemAdapter.

Variable getPropFilePath : Resource -> string.
Variable getStats : Resource -> Error + Properties.Stats.
Variable getLength : Resource -> Error + Z.
Variable getMediaType : Resource -> Error + string.
Variable getEtag : Resource -> Error + string.
Variable isCollection : Resource -> Error + bool.

Lemma getLive_listed resource name :
  In name Properties.listLive ->
  exists value,
    Properties.getLive getStats getLength getMediaType getEtag isCollection
      resource name = Some value.
Proof.
  unfold Properties.listLive. simpl.
  intros [<-|[<-|[<-|[<-|[<-|[<-|[<-|[<-|[]]]]]]]]];
    unfold Properties.getLive; simpl; eexists; reflexivity.
Qed.

Lemma getLive_unlisted resource name :
  ~ In name Properties.listLive ->
  Properties.getLive getStats getLength getMediaType getEtag isCollection
    resource name = None.
Proof.
  unfold Properties.listLive. simpl. intros N. unfold Properties.getLive.
  repeat match goal with
         | |- context [String.eqb name ?s] =>
             let E := fresh "E" in
             destruct (String.eqb name s) eqn:E;
             [apply String.eqb_eq in E; exfalso; apply N; subst name;
              repeat first [left; reflexivity|right]
             |clear E]
         end.
  reflexivity.
Qed.

Lemma set_unlisted resource name value fs :
  ~ In name Properties.listLive ->
  set getPropFilePath resource name value fs
  = match readProps (getPropFilePath resource) fs with
    | (inr props, fs) => setDead (getPropFilePath resource) props name value fs
    | (inl e, fs) =>
        if negb (String.eqb (errorCode e) "ENOENT") then (inl e, fs)
        else setDead (getPropFilePath resource) ∅ name value fs
    end.
Proof.
  intros N. unfold set.
  destruct (JS.indexOf liveProperties name >? -1)%Z eqn:L; [|reflexivity].
  apply indexOf_In in L. contradiction.
Qed.

(** X12.  The names [set] refuses, the names [get] answers without reading
    the property file, and the names [listLive] returns are the same. *)
Theorem live_names_agree resource name value fs :
  ((exists message,
      fst (set getPropFilePath resource name value fs)
      = inl (PropertyIsProtectedError message))
   <-> In name Properties.listLive)
  /\ (trace
        (snd (Properties.get getPropFilePath getStats getLength getMediaType
                getEtag isCollection resource name fs)) = trace fs
      <-> In name Properties.listLive).
Proof.
  destruct (in_dec string_dec name Properties.listLive) as [L|N].
  - split; (split; [intros _; exact L|intros _]).
    + unfold set. change (In name liveProperties) in L.
      apply indexOf_In in L. rewrite L. eexists. reflexivity.
    + unfold Properties.get.
      destruct (getLive_listed resource name L) as (v & ->). reflexivity.
  - split; (split; [|intros L; contradiction]).
    + intros (m & H). exfalso. rewrite (set_unlisted _ _ _ _ N) in H.
      unfold readProps in H.
      destruct (files fs !! getPropFilePath resource) as [[props|code]|];
        cbn [errorCode] in H.
      * unfold setDead in H.
        repeat match type of H with
               | context [match ?x with _ => _ end] => destruct x
               end; discriminate.
      * destruct (negb (String.eqb code "ENOENT")); [discriminate|].
        unfold setDead in H.
        repeat match type of H with
               | context [match ?x with _ => _ end] => destruct x
               end; discriminate.
      * simpl in H. unfold setDead in H.
        repeat match type of H with
               | context [match ?x with _ => _ end] => destruct x
               end; discriminate.
    + intros H. exfalso. unfold Properties.get in H.
      rewrite (getLive_unlisted resource name N) in H.
      unfold readProps in H.
      assert (L : forall t : list IOEvent, forall e, t ++ [e] <> t).
      { intros t e E. apply (f_equal (@List.length _)) in E.
        rewrite length_app in E. simpl in E. lia. }
      destruct (files fs !! getPropFilePath resource) as [[props|code]|];
        cbn [errorCode] in H.
      * destruct (props !! "*"); exact (L _ _ H).
      * destruct (String.eqb code "ENOENT"); exact (L _ _ H).
      * simpl in H. exact (L _ _ H).
Qed.

(** For a name of [listLive], [get] never throws and never consults
    the property file: a failing call of the resource gives [undefined],
    and the answer is the same whatever the file system holds. *)
Theorem get_live_never_throws resource name :
  In name Properties.listLive ->
  exists value,
    forall fs,
      Properties.get getPropFilePath getStats getLength getMediaType getEtag
        isCollection resource name fs = (inr value, fs).
Proof.
  intros L. destruct (getLive_listed resource name L) as (v & E).
  exists v. intros fs. unfold Properties.get. rewrite E. reflexivity.
Qed.

Lemma readProps_written path props fs :
  fst (readProps path (writeProps path props fs)) = inr props.
Proof.
  unfold readProps, writeProps. cbn [files]. rewrite lookup_insert_eq.
  reflexivity.
Qed.

Lemma setDead_Some path props name value fs :
  setDead path props name (Some value) fs
  = (inr tt,
     writeProps path
       (<["*" := <[name := value]> (default ∅ (props !! "*"))]> props) fs).
Proof.
  unfold setDead. destruct (props !! "*") as [star|] eqn:E.
  - rewrite bool_decide_true by eauto. rewrite E. reflexivity.
  - rewrite bool_decide_false by (intros [x X]; discriminate).
    rewrite lookup_insert_eq, insert_insert_eq. reflexivity.
Qed.

Lemma get_unlisted resource name fs :
  ~ In name Properties.listLive ->
  Properties.get getPropFilePath getStats getLength getMediaType getEtag
    isCollection resource name fs
  = match readProps (getPropFilePath resource) fs with
    | (inr props, fs) =>
        match props !! "*" with
        | Some star => (inr (Properties.Text <$> star !! name), fs)
        | None => (inl Properties.TypeError, fs)
        end
    | (inl e, fs) =>
        if String.eqb (errorCode e) "ENOENT" then (inr None, fs)
        else (inl (Properties.Thrown e), fs)
    end.
Proof.
  intros N. unfold Properties.get. rewrite (getLive_unlisted _ _ N).
  reflexivity.
Qed.

Lemma set_succeeds_unlisted resource name value fs :
  fst (set getPropFilePath resource name value fs) = inr tt ->
  ~ In name Properties.listLive.
Proof.
  intros H L. unfold set in H. change (In name liveProperties) in L.
  apply indexOf_In in L. rewrite L in H. discriminate.
Qed.

(** What [get] returns for [name] when the property file of the resource
    holds [file], or is missing ([None]). *)
Lemma get_from_file resource name fs :
  fst (Properties.get getPropFilePath getStats getLength getMediaType getEtag
         isCollection resource name fs)
  = match Properties.getLive getStats getLength getMediaType getEtag
            isCollection resource name with
    | Some value => inr value
    | None =>
        match files fs !! getPropFilePath resource with
        | Some (Document props) =>
            match props !! "*" with
            | Some star => inr (Properties.Text <$> star !! name)
            | None => inl Properties.TypeError
            end
        | Some (Unreadable code) =>
            if String.eqb code "ENOENT" then inr None
            else inl (Properties.Thrown (IOError code))
        | None => inr None
        end
    end.
Proof.
  unfold Properties.get.
  destruct (Properties.getLive _ _ _ _ _ resource name); [reflexivity|].
  unfold readProps.
  destruct (files fs !! getPropFilePath resource) as [[props|code]|];
    cbn [errorCode].
  - destruct (props !! "*"); reflexivity.
  - destruct (String.eqb code "ENOENT"); reflexivity.
  - reflexivity.
Qed.

Lemma set_Some_file resource name value fs :
  fst (set getPropFilePath resource name (Some value) fs) = inr tt ->
  exists props,
    (files fs !! getPropFilePath resource = Some (Document props)
     \/ (props = ∅
         /\ (files fs !! getPropFilePath resource = None
             \/ files fs !! getPropFilePath resource
                = Some (Unreadable "ENOENT"))))
    /\ files (snd (set getPropFilePath resource name (Some value) fs))
         !! getPropFilePath resource
       = Some (Document
                 (<["*" := <[name := value]> (default ∅ (props !! "*"))]>
                    props)).
Proof.
  intros OK.
  pose proof (set_succeeds_unlisted _ _ _ _ OK) as N.
  rewrite (set_unlisted _ _ _ _ N) in OK |- *.
  unfold readProps in OK |- *.
  destruct (files fs !! getPropFilePath resource) as [[props|code]|] eqn:F;
    cbn [errorCode] in OK |- *.
  - exists props. split; [left; reflexivity|].
    rewrite setDead_Some. cbn [snd writeProps files].
    apply lookup_insert_eq.
  - destruct (String.eqb code "ENOENT") eqn:Q; cbn [negb] in OK |- *;
      [|discriminate].
    apply String.eqb_eq in Q. subst code.
    exists ∅. split; [right; auto|].
    rewrite setDead_Some. cbn [snd writeProps files].
    apply lookup_insert_eq.
  - exists ∅. split; [right; auto|]. cbn [negb String.eqb Ascii.eqb].
    change (if negb ("ENOENT" =? "ENOENT")%string then _ else _)
      with (setDead (getPropFilePath resource) ∅ name (Some value)
              {| files := files fs;
                 trace := trace fs ++ [ReadFile (getPropFilePath resource)] |}).
    rewrite setDead_Some. cbn [snd writeProps files].
    apply lookup_insert_eq.
Qed.

(** X13.  For a name that is not a member of [Object.prototype], a value
    stored with [set] is what [get] returns afterwards, and [get] answers
    for every other such name as it did before. *)
Theorem set_then_get resource name value fs :
  isPlainKey name = true ->
  fst (set getPropFilePath resource name (Some value) fs) = inr tt ->
  let fs' := snd (set getPropFilePath resource name (Some value) fs) in
  fst (Properties.get getPropFilePath getStats getLength getMediaType getEtag
         isCollection resource name fs') = inr (Some (Properties.Text value))
  /\ forall other answer,
       isPlainKey other = true ->
       other <> name ->
       fst (Properties.get getPropFilePath getStats getLength getMediaType
              getEtag isCollection resource other fs) = inr answer ->
       fst (Properties.get getPropFilePath getStats getLength getMediaType
              getEtag isCollection resource other fs') = inr answer.
Proof.
  intros _ OK fs'.
  pose proof (set_succeeds_unlisted _ _ _ _ OK) as N.
  destruct (set_Some_file _ _ _ _ OK) as (props & Before & After).
  fold fs' in After.
  split.
  - rewrite get_from_file, (getLive_unlisted _ _ N), After.
    rewrite lookup_insert_eq, lookup_insert_eq. reflexivity.
  - intros other answer _ D. rewrite !get_from_file.
    destruct (Properties.getLive _ _ _ _ _ resource other); [auto|].
    rewrite After, lookup_insert_eq, lookup_insert_ne by congruence.
    destruct Before as [->|[-> [->| ->]]].
    + destruct (props !! "*"); [auto|discriminate].
    + intros H. injection H as <-. rewrite lookup_empty. reflexivity.
    + intros H. injection H as <-. rewrite lookup_empty. reflexivity.
Qed.

(** X14.  For a name that is not a member of [Object.prototype], after
    [set] with the value [undefined] [get] returns no value for the name
    and answers for every other such name as before; and when [get]
    returned [undefined] for the name beforehand, the property file is read
    but not written. *)
Theorem remove_then_get resource name fs :
  isPlainKey name = true ->
  fst (set getPropFilePath resource name None fs) = inr tt ->
  let fs' := snd (set getPropFilePath resource name None fs) in
  (forall value,
     fst (Properties.get getPropFilePath getStats getLength getMediaType
            getEtag isCollection resource name fs') <> inr (Some value))
  /\ (forall other answer,
        isPlainKey other = true ->
        other <> name ->
        fst (Properties.get getPropFilePath getStats getLength getMediaType
               getEtag isCollection resource other fs) = inr answer ->
        fst (Properties.get getPropFilePath getStats getLength getMediaType
               getEtag isCollection resource other fs') = inr answer)
  /\ (fst (Properties.get getPropFilePath getStats getLength getMediaType
             getEtag isCollection resource name fs) = inr None ->
      files fs' = files fs
      /\ trace fs' = trace fs ++ [ReadFile (getPropFilePath resource)]).
Proof.
  intros _ OK fs'.
  pose proof (set_succeeds_unlisted _ _ _ _ OK) as N.
  assert (G : forall n,
            fst (Properties.get getPropFilePath getStats getLength getMediaType
                   getEtag isCollection resource n fs')
            = match Properties.getLive getStats getLength getMediaType getEtag
                      isCollection resource n with
              | Some v => inr v
              | None =>
                  match files fs' !! getPropFilePath resource with
                  | Some (Document props) =>
                      match props !! "*" with
                      | Some star => inr (Properties.Text <$> star !! n)
                      | None => inl Properties.TypeError
                      end
                  | Some (Unreadable code) =>
                      if String.eqb code "ENOENT" then inr None
                      else inl (Properties.Thrown (IOError code))
                  | None => inr None
                  end
              end) by (intros n; apply get_from_file).
  assert (G0 := fun n => get_from_file resource n fs).
  rewrite G. setoid_rewrite G. setoid_rewrite G0.
  rewrite (getLive_unlisted _ _ N).
  unfold fs' in *. clear G G0 fs'.
  rewrite (set_unlisted _ _ _ _ N) in OK |- *.
  unfold readProps in OK |- *.
  destruct (files fs !! getPropFilePath resource) as [[props|code]|] eqn:F;
    cbn [errorCode] in OK |- *.
  - unfold setDead. destruct (props !! "*") as [star|] eqn:S.
    + destruct (star !! name) as [old|] eqn:O.
      * rewrite bool_decide_true by eauto.
        cbn [snd writeProps files trace]. rewrite lookup_insert_eq.
        rewrite lookup_insert_eq. split; [|split].
        -- intros v. rewrite lookup_delete_eq. discriminate.
        -- intros other answer _ D.
           destruct (Properties.getLive _ _ _ _ _ resource other); [auto|].
           rewrite lookup_delete_ne by congruence. auto.
        -- discriminate.
      * rewrite bool_decide_false by (intros [x X]; discriminate).
        cbn [snd files trace]. rewrite F, S, O. split; [|split].
        -- discriminate.
        -- auto.
        -- auto.
    + cbn [snd files trace]. rewrite F, S. split; [|split].
      * discriminate.
      * auto.
      * auto.
  - destruct (String.eqb code "ENOENT") eqn:Q; cbn [negb] in OK |- *;
      [|discriminate].
    unfold setDead. rewrite lookup_empty. cbn [snd files trace].
    rewrite F, Q. split; [|split]; [discriminate|auto|auto].
  - change (if negb ("ENOENT" =? "ENOENT")%string then _ else _)
      with (setDead (getPropFilePath resource) ∅ name None
              {| files := files fs;
                 trace := trace fs ++ [ReadFile (getPropFilePath resource)] |}).
    unfold setDead. rewrite lookup_empty. cbn [snd files trace].
    rewrite F. split; [|split]; [discriminate|auto|auto].
Qed.

(** X15.  When reading the property file fails with an error other than
    [ENOENT], [set], [get] of a name outside [listLive], [getAll],
    [listDead] and [list] all throw that error, and [set] writes
    nothing. *)
Theorem unreadable_property_file resource name value fs code :
  ~ In name Properties.listLive ->
  files fs !! getPropFilePath resource = Some (Unreadable code) ->
  code <> "ENOENT"%string ->
  fst (set getPropFilePath resource name value fs) = inl (IOError code)
  /\ files (snd (set getPropFilePath resource name value fs)) = files fs
  /\ fst (Properties.get getPropFilePath getStats getLength getMediaType
            getEtag isCollection resource name fs)
     = inl (Properties.Thrown (IOError code))
  /\ fst (Properties.getAll getPropFilePath getStats getLength getMediaType
            getEtag isCollection resource fs)
     = inl (Properties.Thrown (IOError code))
  /\ fst (Properties.listDead getPropFilePath resource fs)
     = inl (Properties.Thrown (IOError code))
  /\ fst (Properties.list getPropFilePath resource fs)
     = inl (Properties.Thrown (IOError code)).
Proof.
  intros N F C. apply String.eqb_neq in C.
  rewrite (set_unlisted _ _ _ _ N), get_from_file, (getLive_unlisted _ _ N).
  unfold Properties.getAll, Properties.list, Properties.listDead,
    Properties.readOrEmpty, readProps.
  rewrite F. cbn [errorCode]. rewrite C. cbn [negb fst snd files].
  repeat split.
Qed.

(** X16.  A resource without a property file reads as one without dead
    properties: [get] of a name outside [listLive] returns [undefined],
    [listDead] returns the two names it always lists, removing a property
    writes nothing, and storing one under a name that is not a member of
    [Object.prototype] creates the file with that property alone. *)
Theorem missing_property_file resource name value fs :
  ~ In name Properties.listLive ->
  files fs !! getPropFilePath resource = None ->
  fst (Properties.get getPropFilePath getStats getLength getMediaType
         getEtag isCollection resource name fs) = inr None
  /\ fst (Properties.listDead getPropFilePath resource fs)
     = inr ["displayname"; "getcontentlanguage"]%string
  /\ files (snd (set getPropFilePath resource name None fs)) = files fs
  /\ (isPlainKey name = true ->
      files (snd (set getPropFilePath resource name (Some value) fs))
      = <[getPropFilePath resource
          := Document {[ "*"%string := {[ name := value ]} ]}]> (files fs)).
Proof.
  intros N F.
  rewrite get_from_file, (getLive_unlisted _ _ N), !(set_unlisted _ _ _ _ N).
  unfold Properties.listDead, Properties.readOrEmpty, readProps.
  rewrite F. cbn [errorCode].
  change (negb ("ENOENT" =? "ENOENT")%string) with false. cbv iota.
  rewrite setDead_Some. unfold setDead. rewrite lookup_empty.
  cbn [fst snd files writeProps default].
  repeat split.
Qed.

(** X17.  On a property file whose document lacks the key [*], [get] of a
    name outside [listLive] throws a [TypeError], while [getAll] and
    [listDead] succeed and show no dead property. *)
Theorem document_without_star resource name fs props :
  ~ In name Properties.listLive ->
  files fs !! getPropFilePath resource = Some (Document props) ->
  props !! "*"%string = None ->
  fst (Properties.get getPropFilePath getStats getLength getMediaType
         getEtag isCollection resource name fs) = inl Properties.TypeError
  /\ (exists object,
        fst (Properties.getAll getPropFilePath getStats getLength getMediaType
               getEtag isCollection resource fs) = inr object
        /\ Properties.member object name = None)
  /\ fst (Properties.listDead getPropFilePath resource fs)
     = inr ["displayname"; "getcontentlanguage"]%string.
Proof.
  intros N F S.
  rewrite get_from_file, (getLive_unlisted _ _ N), F, S.
  split; [reflexivity|].
  unfold Properties.getAll, Properties.listDead, Properties.readOrEmpty,
    readProps.
  rewrite F, S. cbn [default]. split; [|reflexivity].
  eexists. split; [reflexivity|].
  unfold Properties.member.
  assert (D : forall n, n <> name ->
            forall (v : option Properties.Value)
                   (m : gmap string (option Properties.Value)),
              default None (m !! name) = None ->
              default None (<[n := v]> m !! name) = None).
  { intros n Dn v m H. rewrite lookup_insert_ne by exact Dn. exact H. }
  unfold Properties.listLive in N. simpl in N.
  repeat (apply D;
          [intros E; apply N; repeat first [left; exact E|right]|]).
  rewrite fmap_empty, lookup_empty. reflexivity.
Qed.

Lemma withLive_step names resource name value object fs :
  Properties.getLive getStats getLength getMediaType getEtag isCollection
    resource name = Some value ->
  Properties.withLive getPropFilePath getStats getLength getMediaType getEtag
    isCollection (name :: names) resource object fs
  = Properties.withLive getPropFilePath getStats getLength getMediaType getEtag
      isCollection names resource (<[name := value]> object) fs.
Proof.
  intros E. cbn [Properties.withLive]. unfold Properties.get at 1.
  rewrite E. reflexivity.
Qed.

(** The object [getAll] builds from the dead properties [spread]. *)
Lemma withLive_all resource spread fs :
  exists v1 v2 v3 v4 v5 v6 v7 v8,
    Properties.withLive getPropFilePath getStats getLength getMediaType getEtag
      isCollection
      ["creationdate"; "getcontentlength"; "getcontenttype"; "getetag";
       "getlastmodified"; "lockdiscovery"; "resourcetype"; "supportedlock"]
      resource spread fs
    = (inr (<["supportedlock" := v8]>
              (<["resourcetype" := v7]>
                 (<["lockdiscovery" := v6]>
                    (<["getlastmodified" := v5]>
                       (<["getetag" := v4]>
                          (<["getcontenttype" := v3]>
                             (<["getcontentlength" := v2]>
                                (<["creationdate" := v1]> spread)))))))), fs)
    /\ forall name value,
         Properties.getLive getStats getLength getMediaType getEtag
           isCollection resource name = Some value ->
         (name = "creationdate" /\ value = v1)%string
         \/ (name = "getcontentlength" /\ value = v2)%string
         \/ (name = "getcontenttype" /\ value = v3)%string
         \/ (name = "getetag" /\ value = v4)%string
         \/ (name = "getlastmodified" /\ value = v5)%string
         \/ (name = "lockdiscovery" /\ value = v6)%string
         \/ (name = "resourcetype" /\ value = v7)%string
         \/ (name = "supportedlock" /\ value = v8)%string.
Proof.
  destruct (getLive_listed resource "creationdate") as (v1 & E1);
    [vm_compute; tauto|].
  destruct (getLive_listed resource "getcontentlength") as (v2 & E2);
    [vm_compute; tauto|].
  destruct (getLive_listed resource "getcontenttype") as (v3 & E3);
    [vm_compute; tauto|].
  destruct (getLive_listed resource "getetag") as (v4 & E4);
    [vm_compute; tauto|].
  destruct (getLive_listed resource "getlastmodified") as (v5 & E5);
    [vm_compute; tauto|].
  destruct (getLive_listed resource "lockdiscovery") as (v6 & E6);
    [vm_compute; tauto|].
  destruct (getLive_listed resource "resourcetype") as (v7 & E7);
    [vm_compute; tauto|].
  destruct (getLive_listed resource "supportedlock") as (v8 & E8);
    [vm_compute; tauto|].
  exists v1, v2, v3, v4, v5, v6, v7, v8. split.
  - rewrite (withLive_step _ _ _ _ _ _ E1), (withLive_step _ _ _ _ _ _ E2),
      (withLive_step _ _ _ _ _ _ E3), (withLive_step _ _ _ _ _ _ E4),
      (withLive_step _ _ _ _ _ _ E5), (withLive_step _ _ _ _ _ _ E6),
      (withLive_step _ _ _ _ _ _ E7), (withLive_step _ _ _ _ _ _ E8).
    reflexivity.
  - intros name value E.
    destruct (in_dec string_dec name Properties.listLive) as [L|N];
      [|rewrite (getLive_unlisted _ _ N) in E; discriminate].
    unfold Properties.listLive in L. simpl in L.
    destruct L as [<-|[<-|[<-|[<-|[<-|[<-|[<-|[<-|[]]]]]]]]];
      [rewrite E1 in E|rewrite E2 in E|rewrite E3 in E|rewrite E4 in E
      |rewrite E5 in E|rewrite E6 in E|rewrite E7 in E|rewrite E8 in E];
      injection E as <-; tauto.
Qed.

Lemma getAll_succeeds resource fs props :
  files fs !! getPropFilePath resource = Some (Document props) ->
  exists object,
    fst (Properties.getAll getPropFilePath getStats getLength getMediaType
           getEtag isCollection resource fs) = inr object.
Proof.
  intros F. unfold Properties.getAll, Properties.readOrEmpty, readProps.
  rewrite F.
  match goal with
  | |- context [Properties.withLive _ _ _ _ _ _ _ resource ?spread ?fs1] =>
      destruct (withLive_all resource spread fs1)
        as (v1 & v2 & v3 & v4 & v5 & v6 & v7 & v8 & E & _)
  end.
  rewrite E. eexists. reflexivity.
Qed.

(** X18.  The object [getAll] returns agrees with [get]: whenever both
    succeed, the object's member of a name is what [get] returns for it. *)
Theorem getAll_agrees_with_get resource fs object name answer :
  fst (Properties.getAll getPropFilePath getStats getLength getMediaType
         getEtag isCollection resource fs) = inr object ->
  fst (Properties.get getPropFilePath getStats getLength getMediaType getEtag
         isCollection resource name fs) = inr answer ->
  Properties.member object name = answer.
Proof.
  rewrite get_from_file.
  unfold Properties.getAll, Properties.readOrEmpty, readProps.
  set (spreadOf := fun props : gmap string (gmap string string) =>
         ((fun value => Some (Properties.Text value))
            <$> default ∅ (props !! "*") : gmap string (option Properties.Value))).
  assert (K : forall props fs1 object,
            fst (Properties.withLive getPropFilePath getStats getLength
                   getMediaType getEtag isCollection
                   ["creationdate"; "getcontentlength"; "getcontenttype";
                    "getetag"; "getlastmodified"; "lockdiscovery";
                    "resourcetype"; "supportedlock"]%string
                   resource (spreadOf props) fs1) = inr object ->
            match Properties.getLive getStats getLength getMediaType getEtag
                    isCollection resource name with
            | Some value => Properties.member object name = value
            | None =>
                Properties.member object name
                = Properties.Text <$> default ∅ (props !! "*") !! name
            end).
  { intros props fs1 obj H.
    destruct (withLive_all resource (spreadOf props) fs1)
      as (v1 & v2 & v3 & v4 & v5 & v6 & v7 & v8 & E & Live).
    rewrite E in H. cbn [fst] in H. injection H as <-.
    unfold Properties.member.
    destruct (Properties.getLive _ _ _ _ _ resource name) as [value|] eqn:G.
    - destruct (Live name value G)
        as [[-> ->]|[[-> ->]|[[-> ->]|[[-> ->]|[[-> ->]|[[-> ->]|[[-> ->]|[-> ->]]]]]]]];
        repeat (rewrite lookup_insert_ne by discriminate);
        rewrite lookup_insert_eq; reflexivity.
    - assert (N : ~ In name Properties.listLive).
      { intros L. destruct (getLive_listed resource name L) as (v & V).
        congruence. }
      unfold Properties.listLive in N. simpl in N.
      repeat (rewrite lookup_insert_ne by (intros Q; apply N; tauto)).
      unfold spreadOf. rewrite lookup_fmap.
      destruct (default ∅ (props !! "*") !! name); reflexivity. }
  destruct (files fs !! getPropFilePath resource) as [[props|code]|];
    cbn [errorCode].
  - intros H. apply K in H.
    destruct (Properties.getLive _ _ _ _ _ resource name);
      [intros A; injection A as <-; exact H|].
    destruct (props !! "*") as [star|]; [|discriminate].
    intros A. injection A as <-. exact H.
  - destruct (String.eqb code "ENOENT"); cbn [negb]; [|discriminate].
    intros H. apply (K ∅) in H.
    destruct (Properties.getLive _ _ _ _ _ resource name);
      [intros A; injection A as <-; exact H|].
    intros A. injection A as <-. rewrite H, lookup_empty. cbn [default].
    rewrite lookup_empty. reflexivity.
  - change (negb ("ENOENT" =? "ENOENT")%string) with false. cbv iota.
    intros H. apply (K ∅) in H.
    destruct (Properties.getLive _ _ _ _ _ resource name);
      [intros A; injection A as <-; exact H|].
    intros A. injection A as <-. rewrite H, lookup_empty. cbn [default].
    rewrite lookup_empty. reflexivity.
Qed.

Lemma keys_In (o : gmap string string) name :
  In name (Properties.keys o) <-> is_Some (o !! name).
Proof.
  unfold Properties.keys. rewrite in_map_iff. split.
  - intros ([k v] & <- & H). apply list_elem_of_In in H.
    apply elem_of_map_to_list in H. eauto.
  - intros [v H]. exists (name, v). split; [reflexivity|].
    apply list_elem_of_In, elem_of_map_to_list. exact H.
Qed.

(** A name stored with [set] that is not a member of [Object.prototype]
    is among the names [listDead] and [list] return afterwards; [list] is
    [listLive] followed by [listDead]. *)
Theorem stored_name_is_listed resource name value fs :
  isPlainKey name = true ->
  fst (set getPropFilePath resource name (Some value) fs) = inr tt ->
  let fs' := snd (set getPropFilePath resource name (Some value) fs) in
  exists dead,
    fst (Properties.listDead getPropFilePath resource fs') = inr dead
    /\ In name dead
    /\ fst (Properties.list getPropFilePath resource fs')
       = inr (Properties.listLive ++ dead).
Proof.
  intros _ OK fs'.
  destruct (set_Some_file _ _ _ _ OK) as (props & _ & After).
  fold fs' in After.
  unfold Properties.list, Properties.listDead, Properties.readOrEmpty,
    readProps.
  rewrite After. cbn [fst]. eexists. split; [reflexivity|].
  split; [|reflexivity].
  right. right. apply keys_In.
  rewrite lookup_insert_eq. cbn [default from_option id].
  rewrite lookup_insert_eq. eauto.
Qed.

End PropertyStore.

Lemma get_live_never_throws_witness :
  In "getcontenttype"%string Properties.listLive
  /\ Properties.get FileSample.propFileOf PropertySample.getStats
       PropertySample.getLength PropertySample.getMediaType
       PropertySample.getEtag PropertySample.isCollection
       "/docs/a.txt" "getcontenttype" PropertySample.brokenDisk
     = (inr None, PropertySample.brokenDisk).
Proof.
  assert (L : In "getcontenttype"%string Properties.listLive)
    by (vm_compute; tauto).
  split; [exact L|].
  destruct (get_live_never_throws FileSample.propFileOf PropertySample.getStats
              PropertySample.getLength PropertySample.getMediaType
              PropertySample.getEtag PropertySample.isCollection
              "/docs/a.txt" "getcontenttype" L) as (v & E).
  rewrite E. f_equal. f_equal.
  assert (V : (inr v, PropertySample.emptyDisk)
              = (@inr Properties.Exception _ None, PropertySample.emptyDisk)).
  { rewrite <- E. vm_compute. reflexivity. }
  congruence.
Defined.

Lemma set_then_get_witness :
  isPlainKey "color" = true
  /\ fst (FileSystemAdapter.set FileSample.propFileOf "/docs/a.txt" "color"
            (Some "red"%string) FileSample.disk) = inr tt
  /\ fst (Properties.get FileSample.propFileOf PropertySample.getStats
            PropertySample.getLength PropertySample.getMediaType
            PropertySample.getEtag PropertySample.isCollection
            "/docs/a.txt" "color"
            (snd (FileSystemAdapter.set FileSample.propFileOf "/docs/a.txt"
                    "color" (Some "red"%string) FileSample.disk)))
     = inr (Some (Properties.Text "red")).
Proof.
  assert (K : isPlainKey "color" = true) by reflexivity.
  assert (OK : fst (FileSystemAdapter.set FileSample.propFileOf "/docs/a.txt"
                      "color" (Some "red"%string) FileSample.disk) = inr tt)
    by (vm_compute; reflexivity).
  split; [exact K|]. split; [exact OK|].
  exact (proj1 (set_then_get FileSample.propFileOf PropertySample.getStats
                  PropertySample.getLength PropertySample.getMediaType
                  PropertySample.getEtag PropertySample.isCollection
                  "/docs/a.txt" "color" "red" FileSample.disk K OK)).
Defined.

Lemma remove_then_get_witness :
  isPlainKey "author" = true
  /\ fst (FileSystemAdapter.set FileSample.propFileOf "/docs/a.txt" "author"
            None FileSample.disk) = inr tt
  /\ fst (Properties.get FileSample.propFileOf PropertySample.getStats
            PropertySample.getLength PropertySample.getMediaType
            PropertySample.getEtag PropertySample.isCollection
            "/docs/a.txt" "author" FileSample.disk)
     = inr (Some (Properties.Text "alice"))
  /\ fst (Properties.get FileSample.propFileOf PropertySample.getStats
            PropertySample.getLength PropertySample.getMediaType
            PropertySample.getEtag PropertySample.isCollection
            "/docs/a.txt" "author"
            (snd (FileSystemAdapter.set FileSample.propFileOf "/docs/a.txt"
                    "author" None FileSample.disk)))
     <> inr (Some (Properties.Text "alice")).
Proof.
  assert (K : isPlainKey "author" = true) by reflexivity.
  assert (OK : fst (FileSystemAdapter.set FileSample.propFileOf "/docs/a.txt"
                      "author" None FileSample.disk) = inr tt)
    by (vm_compute; reflexivity).
  split; [exact K|]. split; [exact OK|]. split; [vm_compute; reflexivity|].
  exact (proj1 (remove_then_get FileSample.propFileOf PropertySample.getStats
                  PropertySample.getLength PropertySample.getMediaType
                  PropertySample.getEtag PropertySample.isCollection
                  "/docs/a.txt" "author" FileSample.disk K OK)
           (Properties.Text "alice")).
Defined.

Lemma unreadable_property_file_witness :
  ~ In "color"%string Properties.listLive
  /\ FileSystemAdapter.files PropertySample.brokenDisk
       !! FileSample.propFileOf "/docs/a.txt"
     = Some (FileSystemAdapter.Unreadable "EACCES")
  /\ fst (FileSystemAdapter.set FileSample.propFileOf "/docs/a.txt" "color"
            (Some "red"%string) PropertySample.brokenDisk)
     = inl (IOError "EACCES")
  /\ fst (Properties.list FileSample.propFileOf "/docs/a.txt"
            PropertySample.brokenDisk)
     = inl (Properties.Thrown (IOError "EACCES")).
Proof.
  assert (N : ~ In "color"%string Properties.listLive)
    by (vm_compute; intuition discriminate).
  assert (F : FileSystemAdapter.files PropertySample.brokenDisk
                !! FileSample.propFileOf "/docs/a.txt"
              = Some (FileSystemAdapter.Unreadable "EACCES"))
    by (vm_compute; reflexivity).
  assert (C : "EACCES"%string <> "ENOENT"%string) by discriminate.
  split; [exact N|]. split; [exact F|].
  destruct (unreadable_property_file FileSample.propFileOf
              PropertySample.getStats PropertySample.getLength
              PropertySample.getMediaType PropertySample.getEtag
              PropertySample.isCollection "/docs/a.txt" "color"
              (Some "red"%string) PropertySample.brokenDisk "EACCES" N F C)
    as (S1 & _ & _ & _ & _ & L).
  split; [exact S1|exact L].
Defined.

Lemma missing_property_file_witness :
  ~ In "color"%string Properties.listLive
  /\ FileSystemAdapter.files PropertySample.emptyDisk
       !! FileSample.propFileOf "/docs/a.txt" = None
  /\ isPlainKey "color" = true
  /\ fst (Properties.get FileSample.propFileOf PropertySample.getStats
            PropertySample.getLength PropertySample.getMediaType
            PropertySample.getEtag PropertySample.isCollection
            "/docs/a.txt" "color" PropertySample.emptyDisk) = inr None
  /\ fst (Properties.listDead FileSample.propFileOf "/docs/a.txt"
            PropertySample.emptyDisk)
     = inr ["displayname"; "getcontentlanguage"]%string
  /\ FileSystemAdapter.files
       (snd (FileSystemAdapter.set FileSample.propFileOf "/docs/a.txt" "color"
               (Some "red"%string) PropertySample.emptyDisk))
     = <[FileSample.propFileOf "/docs/a.txt"
         := FileSystemAdapter.Document
              {[ "*"%string := {[ "color"%string := "red"%string ]} ]}]>
         (FileSystemAdapter.files PropertySample.emptyDisk).
Proof.
  assert (N : ~ In "color"%string Properties.listLive)
    by (vm_compute; intuition discriminate).
  assert (F : FileSystemAdapter.files PropertySample.emptyDisk
                !! FileSample.propFileOf "/docs/a.txt" = None)
    by (vm_compute; reflexivity).
  assert (K : isPlainKey "color" = true) by reflexivity.
  split; [exact N|]. split; [exact F|]. split; [exact K|].
  destruct (missing_property_file FileSample.propFileOf
              PropertySample.getStats PropertySample.getLength
              PropertySample.getMediaType PropertySample.getEtag
              PropertySample.isCollection "/docs/a.txt" "color" "red"
              PropertySample.emptyDisk N F) as (G & D & _ & W).
  split; [exact G|]. split; [exact D|exact (W K)].
Defined.

Lemma document_without_star_witness :
  ~ In "color"%string Properties.listLive
  /\ FileSystemAdapter.files PropertySample.starlessDisk
       !! FileSample.propFileOf "/docs/a.txt"
     = Some (FileSystemAdapter.Document ∅)
  /\ fst (Properties.get FileSample.propFileOf PropertySample.getStats
            PropertySample.getLength PropertySample.getMediaType
            PropertySample.getEtag PropertySample.isCollection
            "/docs/a.txt" "color" PropertySample.starlessDisk)
     = inl Properties.TypeError.
Proof.
  assert (N : ~ In "color"%string Properties.listLive)
    by (vm_compute; intuition discriminate).
  assert (F : FileSystemAdapter.files PropertySample.starlessDisk
                !! FileSample.propFileOf "/docs/a.txt"
              = Some (FileSystemAdapter.Document ∅))
    by (vm_compute; reflexivity).
  split; [exact N|]. split; [exact F|].
  exact (proj1 (document_without_star FileSample.propFileOf
                  PropertySample.getStats PropertySample.getLength
                  PropertySample.getMediaType PropertySample.getEtag
                  PropertySample.isCollection "/docs/a.txt" "color"
                  PropertySample.starlessDisk ∅ N F (lookup_empty _))).
Defined.

Lemma getAll_agrees_with_get_witness :
  exists object,
    fst (Properties.getAll FileSample.propFileOf PropertySample.getStats
           PropertySample.getLength PropertySample.getMediaType
           PropertySample.getEtag PropertySample.isCollection
           "/docs/a.txt" FileSample.disk) = inr object
    /\ fst (Properties.get FileSample.propFileOf PropertySample.getStats
              PropertySample.getLength PropertySample.getMediaType
              PropertySample.getEtag PropertySample.isCollection
              "/docs/a.txt" "author" FileSample.disk)
       = inr (Some (Properties.Text "alice"))
    /\ Properties.member object "author" = Some (Properties.Text "alice").
Proof.
  assert (A : exists object,
            fst (Properties.getAll FileSample.propFileOf PropertySample.getStats
                   PropertySample.getLength PropertySample.getMediaType
                   PropertySample.getEtag PropertySample.isCollection
                   "/docs/a.txt" FileSample.disk) = inr object).
  { apply (getAll_succeeds FileSample.propFileOf PropertySample.getStats
             PropertySample.getLength PropertySample.getMediaType
             PropertySample.getEtag PropertySample.isCollection
             "/docs/a.txt" FileSample.disk
             {[ "*"%string := {[ "author"%string := "alice"%string ]} ]}).
    reflexivity. }
  destruct A as (object & A).
  assert (G : fst (Properties.get FileSample.propFileOf PropertySample.getStats
                     PropertySample.getLength PropertySample.getMediaType
                     PropertySample.getEtag PropertySample.isCollection
                     "/docs/a.txt" "author" FileSample.disk)
              = inr (Some (Properties.Text "alice")))
    by (vm_compute; reflexivity).
  exists object. split; [exact A|]. split; [exact G|].
  exact (getAll_agrees_with_get FileSample.propFileOf PropertySample.getStats
           PropertySample.getLength PropertySample.getMediaType
           PropertySample.getEtag PropertySample.isCollection
           "/docs/a.txt" FileSample.disk object "author" _ A G).
Defined.

Lemma stored_name_is_listed_witness :
  fst (FileSystemAdapter.set FileSample.propFileOf "/docs/a.txt" "color"
         (Some "red"%string) FileSample.disk) = inr tt
  /\ exists dead,
       fst (Properties.listDead FileSample.propFileOf "/docs/a.txt"
              (snd (FileSystemAdapter.set FileSample.propFileOf "/docs/a.txt"
                      "color" (Some "red"%string) FileSample.disk)))
       = inr dead
       /\ In "color"%string dead.
Proof.
  assert (OK : fst (FileSystemAdapter.set FileSample.propFileOf "/docs/a.txt"
                      "color" (Some "red"%string) FileSample.disk) = inr tt)
    by (vm_compute; reflexivity).
  split; [exact OK|].
  destruct (stored_name_is_listed FileSample.propFileOf "/docs/a.txt" "color"
              "red" FileSample.disk eq_refl OK) as (dead & D & I & _).
  exists dead. split; [exact D|exact I].
Defined.

(** ** The locks of the file-system adapter *)

Section FileSystemLocks.

Import FileSystemAdapter.

Lemma save_document (this : Lock.t) (disk : gmap string Meta) :
  Lock.save this disk
  = <[Lock.resource this :=
        mkMeta (meta_props (readMetadataFile (Lock.resource this) disk))
          (Some (<[Lock.token this := Lock.toRecord this]>
                   (default ∅ (meta_locks
                                 (readMetadataFile (Lock.resource this) disk)))))]>
      disk.
Proof.
  unfold Lock.save, saveMetadataFile.
  generalize (readMetadataFile (Lock.resource this) disk). intros m.
  destruct m as [props [g|]]; reflexivity.
Qed.

Lemma read_other_resource resource other meta disk :
  other <> resource ->
  readMetadataFile other (<[resource := meta]> disk)
  = readMetadataFile other disk.
Proof.
  intros N. unfold readMetadataFile. rewrite lookup_insert_ne by congruence.
  reflexivity.
Qed.

Lemma read_same_resource resource meta disk :
  readMetadataFile resource (<[resource := meta]> disk) = meta.
Proof. unfold readMetadataFile. rewrite lookup_insert_eq. reflexivity. Qed.

(** X19.  [delete] after [save] leaves the document of the lock's resource
    without the lock's token: its locks are those stored before, the one
    under that token apart, its properties are unchanged, and so are the
    documents of the other resources. *)
Theorem delete_after_save (this : Lock.t) (disk : gmap string Meta) :
  let before := readMetadataFile (Lock.resource this) disk in
  let disk' := Lock.delete this (Lock.save this disk) in
  let after := readMetadataFile (Lock.resource this) disk' in
  meta_locks after
  = Some (base.delete (Lock.token this) (default ∅ (meta_locks before)))
  /\ meta_props after = meta_props before
  /\ base.delete (Lock.resource this) disk'
     = base.delete (Lock.resource this) disk.
Proof.
  cbv zeta. rewrite save_document. unfold Lock.delete.
  rewrite read_same_resource. cbn [meta_locks meta_props].
  rewrite lookup_insert_eq.
  rewrite bool_decide_true by eauto. cbn [negb].
  unfold saveMetadataFile. rewrite insert_insert_eq, read_same_resource.
  cbn [meta_locks meta_props]. rewrite !delete_insert_eq. auto.
Qed.

(** X20.  [delete] is idempotent, and where the document of the resource
    holds no lock under the token it changes nothing. *)
Theorem delete_is_idempotent (this : Lock.t) (disk : gmap string Meta) :
  Lock.delete this (Lock.delete this disk) = Lock.delete this disk
  /\ (default ∅ (meta_locks (readMetadataFile (Lock.resource this) disk))
        !! Lock.token this = None ->
      Lock.delete this disk = disk).
Proof.
  split.
  - unfold Lock.delete at 2 3.
    destruct (meta_locks (readMetadataFile (Lock.resource this) disk))
      as [locks|] eqn:L.
    + destruct (locks !! Lock.token this) as [r|] eqn:T.
      * rewrite bool_decide_true by eauto. cbn [negb].
        unfold Lock.delete, saveMetadataFile.
        rewrite read_same_resource. cbn [meta_locks].
        rewrite lookup_delete_eq.
        rewrite bool_decide_false by (intros [x X]; discriminate).
        reflexivity.
      * rewrite bool_decide_false by (intros [x X]; discriminate).
        cbn [negb]. unfold Lock.delete. rewrite L, T.
        rewrite bool_decide_false by (intros [x X]; discriminate).
        reflexivity.
    + unfold Lock.delete. rewrite L. reflexivity.
  - intros H. unfold Lock.delete.
    destruct (meta_locks (readMetadataFile (Lock.resource this) disk))
      as [locks|]; [|reflexivity].
    cbn [default from_option id] in H. rewrite H.
    rewrite bool_decide_false by (intros [x X]; discriminate).
    reflexivity.
Qed.

(** X21.  A second [save] under the same token and for the same resource
    replaces the first: the outcome is that of the second alone. *)
Theorem save_overwrites (first second : Lock.t) (disk : gmap string Meta) :
  Lock.token first = Lock.token second ->
  Lock.resource first = Lock.resource second ->
  Lock.save second (Lock.save first disk) = Lock.save second disk.
Proof.
  intros T R. rewrite !save_document. rewrite R, T.
  rewrite read_same_resource. cbn [meta_locks meta_props default from_option id].
  rewrite !insert_insert_eq. reflexivity.
Qed.

(** X22.  Operations on different locks do not interfere: for two locks
    that differ in their token or in their resource, two [save]s commute,
    and so do a [save] of the one and a [delete] of the other. *)
Theorem different_locks_commute (a b : Lock.t) (disk : gmap string Meta) :
  Lock.token a <> Lock.token b \/ Lock.resource a <> Lock.resource b ->
  Lock.save a (Lock.save b disk) = Lock.save b (Lock.save a disk)
  /\ Lock.delete b (Lock.save a disk) = Lock.save a (Lock.delete b disk).
Proof.
  intros D.
  destruct (decide (Lock.resource a = Lock.resource b)) as [R|R].
  - assert (T : Lock.token a <> Lock.token b) by tauto. clear D. split.
    + rewrite !save_document. rewrite R, !read_same_resource.
      cbn [meta_locks meta_props default from_option id].
      rewrite !insert_insert_eq.
      rewrite (insert_insert_ne _ (Lock.token a) (Lock.token b)) by exact T.
      reflexivity.
    + rewrite save_document. unfold Lock.delete.
      rewrite <- R, read_same_resource. cbn [meta_locks meta_props].
      rewrite lookup_insert_ne by exact T.
      destruct (meta_locks (readMetadataFile (Lock.resource a) disk))
        as [locks|] eqn:L; cbn [default from_option id].
      * destruct (locks !! Lock.token b) as [r|] eqn:B.
        -- rewrite !bool_decide_true by eauto. cbn [negb].
           rewrite save_document. unfold saveMetadataFile.
           rewrite read_same_resource. cbn [meta_locks meta_props].
           rewrite !insert_insert_eq.
           cbn [default from_option id].
           rewrite delete_insert_ne by congruence. reflexivity.
        -- rewrite !bool_decide_false by (intros [x X]; discriminate).
           cbn [negb]. rewrite save_document, L. reflexivity.
      * rewrite lookup_empty.
        rewrite bool_decide_false by (intros [x X]; discriminate).
        cbn [negb]. rewrite save_document, L. reflexivity.
  - clear D. split.
    + rewrite !save_document.
      rewrite !read_other_resource by congruence.
      apply insert_insert_ne. exact R.
    + rewrite save_document. unfold Lock.delete.
      rewrite read_other_resource by congruence.
      destruct (meta_locks (readMetadataFile (Lock.resource b) disk))
        as [locks|] eqn:L.
      * destruct (negb (bool_decide (is_Some (locks !! Lock.token b)))).
        -- rewrite save_document. reflexivity.
        -- rewrite save_document. unfold saveMetadataFile.
           rewrite read_other_resource by congruence.
           apply insert_insert_ne. congruence.
      * rewrite save_document. reflexivity.
Qed.

End FileSystemLocks.

Lemma delete_is_idempotent_witness :
  default ∅ (FileSystemAdapter.meta_locks
               (FileSystemAdapter.readMetadataFile
                  (FileSystemAdapter.Lock.resource FileSample.lock)
                  FileSample.metadata))
    !! FileSystemAdapter.Lock.token FileSample.lock = None
  /\ FileSystemAdapter.Lock.delete FileSample.lock FileSample.metadata
     = FileSample.metadata.
Proof.
  assert (H : default ∅ (FileSystemAdapter.meta_locks
                           (FileSystemAdapter.readMetadataFile
                              (FileSystemAdapter.Lock.resource FileSample.lock)
                              FileSample.metadata))
                !! FileSystemAdapter.Lock.token FileSample.lock = None)
    by (vm_compute; reflexivity).
  split; [exact H|].
  exact (proj2 (delete_is_idempotent FileSample.lock FileSample.metadata) H).
Defined.

Lemma save_overwrites_witness :
  FileSystemAdapter.Lock.token FileSample.lock
  = FileSystemAdapter.Lock.token LockSample.refreshed
  /\ FileSystemAdapter.Lock.resource FileSample.lock
     = FileSystemAdapter.Lock.resource LockSample.refreshed
  /\ FileSystemAdapter.Lock.save LockSample.refreshed
       (FileSystemAdapter.Lock.save FileSample.lock FileSample.metadata)
     = FileSystemAdapter.Lock.save LockSample.refreshed FileSample.metadata.
Proof.
  split; [reflexivity|]. split; [reflexivity|].
  apply save_overwrites; reflexivity.
Defined.

Lemma different_locks_commute_witness :
  (FileSystemAdapter.Lock.token FileSample.lock
   <> FileSystemAdapter.Lock.token LockSample.other
   \/ FileSystemAdapter.Lock.resource FileSample.lock
      <> FileSystemAdapter.Lock.resource LockSample.other)
  /\ FileSystemAdapter.Lock.save FileSample.lock
       (FileSystemAdapter.Lock.save LockSample.other FileSample.metadata)
     = FileSystemAdapter.Lock.save LockSample.other
         (FileSystemAdapter.Lock.save FileSample.lock FileSample.metadata).
Proof.
  assert (D : FileSystemAdapter.Lock.token FileSample.lock
              <> FileSystemAdapter.Lock.token LockSample.other
              \/ FileSystemAdapter.Lock.resource FileSample.lock
                 <> FileSystemAdapter.Lock.resource LockSample.other)
    by (left; discriminate).
  split; [exact D|].
  exact (proj1 (different_locks_commute FileSample.lock LockSample.other
                  FileSample.metadata D)).
Defined.

(** ** Bodies and their codings *)

Section Bodies.

Variable createGunzip createInflate createBrotliDecompress
  : list Z -> option (list Z).
Variable vary : Response -> string -> Response.
Variable gzipSync deflateSync brotliCompressSync : list Z -> list Z.

(** X23.  [getBodyStream] throws [MediaTypeNotSupportedError] exactly when
    the request states a [Content-Encoding] that is none of [gzip],
    [x-gzip], [deflate], [br], [identity]: the codings it accepts are those
    [getRequestedEncoding] can answer with, and the empty one is refused
    too. *)
Theorem getBodyStream_accepts_the_content_codings request body :
  (exists message,
     getBodyStream createGunzip createInflate createBrotliDecompress
       request body = inl (MediaTypeNotSupportedError message))
  <-> exists encoding,
        get request "Content-Encoding" = Some encoding
        /\ ~ In encoding contentCodings.
Proof.
  unfold getBodyStream, contentCodings.
  destruct (get request "Content-Encoding") as [encoding|].
  - destruct (String.eqb encoding "gzip") eqn:E1;
      [apply String.eqb_eq in E1; subst; split;
       [intros [m H]; discriminate
       |intros (e & H & N); injection H as <-; exfalso; apply N; simpl; tauto]|].
    destruct (String.eqb encoding "x-gzip") eqn:E2;
      [apply String.eqb_eq in E2; subst; split;
       [intros [m H]; discriminate
       |intros (e & H & N); injection H as <-; exfalso; apply N; simpl; tauto]|].
    destruct (String.eqb encoding "deflate") eqn:E3;
      [apply String.eqb_eq in E3; subst; split;
       [intros [m H]; discriminate
       |intros (e & H & N); injection H as <-; exfalso; apply N; simpl; tauto]|].
    destruct (String.eqb encoding "br") eqn:E4;
      [apply String.eqb_eq in E4; subst; split;
       [intros [m H]; discriminate
       |intros (e & H & N); injection H as <-; exfalso; apply N; simpl; tauto]|].
    destruct (String.eqb encoding "identity") eqn:E5;
      [apply String.eqb_eq in E5; subst; split;
       [intros [m H]; discriminate
       |intros (e & H & N); injection H as <-; exfalso; apply N; simpl; tauto]|].
    cbn [orb]. split; [intros _|intros _; eexists; reflexivity].
    exists encoding. split; [reflexivity|].
    apply String.eqb_neq in E1, E2, E3, E4, E5. simpl.
    intros [H|[H|[H|[H|[H|[]]]]]]; congruence.
  - split; [intros [m H]; discriminate|intros (e & H & _); discriminate].
Qed.

(** In every case [sendBodyContent] sends a body and sets
    [Content-Length] to the number of bytes of the body it sends. *)
Theorem sendBodyContent_length_of_the_body_sent opts response content encoding :
  let response' :=
    sendBodyContent vary gzipSync deflateSync brotliCompressSync opts
      response content encoding in
  exists body,
    sentBody response' = Some body
    /\ getHeader response' "Content-Length" = Some (HNumber (byteLength body)).
Proof.
  cbv zeta. unfold sendBodyContent.
  destruct (negb (compression opts) || String.eqb encoding "identity" || _)%bool;
    eexists; (split; [reflexivity|]);
    unfold getHeader, send, setHeader; cbn [responseHeaders];
    apply lookup_insert_eq.
Qed.

(** X24.  With compression switched off, or with a [Cache-Control] header
    of the response that holds the directive [no-transform], the body sent
    is the UTF-8 text itself, whatever encoding was asked for, and no
    [Content-Encoding] header is set. *)
Theorem sendBodyContent_no_transform opts response content encoding :
  compression opts = false
  \/ (exists cacheControl,
        getHeader (vary response "Accept-Encoding") "Cache-Control"
        = Some (HString cacheControl)
        /\ In "no-transform"%string
              (map JS.trim (JS.split "," cacheControl))) ->
  let response' :=
    sendBodyContent vary gzipSync deflateSync brotliCompressSync opts
      response content encoding in
  sentBody response' = Some (Buffer_from_utf8 content)
  /\ getHeader response' "Content-Encoding"
     = getHeader (vary response "Accept-Encoding") "Content-Encoding".
Proof.
  intros H. cbv zeta. unfold sendBodyContent.
  assert (T : (negb (compression opts) || String.eqb encoding "identity"
               || match getHeader (vary response "Accept-Encoding")
                          "Cache-Control" with
                  | Some (HString s) => matchesNoTransform s
                  | _ => false
                  end)%bool = true).
  { destruct H as [->|(cc & -> & I)]; [reflexivity|].
    rewrite !orb_true_iff. right. unfold matchesNoTransform.
    apply existsb_exists. apply in_map_iff in I as (piece & E & I).
    exists piece. split; [exact I|]. rewrite E. reflexivity. }
  rewrite T. split; [reflexivity|].
  unfold getHeader, send, setHeader. cbn [responseHeaders].
  apply lookup_insert_ne. discriminate.
Qed.

(** X25.  What [sendBodyContent] sends, [getBodyStream] reads back: for
    each of the five content codings, a request that carries the body sent
    and states the [Content-Encoding] of the response yields the UTF-8 text
    of the content, provided the decompressors of [zlib] undo its
    compressors and the response had no [Content-Encoding] header. *)
Theorem sent_body_is_read_back opts response content encoding request :
  (forall b, createGunzip (gzipSync b) = Some b) ->
  (forall b, createInflate (deflateSync b) = Some b) ->
  (forall b, createBrotliDecompress (brotliCompressSync b) = Some b) ->
  In encoding contentCodings ->
  getHeader (vary response "Accept-Encoding") "Content-Encoding" = None ->
  let response' :=
    sendBodyContent vary gzipSync deflateSync brotliCompressSync opts
      response content encoding in
  get request "Content-Encoding" = contentEncodingOf response' ->
  exists body,
    sentBody response' = Some body
    /\ getBodyStream createGunzip createInflate createBrotliDecompress
         request body = inr (Some (Buffer_from_utf8 content)).
Proof.
  intros G D B I V. cbv zeta. unfold contentEncodingOf, sendBodyContent.
  destruct (negb (compression opts) || String.eqb encoding "identity" || _)%bool
    eqn:T.
  - unfold getHeader, send, setHeader. cbn [responseHeaders sentBody].
    rewrite lookup_insert_ne by discriminate.
    unfold getHeader in V. rewrite V. intros R.
    eexists. split; [reflexivity|]. unfold getBodyStream. rewrite R.
    reflexivity.
  - unfold getHeader, send, setHeader. cbn [responseHeaders sentBody].
    rewrite lookup_insert_ne by discriminate. rewrite lookup_insert_eq.
    intros R. eexists. split; [reflexivity|].
    unfold getBodyStream. rewrite R.
    apply orb_false_iff in T as [T _]. apply orb_false_iff in T as [_ T].
    unfold contentCodings in I. simpl in I.
    destruct I as [<-|[<-|[<-|[<-|[<-|[]]]]]]; cbn; try discriminate;
      f_equal; auto.
Qed.

End Bodies.

Lemma sendBodyContent_no_transform_witness :
  getHeader
    (varyAppend
       (mkResponse {[ "cache-control"%string := HString "private, no-transform" ]}
          None) "Accept-Encoding") "Cache-Control"
  = Some (HString "private, no-transform")
  /\ In "no-transform"%string
        (map JS.trim (JS.split "," "private, no-transform"))
  /\ sentBody
       (sendBodyContent varyAppend (fun b => 31 :: b)%Z (fun b => b) (fun b => b)
          (mkOptions true 30000)
          (mkResponse
             {[ "cache-control"%string := HString "private, no-transform" ]} None)
          [104; 105]%Z "gzip")
     = Some (Buffer_from_utf8 [104; 105]%Z).
Proof.
  assert (C : getHeader
                (varyAppend
                   (mkResponse
                      {[ "cache-control"%string
                         := HString "private, no-transform" ]} None)
                   "Accept-Encoding") "Cache-Control"
              = Some (HString "private, no-transform"))
    by (vm_compute; reflexivity).
  assert (I : In "no-transform"%string
                 (map JS.trim (JS.split "," "private, no-transform")))
    by (vm_compute; tauto).
  split; [exact C|]. split; [exact I|].
  apply (sendBodyContent_no_transform varyAppend (fun b => 31 :: b)%Z
           (fun b => b) (fun b => b) (mkOptions true 30000)).
  right. exists "private, no-transform"%string. split; [exact C|exact I].
Defined.

Lemma sent_body_is_read_back_witness :
  In "x-gzip"%string contentCodings
  /\ exists body,
       sentBody
         (sendBodyContent varyAppend (fun b => 31 :: b)%Z (fun b => b)
            (fun b => b) (mkOptions true 30000) (mkResponse ∅ None)
            [104; 105]%Z "x-gzip") = Some body
       /\ getBodyStream (fun b => Some (tl b)) (fun b => Some b)
            (fun b => Some b)
            (mkRequest "PUT" "" [("content-encoding", "x-gzip")]%string) body
          = inr (Some (Buffer_from_utf8 [104; 105]%Z)).
Proof.
  assert (I : In "x-gzip"%string contentCodings) by (vm_compute; tauto).
  split; [exact I|].
  apply (sent_body_is_read_back (fun b => Some (tl b)) (fun b => Some b)
           (fun b => Some b) varyAppend (fun b => 31 :: b)%Z (fun b => b)
           (fun b => b) (mkOptions true 30000) (mkResponse ∅ None)
           [104; 105]%Z "x-gzip"
           (mkRequest "PUT" "" [("content-encoding", "x-gzip")]%string));
    [reflexivity|reflexivity|reflexivity|exact I
    |vm_compute; reflexivity|vm_compute; reflexivity].
Defined.

(** ** Content negotiation, further *)

(** X26.  When the header lists one content coding only (beside names the
    method does not know), that coding is the answer whatever its q-value
    is, a q-value of 0 included. *)
Theorem sole_content_coding_is_chosen {number : Type}
  (parseFloat : string -> number) (sub : number -> number -> number)
  (positive : number -> bool) (request : Request) (name : string) :
  In name (listed (acceptEncodingOf request)) ->
  In name contentCodings ->
  (forall other,
     In other (listed (acceptEncodingOf request)) ->
     In other contentCodings \/ other = "*"%string -> other = name) ->
  getRequestedEncoding parseFloat sub positive request = inr name.
Proof.
  intros L C U.
  pose proof (getRequestedEncoding_chosen parseFloat sub positive request) as G.
  cbv zeta in G.
  destruct (chosen parseFloat sub positive (acceptEncodingOf request))
    as [[n q]|] eqn:E.
  - destruct G as [R ->]. apply recognised_cases in R.
    assert (I : In n (listed (acceptEncodingOf request))).
    { unfold chosen in E. apply find_some in E as [E _].
      apply (Permutation_in _ (sort_Permutation sub positive _)) in E.
      rewrite <- (parseEncodings_names parseFloat).
      apply in_map_iff. exists (n, q). split; [reflexivity|exact E]. }
    rewrite (U n I R).
    destruct (String.eqb name "*") eqn:Q; [|reflexivity].
    apply String.eqb_eq in Q. subst name. exfalso.
    unfold contentCodings in C. simpl in C. intuition discriminate.
  - exfalso.
    destruct (proj1 (chosen_None_iff parseFloat sub positive _) E name L)
      as [N _].
    contradiction.
Qed.

Lemma sole_content_coding_is_chosen_witness :
  listed (acceptEncodingOf (withAcceptEncoding (Some "compress, gzip;q=0")))
  = ["compress"; "gzip"]%string
  /\ getRequestedEncoding Decimal.parseFloat Decimal.sub Decimal.positive
       (withAcceptEncoding (Some "compress, gzip;q=0")) = inr "gzip"%string.
Proof.
  assert (L : listed (acceptEncodingOf
                        (withAcceptEncoding (Some "compress, gzip;q=0")))
              = ["compress"; "gzip"]%string) by (vm_compute; reflexivity).
  split; [exact L|].
  apply sole_content_coding_is_chosen.
  - rewrite L. right. left. reflexivity.
  - unfold contentCodings. left. reflexivity.
  - rewrite L. intros other [<-|[<-|[]]] [C|C].
    + unfold contentCodings in C. simpl in C. exfalso. intuition discriminate.
    + discriminate.
    + reflexivity.
    + reflexivity.
Defined.

(** ** Cache directives *)

Lemma addDirective_insert cacheControl directive :
  addDirective cacheControl directive
  = if isStored directive
    then <[directiveKey directive := directiveValue directive]> cacheControl
    else cacheControl.
Proof.
  unfold addDirective, directiveKey, directiveValue, isStored.
  destruct (String.eqb directive "__proto__") eqn:E.
  - apply String.eqb_eq in E. subst directive. reflexivity.
  - destruct (isNumericDirective directive); reflexivity.
Qed.

Lemma find_app {A} (p : A -> bool) (l l' : list A) :
  List.find p (l ++ l')
  = match List.find p l with
    | Some x => Some x
    | None => List.find p l'
    end.
Proof.
  induction l as [|x l IH]; [reflexivity|]. simpl.
  destruct (p x); [reflexivity|exact IH].
Qed.

Lemma fold_addDirective directives : forall cacheControl key,
  fold_left addDirective directives cacheControl !! key
  = match List.find (fun d => String.eqb (directiveKey d) key)
            (rev (List.filter isStored directives)) with
    | Some d => Some (directiveValue d)
    | None => cacheControl !! key
    end.
Proof.
  induction directives as [|d ds IH]; intros m key; [reflexivity|].
  cbn [fold_left List.filter]. rewrite IH, addDirective_insert.
  destruct (isStored d); [|reflexivity].
  cbn [rev]. rewrite find_app. cbn [List.find].
  destruct (List.find _ (rev (List.filter isStored ds))); [reflexivity|].
  destruct (String.eqb (directiveKey d) key) eqn:E.
  - apply String.eqb_eq in E. subst key. apply lookup_insert_eq.
  - apply String.eqb_neq in E. apply lookup_insert_ne. exact E.
Qed.

Lemma getCacheControl_lookup request key :
  getCacheControl request !! key
  = directiveValue
      <$> List.find (fun d => String.eqb (directiveKey d) key)
            (rev (List.filter isStored (directivesOf request))).
Proof.
  unfold getCacheControl, directivesOf. rewrite fold_addDirective.
  destruct (List.find _ _); [reflexivity|apply lookup_empty].
Qed.

Lemma split_before_separator sep name : forall behind,
  Forall (fun c => Ascii.eqb c sep = false) (list_ascii_of_string name) ->
  JS.split sep (name ++ String sep behind) = name :: JS.split sep behind.
Proof.
  induction name as [|c name IH]; intros behind F.
  - change (JS.split sep (String sep behind) = EmptyString :: JS.split sep behind).
    cbn [JS.split]. rewrite Ascii.eqb_refl. reflexivity.
  - simpl in F. apply List.Forall_cons_iff in F as [C F].
    change (JS.split sep (String c (name ++ String sep behind))
            = String c name :: JS.split sep behind).
    cbn [JS.split]. rewrite C, (IH behind F). reflexivity.
Qed.

Lemma numeric_directive_key directive :
  isNumericDirective directive = true ->
  In (directiveKey directive)
     ["max-age"; "s-maxage"; "stale-while-revalidate"; "stale-if-error";
      "max-stale"; "min-fresh"]%string.
Proof.
  intros N. unfold directiveKey. rewrite N.
  unfold isNumericDirective in N. rewrite !orb_true_iff in N.
  assert (K : forall name,
            Forall (fun c => Ascii.eqb c "=" = false)
                   (list_ascii_of_string name) ->
            String.prefix (name ++ "=") directive = true ->
            hd EmptyString (JS.split "=" directive) = name).
  { intros name F P. destruct (prefix_split _ _ P) as (r & -> & _).
    rewrite append_assoc.
    change ("=" ++ r)%string with (String "=" r).
    rewrite (split_before_separator "=" name r F). reflexivity. }
  assert (F : forall name,
            forallb (fun c => negb (Ascii.eqb c "=")) (list_ascii_of_string name)
            = true ->
            Forall (fun c => Ascii.eqb c "=" = false)
                   (list_ascii_of_string name)).
  { intros name H. apply List.Forall_forall. intros c I.
    apply (proj1 (forallb_forall _ _) H) in I. apply negb_true_iff, I. }
  destruct N as [[[[[N|N]|N]|N]|N]|N].
  - rewrite (K "max-age"%string (F "max-age"%string eq_refl) N). simpl. auto.
  - rewrite (K "s-maxage"%string (F "s-maxage"%string eq_refl) N). simpl. auto.
  - rewrite (K "stale-while-revalidate"%string (F "stale-while-revalidate"%string eq_refl) N). simpl. auto.
  - rewrite (K "stale-if-error"%string (F "stale-if-error"%string eq_refl) N). simpl. auto 6.
  - rewrite (K "max-stale"%string (F "max-stale"%string eq_refl) N). simpl. auto 7.
  - rewrite (K "min-fresh"%string (F "min-fresh"%string eq_refl) N). simpl. auto 8.
Qed.

(** X27.  The object [getCacheControl] returns holds, under each key, the
    value of the last directive of the header that is stored under that
    key, and it holds no other key; the directive [__proto__] is not
    stored, so the object never has that key. *)
Theorem getCacheControl_last_directive_wins request key :
  getCacheControl request !! key
  = directiveValue
      <$> List.find (fun d => String.eqb (directiveKey d) key)
            (rev (List.filter isStored (directivesOf request)))
  /\ getCacheControl request !! "__proto__"%string = None.
Proof.
  split; [apply getCacheControl_lookup|].
  rewrite getCacheControl_lookup.
  destruct (List.find _ _) as [d|] eqn:F; [|reflexivity]. exfalso.
  apply find_some in F as [I F]. apply String.eqb_eq in F.
  apply in_rev in I. apply filter_In in I as [_ S].
  unfold directiveKey in F. destruct (isNumericDirective d) eqn:N.
  - pose proof (numeric_directive_key d N) as K. unfold directiveKey in K.
    rewrite N, F in K. simpl in K.
    destruct K as [K|[K|[K|[K|[K|[K|[]]]]]]]; discriminate.
  - subst d. discriminate.
Qed.

(** X28.  The directives are not trimmed: one that begins with white space,
    as every directive behind a comma and a space does, is stored as a flag
    under its full text, also when it reads like a numeric directive. *)
Theorem untrimmed_directive_is_a_flag request directive :
  In directive (directivesOf request) ->
  startsWithWhiteSpace directive = true ->
  getCacheControl request !! directive = Some Flag.
Proof.
  intros I W. rewrite getCacheControl_lookup.
  assert (P : forall lit c s,
            JS.isWhiteSpace c = true -> JS.isWhiteSpace lit = false ->
            forall rest, String.prefix (String lit rest) (String c s) = false).
  { intros lit c s Wc Wl rest. cbn [String.prefix].
    destruct (ascii_dec lit c) as [->|_]; [congruence|reflexivity]. }
  assert (Nn : isNumericDirective directive = false).
  { destruct directive as [|c s]; [discriminate|]. cbn in W.
    unfold isNumericDirective.
    rewrite !(P _ c s W) by reflexivity. reflexivity. }
  assert (Kd : directiveKey directive = directive)
    by (unfold directiveKey; rewrite Nn; reflexivity).
  destruct (List.find (fun d => String.eqb (directiveKey d) directive)
              (rev (List.filter isStored (directivesOf request))))
    as [d|] eqn:F.
  - apply find_some in F as [_ F]. apply String.eqb_eq in F.
    cbn [fmap option_fmap option_map]. f_equal. unfold directiveValue.
    destruct (isNumericDirective d) eqn:Nd; [|reflexivity]. exfalso.
    pose proof (numeric_directive_key d Nd) as K. rewrite F in K.
    simpl in K.
    destruct K as [<-|[<-|[<-|[<-|[<-|[<-|[]]]]]]]; discriminate.
  - exfalso.
    assert (S : isStored directive = true).
    { destruct directive as [|c s]; [discriminate|]. cbn in W.
      unfold isStored. cbn [String.eqb].
      destruct (Ascii.eqb c "_") eqn:C; [|reflexivity].
      apply Ascii.eqb_eq in C. subst c. discriminate. }
    assert (I' : In directive (rev (List.filter isStored (directivesOf request))))
      by (apply in_rev; rewrite rev_involutive; apply filter_In; auto).
    pose proof (find_none _ _ F directive I') as Q. cbv beta in Q.
    rewrite Kd, String.eqb_refl in Q. discriminate.
Qed.

Lemma untrimmed_directive_is_a_flag_witness :
  In " max-age=0"%string (directivesOf CacheSample.request)
  /\ getCacheControl CacheSample.request !! " max-age=0"%string = Some Flag.
Proof.
  assert (I : In " max-age=0"%string (directivesOf CacheSample.request))
    by (vm_compute; tauto).
  split; [exact I|].
  apply untrimmed_directive_is_a_flag; [exact I|reflexivity].
Defined.

(** ** Lock discovery *)

Section Discovery.

Context {Owner : Type}.
Variable secondsText : Z -> string.

Lemma fold_pushActiveLock now (locks : list (@LockView Owner)) :
  forall activelock,
    map locktoken (fold_left (pushActiveLock secondsText now) locks activelock)
    = map locktoken activelock
      ++ map view_token (List.filter (fun l => negb (timedOut now l)) locks).
Proof.
  induction locks as [|l locks IH]; intros acc; cbn [fold_left List.filter map].
  - rewrite app_nil_r. reflexivity.
  - rewrite IH. unfold pushActiveLock, secondsLeft, timedOut.
    destruct (view_timeout l) as [ms|].
    + replace (view_date l + ms - now <=? 0)%Z
        with (view_date l + ms <=? now)%Z
        by (destruct (Z.leb_spec (view_date l + ms) now);
            destruct (Z.leb_spec (view_date l + ms - now) 0); lia).
      destruct (view_date l + ms <=? now)%Z; cbn [negb]; [reflexivity|].
      rewrite map_app, <- app_assoc. reflexivity.
    + cbn [negb]. rewrite map_app, <- app_assoc. reflexivity.
Qed.

(** X29.  [formatLocks] lists one [activelock] for each lock that has not
    timed out, in the order given, and none for the others; it returns the
    empty object exactly when there is none to list.  A lock without
    timeout never times out. *)
Theorem formatLocks_lists_the_locks_in_force
    (locks : list (@LockView Owner)) (now : Z) :
  let out := formatLocks secondsText (Some locks) now in
  map locktoken (default [] out)
  = map view_token (List.filter (fun l => negb (timedOut now l)) locks)
  /\ (out = None <-> Forall (fun l => timedOut now l = true) locks)
  /\ (forall l : @LockView Owner,
        view_timeout l = Infinity -> timedOut now l = false).
Proof.
  cbv zeta. unfold formatLocks.
  pose proof (fold_pushActiveLock now locks []) as F. cbn [map app] in F.
  set (activelock := fold_left (pushActiveLock secondsText now) locks []) in *.
  split; [|split].
  - destruct (lengthTruthy activelock) eqn:L; cbn [negb default from_option id].
    + exact F.
    + apply lengthTruthy_false in L. rewrite L in F. exact F.
  - assert (E : activelock = []
                <-> Forall (fun l => timedOut now l = true) locks).
    { split.
      - intros E. rewrite E in F. cbn [map] in F.
        apply List.Forall_forall. intros l I.
        destruct (timedOut now l) eqn:T; [reflexivity|]. exfalso.
        assert (I' : In l (List.filter (fun l => negb (timedOut now l)) locks))
          by (apply filter_In; rewrite T; auto).
        destruct (List.filter _ locks); [destruct I'|discriminate].
      - intros A.
        assert (N : List.filter (fun l => negb (timedOut now l)) locks = []).
        { clear F activelock. induction locks as [|l ls IH]; [reflexivity|].
          apply List.Forall_cons_iff in A as [T A]. cbn [List.filter].
          rewrite T. cbn [negb]. apply IH, A. }
        rewrite N in F. destruct activelock; [reflexivity|discriminate]. }
    destruct (lengthTruthy activelock) eqn:L; cbn [negb].
    + apply lengthTruthy_true in L. split; [discriminate|].
      intros A. apply E in A. contradiction.
    + apply lengthTruthy_false in L. split; [intros _; apply E, L|reflexivity].
  - intros l T. unfold timedOut. rewrite T. reflexivity.
Qed.

(** X30.  [formatLocks] and the expiry sweep agree on which locks are in
    force: run at the same time on the same locks of the lock engine,
    [formatLocks] lists the tokens of exactly the locks
    [removeAndDeleteTimedOutLocks] returns, in the same order. *)
Theorem formatLocks_agrees_with_the_sweep
    (ownerOf : Lock.t -> Owner) (locks : list Lock.t) (w : World) :
  map locktoken
      (default []
         (formatLocks secondsText (Some (map (viewOfLock ownerOf) locks))
            (now w)))
  = map Lock.token (fst (removeAndDeleteTimedOutLocks locks w)).
Proof.
  assert (E : map locktoken
                 (default []
                    (formatLocks secondsText
                       (Some (map (viewOfLock ownerOf) locks)) (now w)))
               = map view_token
                   (List.filter (fun l => negb (timedOut (now w) l))
                      (map (viewOfLock ownerOf) locks))).
  { unfold formatLocks.
    pose proof (fold_pushActiveLock (now w) (map (viewOfLock ownerOf) locks) [])
      as F.
    cbn [map app] in F.
    destruct (lengthTruthy _) eqn:L; cbn [negb default from_option id];
      [exact F|].
    apply lengthTruthy_false in L. rewrite L in F. exact F. }
  rewrite E. clear E.
  unfold removeAndDeleteTimedOutLocks. rewrite loop_result. cbn [app].
  induction locks as [|l locks IH]; [reflexivity|].
  cbn [map List.filter].
  change (timedOut (now w) (viewOfLock ownerOf l)) with (expired (now w) l).
  unfold live. destruct (expired (now w) l); cbn [negb map];
    [exact IH|f_equal; exact IH].
Qed.

End Discovery.
